(** * Answer evaluation, quiz scoring and study history of the quiz application

    A shallow embedding of [src/components/Quiz.tsx] (the answer evaluator
    [isAnswerMatch], the handlers of the [Quiz] component and its final
    scoring pass) and of the two places that write the persisted study
    history ([handleQuizSubmit], [handleDeleteHistoryItem]). Further modules
    cover the rest of the quiz component (the looks of the option buttons,
    the insertion of math symbols, the audio decoder), the study session
    (question counts, follow-up questions), the two ends of the question
    generator in [src/services/geminiService.ts], the dashboard and the view
    history of [src/App.tsx].

    Conventions of the embedding:
    - a JavaScript string is the list of its UTF-16 code units ([jsstring]);
      [===] on strings is equality of these lists;
    - [string | null] is [option jsstring]; reading an array out of range
      yields [undefined], rendered as [None] by the list lookup;
    - option positions are integers ([Z]): array indices and the value [-1]
      that the scoring pass hands over when no index was found;
    - [String.prototype.toLowerCase] belongs to the JavaScript runtime, not to
      the repository: it is a parameter of the development, and the few facts
      about it that a proof needs are stated as section hypotheses;
    - a JavaScript number is the rational that the binary64 value denotes
      ([Q]); the sums of the weights, the quotient by the question count and
      the product by 100 are rounded to binary64 as the runtime rounds them
      ([round64]); the sums of the weights 1, 0.75, 0.5 and 0.25 turn out
      to be exact. *)

From Stdlib Require Import ZArith NArith QArith Qround Qpower Lia Lqa.
From Stdlib Require Import String Ascii Decimal DecimalZ.
From stdpp Require Import base decidable option numbers list gmap.

Open Scope Z_scope.

(** ** JavaScript strings *)

Module JS.

Definition code_unit := N.
Definition jsstring := list code_unit.

(** An ASCII literal as a JavaScript string. *)
Definition str (s : string) : jsstring :=
  List.map N_of_ascii (list_ascii_of_string s).

(** The class [\s] of a regular expression without the [u] flag: the
    WhiteSpace and LineTerminator code points of ECMAScript. *)
Definition isWhiteSpace (c : code_unit) : bool :=
  ((0x09 <=? c) && (c <=? 0x0D) || (c =? 0x20) || (c =? 0xA0) || (c =? 0x1680)
   || (0x2000 <=? c) && (c <=? 0x200A) || (c =? 0x2028) || (c =? 0x2029)
   || (c =? 0x202F) || (c =? 0x205F) || (c =? 0x3000) || (c =? 0xFEFF))%N.

(** The class [[.,]]. *)
Definition isDotOrComma (c : code_unit) : bool :=
  ((c =? 0x2E) || (c =? 0x2C))%N.

(** [str.replace(/\s+/g, '')]: every maximal run of white space is removed,
    which removes exactly the white-space code units. *)
Definition removeWhiteSpace (s : jsstring) : jsstring :=
  List.filter (fun c => negb (isWhiteSpace c)) s.

(** [str.replace(/[.,]$/, '')]: without the [m] flag [$] is the end of the
    input, so at most the last code unit is removed. *)
Fixpoint removeTrailingDotOrComma (s : jsstring) : jsstring :=
  match s with
  | [] => []
  | [c] => if isDotOrComma c then [] else [c]
  | c :: r => c :: removeTrailingDotOrComma r
  end.

(** [s.startsWith(p)] *)
Fixpoint startsWith (s p : jsstring) : bool :=
  match p, s with
  | [], _ => true
  | _ :: _, [] => false
  | c :: p', d :: s' => (c =? d)%N && startsWith s' p'
  end.

(** [s.includes(p)] *)
Fixpoint includes (s p : jsstring) : bool :=
  startsWith s p ||
  match s with
  | [] => false
  | _ :: s' => includes s' p
  end.

(** Decimal digits of [Number.prototype.toString] on an integer. *)
Fixpoint digits (u : Decimal.uint) : jsstring :=
  match u with
  | Nil => []
  | D0 r => 0x30%N :: digits r
  | D1 r => 0x31%N :: digits r
  | D2 r => 0x32%N :: digits r
  | D3 r => 0x33%N :: digits r
  | D4 r => 0x34%N :: digits r
  | D5 r => 0x35%N :: digits r
  | D6 r => 0x36%N :: digits r
  | D7 r => 0x37%N :: digits r
  | D8 r => 0x38%N :: digits r
  | D9 r => 0x39%N :: digits r
  end.

(** [n.toString()] for an integer [n]: its decimal numeral, with a leading
    minus sign when negative (the positions of this program are array
    indices, far below the magnitude where JavaScript switches to the
    exponent form). *)
Definition toString (n : Z) : jsstring :=
  match Z.to_int n with
  | Decimal.Pos u => digits u
  | Decimal.Neg u => 0x2D%N :: digits u
  end.

(** [arr[i]] for an integer [i]: [None] is [undefined]. *)
Definition index {A} (arr : list A) (i : Z) : option A :=
  if 0 <=? i then arr !! Z.to_nat i else None.

(** Truthiness of [string | undefined]. *)
Definition truthy (s : option jsstring) : bool :=
  match s with
  | None | Some [] => false
  | Some (_ :: _) => true
  end.

(** [s.trim()]: white space removed at both ends. *)
Fixpoint trimStart (s : jsstring) : jsstring :=
  match s with
  | c :: r => if isWhiteSpace c then trimStart r else s
  | [] => []
  end.

Definition trim (s : jsstring) : jsstring :=
  reverse (trimStart (reverse (trimStart s))).

(** [arr[i] = x] on a copy of [arr]. Inside the array the cell is replaced; an
    assignment past the end would extend the array, the skipped cells being
    holes, for which [hole] stands. The handlers below only assign at
    [currentQuestionIndex], which stays inside the arrays ([wf_dispatch]). *)
Definition assign {A} (hole : A) (arr : list A) (i : nat) (x : A) : list A :=
  if decide (i < length arr)%nat then <[i:=x]> arr
  else arr ++ replicate (i - length arr)%nat hole ++ [x].

(** A cell of an array of [T | null] read at an index: [undefined] (outside
    the array) and [null] are both falsy and equal to no value of [T]. *)
Definition nullable {A} (cell : option (option A)) : option A := default None cell.

(** What the proofs ask of [toLowerCase]: code units without case among
    those the evaluator itself produces (the decimal digits and the circled
    digits U+2460..U+2469) are kept, and no white space appears. *)
Definition caseless (c : code_unit) : Prop :=
  (0x30 <= c <= 0x39)%N \/ (0x2460 <= c <= 0x2469)%N.

Definition isDigit (c : code_unit) : Prop := (0x30 <= c <= 0x39)%N.

Definition noWhiteSpace (s : jsstring) : Prop :=
  Forall (fun c => isWhiteSpace c = false) s.

(** The Basic Latin part of [toLowerCase]: [A]-[Z] go to [a]-[z] and every
    other code unit is kept. It agrees with the runtime's function on strings
    whose cased letters are all Basic Latin, and serves to run the program on
    such inputs. *)
Definition asciiLowerUnit (c : code_unit) : code_unit :=
  (if (0x41 <=? c) && (c <=? 0x5A) then c + 0x20 else c)%N.

Definition asciiLower (s : jsstring) : jsstring := List.map asciiLowerUnit s.

End JS.

Import JS.

(** ** The answer evaluator ([isAnswerMatch], Quiz.tsx) *)

Section Evaluator.

(** [String.prototype.toLowerCase] of the runtime. *)
Variable toLowerCase : jsstring -> jsstring.

(** [const normalize = (str) =>
      str.replace(/\s+/g, '').replace(/[.,]$/, '').toLowerCase()] *)
Definition normalize (s : jsstring) : jsstring :=
  toLowerCase (removeTrailingDotOrComma (removeWhiteSpace s)).

Definition circledNumbers : list jsstring :=
  [[0x2460]; [0x2461]; [0x2462]; [0x2463]; [0x2464];
   [0x2465]; [0x2466]; [0x2467]; [0x2468]; [0x2469]]%N.

Definition isAnswerMatch (opt : option jsstring) (answer : jsstring)
    (optionIndex : Z) : bool :=
  match opt with
  | None | Some [] => false                       (* if (!option) return false *)
  | Some option =>
    let normOption := normalize option in
    let normAnswer := normalize answer in
    (* 1. Direct Content Match *)
    if bool_decide (normOption = normAnswer) then true else
    (* 2. Index / Circled Number Match *)
    let indexStr := toString (optionIndex + 1) in
    let circledNumber := index circledNumbers optionIndex in
    if bool_decide (normAnswer = indexStr) then true else
    if truthy circledNumber && bool_decide (Some normAnswer = circledNumber)
    then true else
    if startsWith normAnswer (indexStr ++ str ".")
       || startsWith normAnswer (indexStr ++ str ")") then true else
    if startsWith normAnswer (str "(" ++ indexStr ++ str ")") then true else
    if truthy circledNumber && includes normAnswer (default [] circledNumber)
    then true else
    false
  end.

End Evaluator.

(** The evaluator with the faults of the runtime made explicit: calling a
    method on [null] throws a TypeError. [normalize] is the only place where a
    method is called on a value that may be [null]. *)
Inductive completion (A : Type) : Type :=
| Normal (a : A)
| Throw.
Arguments Normal {A} a.
Arguments Throw {A}.

#[global] Instance completion_bind : MBind completion := fun A B k c =>
  match c with
  | Normal a => k a
  | Throw => Throw
  end.

Section CheckedEvaluator.

Variable toLowerCase : jsstring -> jsstring.

(** [normalize(str)] on a receiver that may be [null]. *)
Definition normalize_call (receiver : option jsstring) : completion jsstring :=
  match receiver with
  | None => Throw
  | Some s => Normal (normalize toLowerCase s)
  end.

Definition isAnswerMatch_run (opt : option jsstring) (answer : jsstring)
    (optionIndex : Z) : completion bool :=
  if negb (truthy opt) then Normal false else
  normOption ← normalize_call opt;
  normAnswer ← normalize_call (Some answer);
  if bool_decide (normOption = normAnswer) then Normal true else
  let indexStr := toString (optionIndex + 1) in
  let circledNumber := index circledNumbers optionIndex in
  if bool_decide (normAnswer = indexStr) then Normal true else
  if truthy circledNumber && bool_decide (Some normAnswer = circledNumber)
  then Normal true else
  if startsWith normAnswer (indexStr ++ str ".")
     || startsWith normAnswer (indexStr ++ str ")") then Normal true else
  if startsWith normAnswer (str "(" ++ indexStr ++ str ")") then Normal true else
  if truthy circledNumber && includes normAnswer (default [] circledNumber)
  then Normal true else
  Normal false.

End CheckedEvaluator.

(** ** The evaluator as the specification words it

    Positions and glyphs are computed, not looked up: the glyph of position
    [p] is the code unit U+2460 + p for the ten positions 0..9. *)

Section SpecEvaluator.

Variable toLowerCase : jsstring -> jsstring.

Definition position_numeral (p : Z) : jsstring := toString (p + 1).

Definition position_glyph (p : Z) : option code_unit :=
  if (0 <=? p) && (p <=? 9) then Some (0x2460 + Z.to_N p)%N else None.

Definition rule := jsstring -> jsstring -> Z -> bool.

(** (1) normalized equality *)
Definition rule_equal : rule := fun cand ans _ => bool_decide (cand = ans).
(** (2) the answer is the 1-based decimal position *)
Definition rule_numeral : rule := fun _ ans p =>
  bool_decide (ans = position_numeral p).
(** (3) the answer is the circled digit of the position *)
Definition rule_glyph : rule := fun _ ans p =>
  match position_glyph p with
  | Some g => bool_decide (ans = [g])
  | None => false
  end.
(** (4) the answer starts with "<position>.", "<position>)" or "(<position>)" *)
Definition rule_prefix : rule := fun _ ans p =>
  bool_decide (position_numeral p ++ str "." `prefix_of` ans
               \/ position_numeral p ++ str ")" `prefix_of` ans
               \/ str "(" ++ position_numeral p ++ str ")" `prefix_of` ans).
(** (5) the answer contains the circled digit of the position *)
Definition rule_contains : rule := fun _ ans p =>
  match position_glyph p with
  | Some g => bool_decide (g ∈ ans)
  | None => false
  end.

Definition match_rules : list rule :=
  [rule_equal; rule_numeral; rule_glyph; rule_prefix; rule_contains].

(** The rules are tried in order; the first one that hits decides for a
    match, and when none hits there is no match. *)
Definition first_hit (rules : list rule) (cand ans : jsstring) (p : Z) : bool :=
  match List.find (fun r : rule => r cand ans p) rules with
  | Some _ => true
  | None => false
  end.

Definition spec_isAnswerMatch (candidate answer : jsstring) (p : Z) : bool :=
  first_hit match_rules (normalize toLowerCase candidate)
            (normalize toLowerCase answer) p.

(** Rule 1 alone: the direct comparison of the normalized texts. *)
Definition direct_match (candidate answer : jsstring) : bool :=
  bool_decide (normalize toLowerCase candidate = normalize toLowerCase answer).

End SpecEvaluator.

(** ** JavaScript numbers *)

Module Binary64.

(** The integer nearest to [m], a tie going to the even one. *)
Definition roundHalfEven (m : Q) : Z :=
  let f := Qfloor m in
  match (m - inject_Z f ?= 1 # 2)%Q with
  | Lt => f
  | Gt => f + 1
  | Eq => if Z.even f then f else f + 1
  end.

(** The binary exponent of a positive rational: [2^e <= q < 2^(e+1)]. *)
Definition exponent (q : Q) : Z :=
  let e := Z.log2 (Qnum q) - Z.log2 (Z.pos (Qden q)) in
  if Qle_bool (2 ^ e) q then e else e - 1.

(** The exponent of the unit in the last place: 53 significant bits, and
    the subnormal numbers below [2^-1022] share the exponent -1074. *)
Definition ulpExponent (q : Q) : Z := Z.max (exponent q) (-1022) - 52.

Definition roundPositive (q : Q) : Q :=
  let s := ulpExponent q in
  (inject_Z (roundHalfEven (q / 2 ^ s)) * 2 ^ s)%Q.

(** Rounding of a real result to binary64, to nearest with ties to even.
    Results of magnitude [2^1024] and more (infinities) are out of the
    model. *)
Definition round64 (q : Q) : Q :=
  match (q ?= 0)%Q with
  | Eq => 0%Q
  | Gt => roundPositive q
  | Lt => (- roundPositive (- q))%Q
  end.

(** [a / b], [a * b] and [a + b] on numbers. *)
Definition fdiv (a b : Q) : Q := round64 (a / b).
Definition fmul (a b : Q) : Q := round64 (a * b).
Definition fadd (a b : Q) : Q := round64 (a + b).

End Binary64.

(** ** The quiz component ([Quiz], Quiz.tsx) *)

Module Quiz.

Inductive QuestionType := multiple_choice | short_answer | ox | creativity.

Inductive Grade := GradeA | GradeB | GradeC | GradeD | GradeE.

#[global] Instance QuestionType_eq_dec : EqDecision QuestionType.
Proof. solve_decision. Defined.

#[global] Instance Grade_eq_dec : EqDecision Grade.
Proof. solve_decision. Defined.

(** The fields of [QuizQuestion] that the handlers read; the translations,
    the passage and the illustration only reach the rendering. *)
Record QuizQuestion := {
  question : jsstring;
  questionType : QuestionType;
  options : option (list jsstring);
  answer : jsstring;
  explanation : jsstring
}.

(** The component state (the [useState] cells that the handlers of the
    session read or write; audio and AI-evaluation cells are left out). *)
Record Session := {
  currentQuestionIndex : nat;
  userAnswers : list (option jsstring);
  checkedStates : list bool;
  showResults : bool;
  tempShortAnswer : jsstring;
  shortAnswerGrades : list (option Grade);
  showScript : bool;
  showTranslation : bool
}.

(** The arguments of one call of [onSubmit]. *)
Record Submission := {
  score : Q;
  correctAnswers : nat;
  totalQuestions : nat;
  submittedAnswers : list (option jsstring);
  correctness : list bool
}.

(** [type === 'multiple-choice' || type === 'ox'] *)
Definition isMcOrOx (type : QuestionType) : bool :=
  match type with
  | multiple_choice | ox => true
  | short_answer | creativity => false
  end.

Section Component.

Variable toLowerCase : jsstring -> jsstring.

(** The [questions] prop ([safeQuestions]). *)
Variable safeQuestions : list QuizQuestion.

Definition hasQuestions : bool := bool_decide (0 < length safeQuestions)%nat.

Definition initial : Session := {|
  currentQuestionIndex := 0;
  userAnswers := replicate (length safeQuestions) None;
  checkedStates := replicate (length safeQuestions) false;
  showResults := false;
  tempShortAnswer := [];
  shortAnswerGrades := replicate (length safeQuestions) None;
  showScript := false;
  showTranslation := false
|}.

(** *** The final scoring pass of [handleNext] *)

(** The callback of [safeQuestions.map]: the amount it adds to
    [totalEarnedPoints] and the boolean it returns. *)
Definition correctnessCallback (answers : list (option jsstring))
    (grades : list (option Grade)) (index : nat) (question : QuizQuestion)
    : Q * bool :=
  let ans := nullable (answers !! index) in
  if negb (isMcOrOx (questionType question)) then
    match nullable (grades !! index) with
    | Some GradeA => (1%Q, true)
    | Some GradeB => (3 # 4, true)     (* 75% *)
    | Some GradeC => (1 # 2, true)     (* 50% *)
    | Some GradeD => (1 # 4, false)    (* 25% considered incorrect for binary stat *)
    | _ => (0%Q, false)
    end
  else
    let options := default [] (options question) in
    match fst <$> list_find (fun opt => Some opt = ans) options with
    | Some selectedIndex =>
        (0%Q, isAnswerMatch toLowerCase ans (answer question) (Z.of_nat selectedIndex))
    | None =>
        (* Fallback to direct string match *)
        let isCorrect := isAnswerMatch toLowerCase ans (answer question) (-1) in
        (if isCorrect then 1%Q else 0%Q, isCorrect)
    end.

(** The callback of the re-summing [safeQuestions.forEach]. *)
Definition pointsCallback (grades : list (option Grade))
    (calculatedCorrectness : list bool) (i : nat) (q : QuizQuestion) : Q :=
  if negb (isMcOrOx (questionType q)) then
    match nullable (grades !! i) with
    | Some GradeA => 1%Q
    | Some GradeB => 3 # 4
    | Some GradeC => 1 # 2
    | Some GradeD => 1 # 4
    | _ => 0%Q
    end
  else if default false (calculatedCorrectness !! i) then 1%Q else 0%Q.

(** [totalEarnedPoints = 0] followed by the additions [totalEarnedPoints += w];
    a weight of 0 stands for no addition. *)
Definition sumPoints (points : list Q) : Q := foldl Binary64.fadd 0%Q points.

(** The [else] branch of [handleNext]: the value of [totalEarnedPoints] after
    the first pass is overwritten by [totalEarnedPoints = 0] before the
    re-summation. The quotient and the product are the binary64 operations.
    The quotient is taken for at least one question: with none the component
    renders no button ([hasQuestions]). *)
Definition finalResults (answers : list (option jsstring))
    (grades : list (option Grade)) : Submission :=
  let firstPass := imap (correctnessCallback answers grades) safeQuestions in
  let calculatedCorrectness := snd <$> firstPass in
  let correctCount :=
    length (filter (fun c : bool => c = true) calculatedCorrectness) in
  let totalEarnedPoints :=
    sumPoints (imap (pointsCallback grades calculatedCorrectness) safeQuestions) in
  let scorePercentage :=
    Binary64.fmul
      (Binary64.fdiv totalEarnedPoints
         (inject_Z (Z.of_nat (length safeQuestions)))) 100 in
  {| score := scorePercentage;
     correctAnswers := correctCount;
     totalQuestions := length safeQuestions;
     submittedAnswers := answers;
     correctness := calculatedCorrectness |}.

(** The value of [totalEarnedPoints] when [scorePercentage] is computed. *)
Definition totalEarnedPoints (answers : list (option jsstring))
    (grades : list (option Grade)) : Q :=
  sumPoints
    (imap (pointsCallback grades (correctness (finalResults answers grades)))
       safeQuestions).

(** *** Handlers *)

(** The effect on [currentQuestionIndex, userAnswers, checkedStates]: the
    text area follows the saved answer of the current question. *)
Definition syncTempShortAnswer (st : Session) : Session :=
  match safeQuestions !! currentQuestionIndex st with
  | None => st
  | Some q =>
    let savedAnswer := nullable (userAnswers st !! currentQuestionIndex st) in
    {| currentQuestionIndex := currentQuestionIndex st;
       userAnswers := userAnswers st;
       checkedStates := checkedStates st;
       showResults := showResults st;
       tempShortAnswer :=
         if negb (isMcOrOx (questionType q)) then default [] savedAnswer else [];
       shortAnswerGrades := shortAnswerGrades st;
       showScript := showScript st;
       showTranslation := showTranslation st |}
  end.

(** [const isAnswerChecked = checkedStates[currentQuestionIndex]] *)
Definition isAnswerChecked (st : Session) : bool :=
  default false (checkedStates st !! currentQuestionIndex st).

Definition handleAnswerSelect (option : jsstring) (st : Session) : Session :=
  if isAnswerChecked st then st else
  syncTempShortAnswer
    {| currentQuestionIndex := currentQuestionIndex st;
       userAnswers :=
         assign None (userAnswers st) (currentQuestionIndex st) (Some option);
       checkedStates := checkedStates st;
       showResults := showResults st;
       tempShortAnswer := tempShortAnswer st;
       shortAnswerGrades := shortAnswerGrades st;
       showScript := showScript st;
       showTranslation := showTranslation st |}.

Definition handleShortAnswerChange (value : jsstring) (st : Session) : Session :=
  if isAnswerChecked st then st else
  {| currentQuestionIndex := currentQuestionIndex st;
     userAnswers := userAnswers st;
     checkedStates := checkedStates st;
     showResults := showResults st;
     tempShortAnswer := value;
     shortAnswerGrades := shortAnswerGrades st;
     showScript := showScript st;
     showTranslation := showTranslation st |}.

Definition handleCheckAnswer (currentQuestion : QuizQuestion) (st : Session)
    : Session :=
  syncTempShortAnswer
    {| currentQuestionIndex := currentQuestionIndex st;
       userAnswers :=
         if negb (isMcOrOx (questionType currentQuestion))
         then assign None (userAnswers st) (currentQuestionIndex st)
                (Some (tempShortAnswer st))
         else userAnswers st;
       checkedStates := assign false (checkedStates st) (currentQuestionIndex st) true;
       showResults := showResults st;
       tempShortAnswer := tempShortAnswer st;
       shortAnswerGrades := shortAnswerGrades st;
       showScript := true;
       showTranslation := showTranslation st |}.

Definition handleGradeSelection (grade : Grade) (st : Session) : Session :=
  {| currentQuestionIndex := currentQuestionIndex st;
     userAnswers := userAnswers st;
     checkedStates := checkedStates st;
     showResults := showResults st;
     tempShortAnswer := tempShortAnswer st;
     shortAnswerGrades :=
       assign None (shortAnswerGrades st) (currentQuestionIndex st) (Some grade);
     showScript := showScript st;
     showTranslation := showTranslation st |}.

(** A change of [currentQuestionIndex]; its effects hide the script and
    re-synchronise the text area, the translation toggle is kept. *)
Definition goTo (index : nat) (st : Session) : Session :=
  syncTempShortAnswer
    {| currentQuestionIndex := index;
       userAnswers := userAnswers st;
       checkedStates := checkedStates st;
       showResults := showResults st;
       tempShortAnswer := tempShortAnswer st;
       shortAnswerGrades := shortAnswerGrades st;
       showScript := false;
       showTranslation := showTranslation st |}.

Definition handlePrev (st : Session) : Session :=
  if bool_decide (0 < currentQuestionIndex st)%nat
  then goTo (currentQuestionIndex st - 1)%nat st else st.

Definition handleNext (st : Session) : Session * option Submission :=
  if Z.of_nat (currentQuestionIndex st) <? Z.of_nat (length safeQuestions) - 1
  then (goTo (currentQuestionIndex st + 1)%nat st, None)
  else
    ({| currentQuestionIndex := currentQuestionIndex st;
        userAnswers := userAnswers st;
        checkedStates := checkedStates st;
        showResults := true;
        tempShortAnswer := tempShortAnswer st;
        shortAnswerGrades := shortAnswerGrades st;
        showScript := showScript st;
        showTranslation := showTranslation st |},
     Some (finalResults (userAnswers st) (shortAnswerGrades st))).

(** *** The rendered controls *)

(** [hasAnswer] *)
Definition hasAnswer (currentQuestion : QuizQuestion) (st : Session) : bool :=
  if isMcOrOx (questionType currentQuestion)
  then negb (bool_decide (userAnswers st !! currentQuestionIndex st = Some None))
  else negb (bool_decide (trim (tempShortAnswer st) = [])).

Definition isCheckAnswerDisabled (currentQuestion : QuizQuestion) (st : Session)
    : bool :=
  negb (hasAnswer currentQuestion st).

(** [isNextButtonDisabled = isAnswerChecked && !isMcOrOx
      && shortAnswerGrades[currentQuestionIndex] === null] *)
Definition isNextButtonDisabled (currentQuestion : QuizQuestion) (st : Session)
    : bool :=
  isAnswerChecked st && negb (isMcOrOx (questionType currentQuestion))
  && bool_decide (shortAnswerGrades st !! currentQuestionIndex st = Some None).

(** The option buttons of [renderQuestionInput]. *)
Definition renderedOptions (currentQuestion : QuizQuestion) : list jsstring :=
  match questionType currentQuestion with
  | ox =>
    match options currentQuestion with
    | None | Some [] => [str "O"; str "X"]
    | Some opts => opts
    end
  | multiple_choice => default [] (options currentQuestion)
  | short_answer | creativity => []
  end.

(** What the user can do to the component. *)
Inductive Event :=
| ClickOption (index : nat)
| ChangeShortAnswer (value : jsstring)
| ClickCheckAnswer
| ClickGrade (grade : Grade)
| ClickPrev
| ClickNext
| ToggleTranslation.

(** One event on the rendered component: a control that is not rendered or
    is disabled runs no handler. Nothing is rendered once the results are
    shown or without questions. The second component is the call of
    [onSubmit], if any. *)
Definition dispatch (ev : Event) (st : Session) : Session * option Submission :=
  if showResults st || negb hasQuestions then (st, None) else
  match safeQuestions !! currentQuestionIndex st with
  | None => (st, None)
  | Some currentQuestion =>
    let freeText := negb (isMcOrOx (questionType currentQuestion)) in
    match ev with
    | ClickOption index =>
      match renderedOptions currentQuestion !! index with
      | Some option =>
        if isAnswerChecked st then (st, None)
        else (handleAnswerSelect option st, None)
      | None => (st, None)
      end
    | ChangeShortAnswer value =>
      if freeText && negb (isAnswerChecked st)
      then (handleShortAnswerChange value st, None) else (st, None)
    | ClickCheckAnswer =>
      if negb (isAnswerChecked st) && negb (isCheckAnswerDisabled currentQuestion st)
      then (handleCheckAnswer currentQuestion st, None) else (st, None)
    | ClickGrade grade =>
      if freeText && isAnswerChecked st
      then (handleGradeSelection grade st, None) else (st, None)
    | ClickPrev =>
      if bool_decide (currentQuestionIndex st = 0%nat) then (st, None)
      else (handlePrev st, None)
    | ClickNext =>
      if isAnswerChecked st && negb (isNextButtonDisabled currentQuestion st)
      then handleNext st else (st, None)
    | ToggleTranslation =>
      ({| currentQuestionIndex := currentQuestionIndex st;
          userAnswers := userAnswers st;
          checkedStates := checkedStates st;
          showResults := showResults st;
          tempShortAnswer := tempShortAnswer st;
          shortAnswerGrades := shortAnswerGrades st;
          showScript := showScript st;
          showTranslation := negb (showTranslation st) |}, None)
    end
  end.

(** The session after a sequence of events, with the submissions made. *)
Fixpoint run (evs : list Event) (st : Session) : Session * list Submission :=
  match evs with
  | [] => (st, [])
  | ev :: evs' =>
    let '(st1, sub) := dispatch ev st in
    let '(st2, subs) := run evs' st1 in
    (st2, option_list sub ++ subs)
  end.

(** The invariant of the data model: the index is a question index and the
    parallel arrays have the length of the question list. *)
Definition wf (st : Session) : Prop :=
  (currentQuestionIndex st < length safeQuestions)%nat
  /\ length (userAnswers st) = length safeQuestions
  /\ length (checkedStates st) = length safeQuestions
  /\ length (shortAnswerGrades st) = length safeQuestions.

End Component.

(** *** The scoring as the specification words it *)

(** The grade-to-weight mapping; an unset grade weighs nothing. *)
Definition grade_weight (g : option Grade) : Q :=
  match g with
  | Some GradeA => 1%Q
  | Some GradeB => 3 # 4
  | Some GradeC => 1 # 2
  | Some GradeD => 1 # 4
  | Some GradeE | None => 0%Q
  end.

(** A weight between 0 and 1. *)
Definition unit_weight (w : Q) : Prop := (0 <= w /\ w <= 1)%Q.

(** A weight of 0, 1, 2, 3 or 4 quarters. *)
Definition quarter (w : Q) : Prop :=
  exists k : Z, 0 <= k <= 4 /\ (4 * w == inject_Z k)%Q.

Section SpecScoring.

Variable toLowerCase : jsstring -> jsstring.

(** The evaluator applied to the recorded answer of an objective question,
    at the position of that answer among the options (or at the sentinel
    [-1] when it is not among them). *)
Definition evaluator_matches (q : QuizQuestion) (ans : option jsstring) : bool :=
  let position :=
    match list_find (fun opt => Some opt = ans) (default [] (options q)) with
    | Some (i, _) => Z.of_nat i
    | None => -1
    end in
  isAnswerMatch toLowerCase ans (answer q) position.

(** The earned weight of one question. *)
Definition earned_weight (q : QuizQuestion) (ans : option jsstring)
    (g : option Grade) : Q :=
  if isMcOrOx (questionType q)
  then (if evaluator_matches q ans then 1%Q else 0%Q)
  else grade_weight g.

(** The earned weights of a session, question by question. *)
Definition earned_weights (qs : list QuizQuestion)
    (answers : list (option jsstring)) (grades : list (option Grade)) : list Q :=
  imap (fun i q => earned_weight q (nullable (answers !! i)) (nullable (grades !! i))) qs.

Fixpoint Qsum (ws : list Q) : Q :=
  match ws with
  | [] => 0%Q
  | w :: ws' => (w + Qsum ws')%Q
  end.

End SpecScoring.

End Quiz.

(** ** The persisted study history *)

Module History.

(** [QuizResult] (types.ts). *)
Record QuizResult := {
  id : jsstring;
  date : jsstring;
  standardId : jsstring;
  standardDescription : jsstring;
  subject : jsstring;
  score : Q;
  totalQuestions : nat;
  correctAnswers : nat;
  questions : option (list Quiz.QuizQuestion);
  userAnswers : list (option jsstring);
  correctness : list bool
}.

(** [AchievementStandard] (types.ts). *)
Record AchievementStandard := {
  standard_id : jsstring;
  description : jsstring
}.

(** [handleQuizSubmit]: the new value of [studyHistory]. [now_id] and
    [now_date] are the two readings of [new Date().toISOString()];
    [questions] is the state cell of the generated questions ([null] before a
    quiz was generated). *)
Definition newResult (standard : AchievementStandard) (subjectName : jsstring)
    (questions : option (list Quiz.QuizQuestion)) (now_id now_date : jsstring)
    (sub : Quiz.Submission) : QuizResult :=
  {| id := now_id;
     date := now_date;
     standardId := standard_id standard;
     standardDescription := description standard;
     subject := subjectName;
     score := Quiz.score sub;
     totalQuestions := Quiz.totalQuestions sub;
     correctAnswers := Quiz.correctAnswers sub;
     questions := questions;
     userAnswers := Quiz.submittedAnswers sub;
     correctness := Quiz.correctness sub |}.

Definition handleQuizSubmit (standard : AchievementStandard)
    (subjectName : jsstring) (questions : option (list Quiz.QuizQuestion))
    (now_id now_date : jsstring) (sub : Quiz.Submission)
    (studyHistory : list QuizResult) : list QuizResult :=
  studyHistory ++ [newResult standard subjectName questions now_id now_date sub].

(** [handleDeleteHistoryItem]: [confirmed] is the answer to [window.confirm]. *)
Definition handleDeleteHistoryItem (item_id : jsstring) (confirmed : bool)
    (prev : list QuizResult) : list QuizResult :=
  if confirmed then filter (fun item => id item <> item_id) prev else prev.

(** The writers of the history. *)
Inductive Operation :=
| Submit (standard : AchievementStandard) (subjectName : jsstring)
    (questions : option (list Quiz.QuizQuestion)) (now_id now_date : jsstring)
    (sub : Quiz.Submission)
| Delete (item_id : jsstring) (confirmed : bool).

Definition apply (op : Operation) (h : list QuizResult) : list QuizResult :=
  match op with
  | Submit standard subjectName questions now_id now_date sub =>
      handleQuizSubmit standard subjectName questions now_id now_date sub h
  | Delete item_id confirmed => handleDeleteHistoryItem item_id confirmed h
  end.

(** The history after a sequence of operations. *)
Definition replay (ops : list Operation) (h : list QuizResult) : list QuizResult :=
  foldl (fun acc op => apply op acc) h ops.

End History.

(** ** Example sessions *)

Module Example.

Import Quiz.

Definition circled_options : list jsstring :=
  [[0x2460; 0x33]; [0x2461; 0x35]; [0x2462; 0x37]]%N.

(** Options "①3", "②5", "③7" with the answer "②". *)
Definition q_circled : QuizQuestion :=
  {| question := str "2 + 3 = ?";
     questionType := multiple_choice;
     options := Some circled_options;
     answer := [0x2461%N];
     explanation := [] |}.

Definition q_text : QuizQuestion :=
  {| question := str "The capital of France?";
     questionType := multiple_choice;
     options := Some [str "Rome"; str "Paris"; str "Lima"];
     answer := str "Paris.";
     explanation := [] |}.

Definition q_short : QuizQuestion :=
  {| question := str "Name the process.";
     questionType := short_answer;
     options := None;
     answer := str "photosynthesis";
     explanation := [] |}.

Definition q_open : QuizQuestion :=
  {| question := str "Propose an experiment.";
     questionType := creativity;
     options := None;
     answer := str "any controlled comparison";
     explanation := [] |}.

(** Two objective questions answered correctly, a short answer graded B and
    an open-ended answer graded E. *)
Definition scenario : list QuizQuestion := [q_circled; q_text; q_short; q_open].

Definition scenario_answers : list (option jsstring) :=
  [Some [0x2461; 0x35]%N; Some (str "Paris"); Some (str "respiration");
   Some (str "no idea")].

Definition scenario_grades : list (option Grade) :=
  [None; None; Some GradeB; Some GradeE].

Definition scenario_events : list Event :=
  [ClickOption 1; ClickCheckAnswer; ClickNext;
   ClickOption 1; ClickCheckAnswer; ClickNext;
   ChangeShortAnswer (str "respiration"); ClickCheckAnswer;
   ClickGrade GradeB; ClickNext;
   ChangeShortAnswer (str "no idea"); ClickCheckAnswer;
   ClickGrade GradeE; ClickNext].

(** A correct objective answer next to a short answer graded D. *)
Definition graded_D : list QuizQuestion := [q_circled; q_short].
Definition graded_D_answers : list (option jsstring) :=
  [Some [0x2461; 0x35]%N; Some (str "respiration")].
Definition graded_D_grades : list (option Grade) := [None; Some GradeD].

(** A short answer that was checked and not yet graded. *)
Definition checked_ungraded : Session :=
  Eval vm_compute in
  (run asciiLower [q_short]
     [ChangeShortAnswer (str "respiration"); ClickCheckAnswer]
     (initial [q_short])).1.

(** An OX question that came without an option list, answered "O", whose
    answer key is "0". *)
Definition q_ox_zero : QuizQuestion :=
  {| question := str "0 is a natural number.";
     questionType := ox;
     options := None;
     answer := str "0";
     explanation := [] |}.

End Example.

(** ** More of the JavaScript runtime *)

Module Runtime.

(** A relative index of [Array.prototype.slice]: negative indices count from
    the end, and the result is clamped to the array. *)
Definition sliceIndex (len : nat) (i : Z) : nat :=
  if i <? 0 then Z.to_nat (Z.max (Z.of_nat len + i) 0)
  else Z.to_nat (Z.min i (Z.of_nat len)).

(** [arr.slice(start, end)] *)
Definition slice {A} (arr : list A) (start stop : Z) : list A :=
  let k := sliceIndex (length arr) start in
  let final := sliceIndex (length arr) stop in
  take (final - k)%nat (drop k arr).

(** [arr.slice(start)] *)
Definition sliceFrom {A} (arr : list A) (start : Z) : list A :=
  slice arr start (Z.of_nat (length arr)).

(** [s.substring(a, b)]: both indices are clamped to the string and swapped
    when out of order. *)
Definition clampIndex (len : nat) (i : Z) : nat :=
  Z.to_nat (Z.min (Z.max i 0) (Z.of_nat len)).

Definition substring (s : jsstring) (a b : Z) : jsstring :=
  let from := Nat.min (clampIndex (length s) a) (clampIndex (length s) b) in
  let to := Nat.max (clampIndex (length s) a) (clampIndex (length s) b) in
  take (to - from)%nat (drop from s).

(** [s.substring(a)] *)
Definition substringFrom (s : jsstring) (a : Z) : jsstring :=
  substring s a (Z.of_nat (length s)).

(** The longest prefix of decimal digits, as a numeral. *)
Fixpoint readDigits (s : jsstring) : Decimal.uint :=
  match s with
  | [] => Nil
  | c :: r =>
    if (c =? 0x30)%N then D0 (readDigits r) else
    if (c =? 0x31)%N then D1 (readDigits r) else
    if (c =? 0x32)%N then D2 (readDigits r) else
    if (c =? 0x33)%N then D3 (readDigits r) else
    if (c =? 0x34)%N then D4 (readDigits r) else
    if (c =? 0x35)%N then D5 (readDigits r) else
    if (c =? 0x36)%N then D6 (readDigits r) else
    if (c =? 0x37)%N then D7 (readDigits r) else
    if (c =? 0x38)%N then D8 (readDigits r) else
    if (c =? 0x39)%N then D9 (readDigits r) else Nil
  end.

(** [parseInt(s, 10)]: leading white space is skipped, a sign is read, then
    the longest run of digits; [None] is [NaN] (no digit). The value is the
    mathematical integer, which is what JavaScript returns below 2^53; the
    sign of a zero is not kept (both zeros are falsy and equal). *)
Definition parseInt10 (s : jsstring) : option Z :=
  let body := trimStart s in
  let '(negative, unsigned) :=
    match body with
    | c :: r =>
      if (c =? 0x2D)%N then (true, r)
      else if (c =? 0x2B)%N then (false, r) else (false, body)
    | [] => (false, body)
    end in
  match readDigits unsigned with
  | Nil => None
  | u => Some (if negative then - Z.of_uint u else Z.of_uint u)
  end.

End Runtime.

(** ** The rest of the quiz component (Quiz.tsx) *)

Module QuizUI.

Import Quiz Runtime.

(** The five looks of an option button in [getOptionClasses], named after
    what the class strings show: the chosen option before checking, any other
    option before checking, and after checking the correct option (green),
    the chosen wrong option (red) and the remaining ones (dimmed). *)
Inductive OptionClasses :=
| ChosenUnchecked
| PlainUnchecked
| CorrectChecked
| WrongChecked
| DimmedChecked.

Section Rendering.

Variable toLowerCase : jsstring -> jsstring.

Definition getOptionClasses (currentQuestion : QuizQuestion) (st : Session)
    (option : jsstring) (index : nat) : OptionClasses :=
  let userAnswer := nullable (userAnswers st !! currentQuestionIndex st) in
  if negb (isAnswerChecked st) then
    if bool_decide (userAnswer = Some option) then ChosenUnchecked
    else PlainUnchecked
  else
    let isCorrectAnswer :=
      isAnswerMatch toLowerCase (Some option) (answer currentQuestion)
        (Z.of_nat index) in
    let isSelectedAnswer := bool_decide (Some option = userAnswer) in
    if isCorrectAnswer then CorrectChecked
    else if isSelectedAnswer then WrongChecked
    else DimmedChecked.

(** [showCorrectLabel] of the option buttons. *)
Definition showCorrectLabel (currentQuestion : QuizQuestion) (st : Session)
    (option : jsstring) (index : nat) : bool :=
  isAnswerChecked st
  && isAnswerMatch toLowerCase (Some option) (answer currentQuestion)
       (Z.of_nat index).

End Rendering.

(** The entries of [mathSymbols] that [insertMathSymbol] receives: the text
    to insert and the cursor move (the [label] only reaches the button). *)
Definition mathSymbols : list (jsstring * Z) :=
  [(str "$x^2$", 0); (str "$\sqrt{}$", -2); (str "$\frac{}{}$", -4);
   (str "$\times$", 0); (str "$\div$", 0); (str "$\pm$", 0);
   (str "$\le$", 0); (str "$\ge$", 0); (str "$\ne$", 0); (str "$\pi$", 0);
   (str "$^\circ$", 0); (str "$\triangle$", 0); (str "$\angle$", 0)].

(** [insertMathSymbol] on a text area with the given value and selection:
    the new value of the text area and the cursor position set afterwards. *)
Definition insertMathSymbol (insert : jsstring) (move : Z)
    (text : jsstring) (selectionStart selectionEnd : Z) : jsstring * Z :=
  let newText :=
    substring text 0 selectionStart ++ insert ++ substringFrom text selectionEnd in
  let newCursor := selectionStart + Z.of_nat (length insert) + move in
  (newText, newCursor).

(** What the two tables of symbols share: the cursor move stays inside the
    inserted text, and a move that is not zero lands between an opening and
    a closing brace. *)
Definition entry_shape (entry : jsstring * Z) : Prop :=
  let len := Z.of_nat (length entry.1) in
  - len <= entry.2 <= 0
  /\ (entry.2 <> 0 ->
      1 <= len + entry.2
      /\ entry.1 !! Z.to_nat (len + entry.2 - 1) = Some 0x7B%N
      /\ entry.1 !! Z.to_nat (len + entry.2) = Some 0x7D%N).

(** [decode]: the char codes of the decoded string, stored in a
    [Uint8Array] (so taken modulo 256). [binaryString] is the result of
    [atob]. *)
Definition decode (binaryString : jsstring) : list N :=
  List.map (fun c => (c mod 256)%N) binaryString.

(** An element of an [Int16Array] over two bytes, low byte first (typed
    arrays have the byte order of the platform, little-endian on every
    platform that runs a browser). *)
Definition int16 (low high : N) : Z :=
  let u := Z.of_N (low + 256 * high) in
  if u <? 32768 then u else u - 65536.

Fixpoint int16Array (bytes : list N) : list Z :=
  match bytes with
  | low :: high :: rest => int16 low high :: int16Array rest
  | _ => []
  end.

(** [decodeAudioData]: the channel data of the buffer. [createBuffer]
    refuses a length of zero frames (a length below one is converted to 0)
    and the [Int16Array] constructor refuses a buffer of odd byte length; the
    largest buffer that a platform allocates is not modelled. The quotient
    by 32768 is exact in a [Float32Array]. *)
Definition decodeAudioData (data : list N) : completion (list Q) :=
  if bool_decide (length data < 2)%nat then Throw
  else if bool_decide (length data `mod` 2 = 1)%nat then Throw
  else Normal (List.map (fun sample => (inject_Z sample / 32768)%Q)
                 (int16Array data)).

End QuizUI.

(** ** The question generator's inputs (geminiService.ts) *)

Module GeminiService.

Import Quiz Runtime.

(** [QuestionRequest] *)
Record QuestionRequest := {
  type : QuestionType;
  count : Z
}.

(** The start of [generateQuestions]: the total of the requested counts, the
    early return of an empty list when it is zero, and otherwise the
    requests that get a line in the prompt. *)
Definition totalQuestions (requests : list QuestionRequest) : Z :=
  foldl (fun sum req => sum + count req) 0 requests.

Inductive Prepared :=
| ReturnEmpty
| AskModel (promptRequests : list QuestionRequest).

Definition prepareQuestions (requests : list QuestionRequest) : Prepared :=
  if bool_decide (totalQuestions requests = 0) then ReturnEmpty
  else AskModel (filter (fun req => 0 < count req) requests).

(** A question as parsed from the model's answer: the question itself, the
    optional illustration prompt and the illustration. *)
Record GeneratedQuestion := {
  quizQuestion : QuizQuestion;
  imagePrompt : option jsstring;
  imageBase64 : option jsstring
}.

(** The end of [generateQuestions]: every question with a non-blank
    illustration prompt gets the illustration that [generateIllustration]
    returned for it, [null] (no image or a failure, which that function
    catches) and the empty string becoming [undefined]. [illustration i] is
    the outcome of the call made for the question at index [i]. *)
Definition attachIllustrations (illustration : nat -> option jsstring)
    (questionsWithPrompts : list GeneratedQuestion) : list GeneratedQuestion :=
  imap (fun i q =>
    match imagePrompt q with
    | Some prompt =>
      if negb (bool_decide (prompt = [])) && negb (bool_decide (trim prompt = []))
      then {| quizQuestion := quizQuestion q;
              imagePrompt := imagePrompt q;
              imageBase64 :=
                match illustration i with
                | Some (c :: image) => Some (c :: image)
                | _ => None
                end |}
      else q
    | None => q
    end) questionsWithPrompts.

(** [history.slice(-50).reverse()] of [generateLearningDiagnosis]; without
    history the function answers with a fixed message and asks nothing. *)
Definition recentHistory (history : list History.QuizResult)
    : option (list History.QuizResult) :=
  match history with
  | [] => None
  | _ => Some (reverse (sliceFrom history (-50)))
  end.

End GeminiService.

(** ** The study session (StudySession.tsx) *)

Module StudySession.

Import Quiz Runtime GeminiService.

(** [questionCounts]: an object with one count per question type; its keys
    keep the order of [defaultQuestionCounts]. *)
Definition QuestionCounts := QuestionType -> Z.

Definition defaultQuestionCounts : QuestionCounts := fun type =>
  match type with
  | multiple_choice => 3
  | short_answer => 1
  | ox => 1
  | creativity => 0
  end.

Definition questionTypes : list QuestionType :=
  [multiple_choice; short_answer; ox; creativity].

(** [handleQuestionCountChange]:
    [count = Math.max(0, parseInt(value, 10) || 0)] replaces the count of
    [type]. *)
Definition handleQuestionCountChange (type : QuestionType) (value : jsstring)
    (prev : QuestionCounts) : QuestionCounts :=
  let count := Z.max 0 (default 0 (parseInt10 value)) in
  fun t => if decide (t = type) then count else prev t.

(** The requests of [handleGenerateQuiz]: the entries with a positive count. *)
Definition requests (questionCounts : QuestionCounts) : list QuestionRequest :=
  filter (fun req => 0 < count req)
    ((fun t => {| type := t; count := questionCounts t |}) <$> questionTypes).

(** [handleGenerateQuiz] up to the call of the model: without a request the
    error "one or more questions must be requested" is shown and
    [generateQuestions] is not called. *)
Inductive Generation :=
| NoRequestError
| Generated (prepared : Prepared).

Definition handleGenerateQuiz (questionCounts : QuestionCounts) : Generation :=
  match requests questionCounts with
  | [] => NoRequestError
  | reqs => Generated (prepareQuestions reqs)
  end.

(** The [disabled] attribute of the button that calls [handleGenerateQuiz]. *)
Definition generateDisabled (isGeneratingQuestions : bool)
    (questionCounts : QuestionCounts) : bool :=
  isGeneratingQuestions
  || ((questionCounts multiple_choice =? 0) && (questionCounts short_answer =? 0)
      && (questionCounts ox =? 0) && (questionCounts creativity =? 0)).

(** [mathSymbols] of the study session. *)
Definition mathSymbols : list (jsstring * Z) :=
  [(str "$x^2$", 0); (str "$x^{}$", -2); (str "$\sqrt{}$", -2);
   (str "$\frac{}{}$", -4); (str "$\times$", 0); (str "$\div$", 0);
   (str "$\pm$", 0); (str "$\le$", 0); (str "$\ge$", 0); (str "$\ne$", 0);
   (str "$\pi$", 0); (str "$^\circ$", 0); (str "$\triangle$", 0);
   (str "$\angle$", 0)].

(** *** Follow-up questions *)

Inductive Role := user | model.

#[global] Instance Role_eq_dec : EqDecision Role.
Proof. solve_decision. Defined.

Record ConversationMessage := {
  role : Role;
  text : jsstring
}.

Record QnA := {
  conversation : list ConversationMessage;
  userQuestion : jsstring;
  isAnswering : bool;
  qnaError : option jsstring
}.

Definition noConversation : QnA :=
  {| conversation := []; userQuestion := []; isAnswering := false;
     qnaError := None |}.

(** The synchronous start of [handleAskQuestion]. *)
Definition askQuestion (st : QnA) : QnA :=
  if bool_decide (trim (userQuestion st) = []) || isAnswering st then st else
  let newQuestion := {| role := user; text := userQuestion st |} in
  {| conversation :=
       conversation st ++ [newQuestion; {| role := model; text := [] |}];
     userQuestion := [];
     isAnswering := true;
     qnaError := None |}.

(** The state update made for one chunk of the stream, run once for the
    chunk; reading [role] of the last message throws when there is none. *)
Definition appendChunk (chunkText : jsstring)
    (prev : list ConversationMessage) : completion (list ConversationMessage) :=
  match last prev with
  | None => Throw
  | Some lastMessage =>
    if decide (role lastMessage = model)
    then Normal (take (length prev - 1)%nat prev
                 ++ [{| role := model; text := text lastMessage ++ chunkText |}])
    else Normal prev
  end.

(** What happens to the form and to a request in flight. *)
Inductive QnAEvent :=
| Edit (value : jsstring)
| InsertSymbol (symbol : nat) (selectionStart selectionEnd : Z)
| Ask
| Chunk (chunkText : jsstring)
| StreamEnd
| StreamError (message : jsstring).

(** One event. The text area is disabled while an answer is awaited; chunks,
    the end of the stream and its failure belong to the request in flight and
    do not occur without one. *)
Definition qnaStep (ev : QnAEvent) (st : QnA) : completion QnA :=
  match ev with
  | Edit value =>
    Normal (if isAnswering st then st else
            {| conversation := conversation st; userQuestion := value;
               isAnswering := isAnswering st; qnaError := qnaError st |})
  | InsertSymbol symbol selectionStart selectionEnd =>
    match mathSymbols !! symbol with
    | Some (insert, move) =>
      Normal {| conversation := conversation st;
                userQuestion :=
                  (QuizUI.insertMathSymbol insert move (userQuestion st)
                     selectionStart selectionEnd).1;
                isAnswering := isAnswering st; qnaError := qnaError st |}
    | None => Normal st
    end
  | Ask => Normal (askQuestion st)
  | Chunk chunkText =>
    if isAnswering st then
      conv ← appendChunk chunkText (conversation st);
      Normal {| conversation := conv; userQuestion := userQuestion st;
                isAnswering := true; qnaError := qnaError st |}
    else Normal st
  | StreamEnd =>
    Normal (if isAnswering st then
            {| conversation := conversation st; userQuestion := userQuestion st;
               isAnswering := false; qnaError := qnaError st |}
            else st)
  | StreamError message =>
    Normal (if isAnswering st then
            {| conversation := slice (conversation st) 0 (-2);
               userQuestion := userQuestion st;
               isAnswering := false; qnaError := Some message |}
            else st)
  end.

Fixpoint qnaRun (evs : list QnAEvent) (st : QnA) : completion QnA :=
  match evs with
  | [] => Normal st
  | ev :: evs' => st' ← qnaStep ev st; qnaRun evs' st'
  end.

(** The counts after a sequence of edits of the count fields. *)
Definition editCounts (edits : list (QuestionType * jsstring)) : QuestionCounts :=
  foldl (fun counts edit => handleQuestionCountChange edit.1 edit.2 counts)
    defaultQuestionCounts edits.

(** A conversation made of exchanges: a question of the user followed by an
    answer of the model. *)
Definition exchange (qa : jsstring * jsstring) : list ConversationMessage :=
  [{| role := user; text := qa.1 |}; {| role := model; text := qa.2 |}].

Definition exchanges (conv : list ConversationMessage) : Prop :=
  exists qas : list (jsstring * jsstring), conv = qas ≫= exchange.

(** What holds of the follow-up form between events: the conversation is made
    of exchanges, and it is not empty while an answer is awaited. *)
Definition qna_inv (st : QnA) : Prop :=
  exchanges (conversation st)
  /\ (isAnswering st = true -> conversation st <> []).

End StudySession.

(** ** The dashboard (Dashboard.tsx) *)

Module Dashboard.

Import History Runtime.

(** The curriculum tree of [constants.ts] (types.ts). *)
Record Unit := {
  unit_name : jsstring;
  standards : list AchievementStandard
}.

Record GradeContent := {
  grade_name : jsstring;
  units : list Unit
}.

Record Subject := {
  subject_name : jsstring;
  grades : list GradeContent
}.

Record EducationCurriculum := {
  curriculum_name : jsstring;
  subjects : list Subject
}.

(** The details that [findDetailsForStandard] returns. *)
Record Details := {
  curriculumName : jsstring;
  subjectName : jsstring;
  grade : jsstring;
  unitName : jsstring;
  standardDescription : jsstring
}.

(** A loop with [return] inside: the first element for which the body
    returns. *)
Fixpoint firstReturn {A B} (body : A -> option B) (l : list A) : option B :=
  match l with
  | [] => None
  | x :: r =>
    match body x with
    | Some y => Some y
    | None => firstReturn body r
    end
  end.

Section Curriculum.

(** [EDUCATION_CURRICULUMS] of [constants.ts]. *)
Variable EDUCATION_CURRICULUMS : list EducationCurriculum.

(** The four nested loops of [findDetailsForStandard]. *)
Definition searchDetails (standardId : jsstring) : option Details :=
  firstReturn (fun curriculum =>
    firstReturn (fun subject =>
      firstReturn (fun grade =>
        firstReturn (fun unit =>
          match List.find (fun s => bool_decide (standard_id s = standardId))
                  (standards unit) with
          | Some standard =>
            Some {| curriculumName := curriculum_name curriculum;
                    subjectName := subject_name subject;
                    grade := grade_name grade;
                    unitName := unit_name unit;
                    standardDescription := description standard |}
          | None => None
          end) (units grade)) (grades subject)) (subjects curriculum))
    EDUCATION_CURRICULUMS.

(** [findDetailsForStandard] with its module-level cache: the result and the
    cache afterwards. *)
Definition findDetailsForStandard (standardId : jsstring)
    (curriculumDetailsCache : gmap jsstring Details)
    : option Details * gmap jsstring Details :=
  match curriculumDetailsCache !! standardId with
  | Some details => (Some details, curriculumDetailsCache)
  | None =>
    match searchDetails standardId with
    | Some details =>
      (Some details, <[standardId := details]> curriculumDetailsCache)
    | None => (None, curriculumDetailsCache)
    end
  end.

(** [a || b] on strings. *)
Definition orElse (a b : jsstring) : jsstring :=
  match a with
  | [] => b
  | _ => a
  end.

(** An entry of [detailedHistory]: the result with the unit name and the
    subject to show. *)
Record DetailedResult := {
  result : QuizResult;
  shownUnitName : jsstring;
  shownSubject : jsstring
}.

Definition detailed (r : QuizResult) (details : option Details) : DetailedResult :=
  {| result := r;
     shownUnitName :=
       orElse (default [] (unitName <$> details)) (str "Unknown Unit");
     shownSubject :=
       orElse (orElse (subject r) (default [] (subjectName <$> details)))
         (str "Unknown") |}.

(** [detailedHistory]: the results in order, the cache being threaded
    through the lookups. *)
Fixpoint detailedHistory (studyHistory : list QuizResult)
    (cache : gmap jsstring Details)
    : list DetailedResult * gmap jsstring Details :=
  match studyHistory with
  | [] => ([], cache)
  | r :: rest =>
    let '(details, cache1) := findDetailsForStandard (standardId r) cache in
    let '(items, cache2) := detailedHistory rest cache1 in
    (detailed r details :: items, cache2)
  end.

(** A cache that only holds results of the search. *)
Definition cache_sound (cache : gmap jsstring Details) : Prop :=
  forall standardId details,
    cache !! standardId = Some details ->
    searchDetails standardId = Some details.

(** A standard of the curriculum tree with the path that leads to it. *)
Definition located (standardId : jsstring) (details : Details) : Prop :=
  exists curriculum subject grade unit standard,
    curriculum ∈ EDUCATION_CURRICULUMS
    /\ subject ∈ subjects curriculum
    /\ grade ∈ grades subject
    /\ unit ∈ units grade
    /\ standard ∈ standards unit
    /\ standard_id standard = standardId
    /\ details = {| curriculumName := curriculum_name curriculum;
                    subjectName := subject_name subject;
                    grade := grade_name grade;
                    unitName := unit_name unit;
                    standardDescription := description standard |}.

End Curriculum.

(** [totalQuizzes] and [totalQuestionsAnswered] *)
Definition totalQuizzes (studyHistory : list QuizResult) : nat :=
  length studyHistory.

Definition totalQuestionsAnswered (studyHistory : list QuizResult) : nat :=
  foldl (fun acc curr => (acc + totalQuestions curr)%nat) 0%nat studyHistory.

(** [recentChartData]: the last ten results; a bar keeps the score and the
    standard, its two labels are renderings of the date. *)
Record Bar := {
  bar_date : jsstring;
  bar_score : Q;
  bar_standard : jsstring
}.

Definition recentChartData (studyHistory : list QuizResult) : list Bar :=
  (fun r => {| bar_date := date r; bar_score := score r;
               bar_standard := standardId r |})
  <$> sliceFrom studyHistory (-10).

(** [reversedHistory]: newest first. *)
Definition reversedHistory (studyHistory : list QuizResult) : list QuizResult :=
  reverse studyHistory.

(** A row of [QuizReviewModal]: the question, the answer shown and whether
    the row carries the "correct" badge. The three arguments are the
    optional fields [questions], [userAnswers] and [correctness] of the
    result; without questions the modal renders nothing. *)
Definition reviewRows (questions : option (list Quiz.QuizQuestion))
    (userAnswers : option (list (option jsstring)))
    (correctness : option (list bool))
    : option (list (Quiz.QuizQuestion * option jsstring * bool)) :=
  match questions with
  | None => None
  | Some qs =>
    Some (imap (fun idx q =>
      let userAnswer :=
        match userAnswers with
        | Some answers => nullable (answers !! idx)
        | None => None
        end in
      let isCorrect :=
        match correctness with
        | Some flags => default false (flags !! idx)
        | None => false
        end in
      (q, userAnswer, isCorrect)) qs)
  end.

(** The modal opened on a stored result. *)
Definition reviewOf (r : QuizResult)
    : option (list (Quiz.QuizQuestion * option jsstring * bool)) :=
  reviewRows (questions r) (Some (userAnswers r)) (Some (correctness r)).

End Dashboard.

(** ** The view history of the application (App.tsx) *)

Module App.

Import History.

Inductive View := selector | study | dashboard.

#[global] Instance View_eq_dec : EqDecision View.
Proof. solve_decision. Defined.

#[global] Instance AchievementStandard_eq_dec : EqDecision AchievementStandard.
Proof. solve_decision. Defined.

(** The [standard] field of a history entry. *)
Record Selected := {
  subjectName : jsstring;
  standard : AchievementStandard
}.

#[global] Instance Selected_eq_dec : EqDecision Selected.
Proof. solve_decision. Defined.

Record HistoryState := {
  view : View;
  selected : option Selected
}.

#[global] Instance HistoryState_eq_dec : EqDecision HistoryState.
Proof. solve_decision. Defined.

Record Navigation := {
  history : list HistoryState;
  historyIndex : nat
}.

Definition start : Navigation :=
  {| history := [{| view := selector; selected := None |}]; historyIndex := 0 |}.

(** [navigate]: the entries after the current one are dropped and the new
    entry is pushed, unless it equals the current one. The comparison of the
    two [standard] fields through [JSON.stringify] is the equality of these
    records of strings. Reading [view] of a missing last entry throws. *)
Definition navigate (v : View) (s : option Selected) (nav : Navigation)
    : completion Navigation :=
  let newHistory := Runtime.slice (history nav) 0 (Z.of_nat (historyIndex nav) + 1) in
  let newEntry := {| view := v; selected := s |} in
  match last newHistory with
  | None => Throw
  | Some lastEntry =>
    if bool_decide (view lastEntry = view newEntry)
       && bool_decide (selected lastEntry = selected newEntry)
    then Normal nav
    else Normal {| history := newHistory ++ [newEntry];
                   historyIndex := (length (newHistory ++ [newEntry]) - 1)%nat |}
  end.

Definition canGoBack (nav : Navigation) : bool :=
  bool_decide (0 < historyIndex nav)%nat.

Definition canGoForward (nav : Navigation) : bool :=
  bool_decide (Z.of_nat (historyIndex nav) < Z.of_nat (length (history nav)) - 1).

Definition handleBack (nav : Navigation) : Navigation :=
  if canGoBack nav
  then {| history := history nav; historyIndex := (historyIndex nav - 1)%nat |}
  else nav.

Definition handleForward (nav : Navigation) : Navigation :=
  if canGoForward nav
  then {| history := history nav; historyIndex := (historyIndex nav + 1)%nat |}
  else nav.

(** The handlers that move between views. [keyValid] is
    [appStatus === 'key_valid'] at the time of the call. *)
Inductive Action :=
| StartStudy (keyValid : bool) (subject : jsstring) (std : AchievementStandard)
| GoHome
| ShowDashboard
| Back
| Forward.

Definition act (a : Action) (nav : Navigation) : completion Navigation :=
  match a with
  | StartStudy keyValid subject std =>
    if keyValid
    then navigate study (Some {| subjectName := subject; standard := std |}) nav
    else Normal nav
  | GoHome => navigate selector None nav
  | ShowDashboard => navigate dashboard None nav
  | Back => Normal (handleBack nav)
  | Forward => Normal (handleForward nav)
  end.

Fixpoint acts (l : list Action) (nav : Navigation) : completion Navigation :=
  match l with
  | [] => Normal nav
  | a :: r => nav' ← act a nav; acts r nav'
  end.

(** [currentHistoryEntry = history[historyIndex]] *)
Definition currentHistoryEntry (nav : Navigation) : option HistoryState :=
  history nav !! historyIndex nav.

(** What [renderContent] shows. *)
Inductive Screen :=
| CurriculumSelectorScreen
| StudySessionScreen (s : Selected)
| DashboardScreen.

Definition renderContent (entry : HistoryState) : Screen :=
  match view entry with
  | study =>
    match selected entry with
    | Some s => StudySessionScreen s
    | None => CurriculumSelectorScreen
    end
  | dashboard => DashboardScreen
  | selector => CurriculumSelectorScreen
  end.

(** What the handlers maintain: the index is inside the history, which
    starts at the selector; a study entry carries a selection and the other
    entries none; two neighbours differ. *)
Definition nav_inv (nav : Navigation) : Prop :=
  (historyIndex nav < length (history nav))%nat
  /\ history nav !! 0%nat = Some {| view := selector; selected := None |}
  /\ (forall entry, entry ∈ history nav ->
        (view entry = study <-> selected entry <> None))
  /\ (forall i a b, history nav !! i = Some a ->
        history nav !! S i = Some b -> a <> b).

End App.

(** ** Progress of a quiz session *)

Module Progress.

Import Quiz.

Section Predicates.

Variable safeQuestions : list QuizQuestion.

(** The question at [i] has a recorded answer. *)
Definition answered (st : Session) (i : nat) : Prop :=
  exists a, userAnswers st !! i = Some (Some a).

(** The question at [i] has a selected grade. *)
Definition graded (st : Session) (i : nat) : Prop :=
  exists g, shortAnswerGrades st !! i = Some (Some g).

(** Every question is checked and answered, and every free-text question
    is graded. *)
Definition complete (st : Session) : Prop :=
  forall i q, safeQuestions !! i = Some q ->
    checkedStates st !! i = Some true /\ answered st i
    /\ (isMcOrOx (questionType q) = false -> graded st i).

(** What the handlers maintain while the quiz is taken: the session is
    well formed, a checked question has an answer, and the questions before
    the current one are checked and, when free-text, graded. *)
Definition progress (st : Session) : Prop :=
  wf safeQuestions st
  /\ (forall j, checkedStates st !! j = Some true -> answered st j)
  /\ (forall j q, (j < currentQuestionIndex st)%nat ->
        safeQuestions !! j = Some q ->
        checkedStates st !! j = Some true
        /\ (isMcOrOx (questionType q) = false -> graded st j)).

End Predicates.

End Progress.

(** ** Worked cases for the parts above *)

Module Walkthrough.

Import Quiz.

(** The first of two questions answered with its second option and checked. *)
Definition first_checked : Session :=
  Eval vm_compute in
  (run asciiLower Example.graded_D [ClickOption 1; ClickCheckAnswer]
     (initial Example.graded_D)).1.

(** An OX question that came without an option list, answered with the
    button "O" and checked: once with the answer key "0" and once with the
    answer key "1". *)
Definition ox_zero_checked : Session :=
  Eval vm_compute in
  (run asciiLower [Example.q_ox_zero] [ClickOption 0; ClickCheckAnswer]
     (initial [Example.q_ox_zero])).1.

Definition q_ox_one : QuizQuestion :=
  {| question := str "1 is a prime number.";
     questionType := ox;
     options := None;
     answer := str "1";
     explanation := [] |}.

Definition ox_one_checked : Session :=
  Eval vm_compute in
  (run asciiLower [q_ox_one] [ClickOption 0; ClickCheckAnswer]
     (initial [q_ox_one])).1.

(** A question typed into the follow-up form. *)
Definition question_typed : StudySession.QnA :=
  {| StudySession.conversation := [];
     StudySession.userQuestion := str "Why is 1 not prime?";
     StudySession.isAnswering := false;
     StudySession.qnaError := None |}.

(** A curriculum with one unit of two standards. *)
Definition fractions : History.AchievementStandard :=
  {| History.standard_id := str "M-01"; History.description := str "Fractions" |}.

Definition decimals : History.AchievementStandard :=
  {| History.standard_id := str "M-02"; History.description := str "Decimals" |}.

Definition curriculums : list Dashboard.EducationCurriculum :=
  [{| Dashboard.curriculum_name := str "2022";
      Dashboard.subjects :=
        [{| Dashboard.subject_name := str "Mathematics";
            Dashboard.grades :=
              [{| Dashboard.grade_name := str "Grade 5";
                  Dashboard.units :=
                    [{| Dashboard.unit_name := str "Numbers";
                        Dashboard.standards := [fractions; decimals] |}] |}] |}] |}].

(** A history of two results: one for a standard of the curriculum, stored
    without a subject, and one for a standard that the curriculum lacks. *)
Definition stored : list History.QuizResult :=
  [History.newResult decimals [] None (str "t1") (str "t1")
     (finalResults asciiLower Example.graded_D Example.graded_D_answers
        Example.graded_D_grades);
   History.newResult
     {| History.standard_id := str "S-09"; History.description := str "Cells" |}
     (str "Science") None (str "t2") (str "t2")
     (finalResults asciiLower Example.scenario Example.scenario_answers
        Example.scenario_grades)].

End Walkthrough.

(** ** Sanity checks of the definitions *)

Example ex_toString : toString 0 = str "0" /\ toString 12 = str "12" /\ toString (-3) = str "-3".
Proof. repeat split; reflexivity. Qed.

Example ex_norm : normalize asciiLower (str " A b. ") = str "ab".
Proof. reflexivity. Qed.

Example ex_match : isAnswerMatch asciiLower (Some (0x2461%N :: str "5")) [0x2461%N] 1 = true.
Proof. reflexivity. Qed.

Example ex_spec : spec_isAnswerMatch asciiLower [] (str "1") 0 = true.
Proof. vm_compute. reflexivity. Qed.

(** Rounding on familiar numbers: 0.1 is 3602879701896397 / 2^55; 0.1 + 0.2
    is the number that prints as 0.30000000000000004; 0.5 / 3 * 100 prints
    as 16.666666666666664 and 6.25 / 7 * 100 as 89.28571428571429. *)
Example ex_round64 :
  (Binary64.round64 (1 # 10) == 3602879701896397 # 36028797018963968
   /\ Binary64.fadd (Binary64.round64 (1 # 10)) (Binary64.round64 (2 # 10))
      == Binary64.round64 (30000000000000004 # 100000000000000000)
   /\ ~ Binary64.fadd (Binary64.round64 (1 # 10)) (Binary64.round64 (2 # 10))
        == Binary64.round64 (3 # 10)
   /\ Binary64.fmul (Binary64.fdiv (1 # 2) 3) 100
      == Binary64.round64 (16666666666666664 # 1000000000000000)
   /\ Binary64.fmul (Binary64.fdiv (25 # 4) 7) 100
      == Binary64.round64 (8928571428571429 # 100000000000000))%Q.
Proof. vm_compute. repeat split; try reflexivity. discriminate. Qed.

(** ** Facts about the string primitives *)

Lemma startsWith_nil (s : jsstring) : startsWith s [] = true.
Proof. by destruct s. Qed.

Lemma startsWith_prefix (s p : jsstring) :
  startsWith s p = true <-> p `prefix_of` s.
Proof.
  revert s; induction p as [|c p IH]; intros s; simpl.
  - split; [intros _; apply prefix_nil | intros _; by destruct s].
  - destruct s as [|d s].
    + split; [discriminate | intros H; apply prefix_nil_inv in H; discriminate].
    + simpl. rewrite andb_true_iff, N.eqb_eq, IH. split.
      * intros [-> H]. by apply prefix_cons.
      * intros H. split; [by apply prefix_cons_inv_1 in H | by apply prefix_cons_inv_2 in H].
Qed.

Lemma includes_singleton (s : jsstring) (g : code_unit) :
  includes s [g] = true <-> g ∈ s.
Proof.
  induction s as [|d s IH]; simpl.
  - split; [discriminate | intros H; inversion H].
  - rewrite startsWith_nil, andb_true_r, orb_true_iff, N.eqb_eq, IH, elem_of_cons.
    reflexivity.
Qed.

Lemma index_circledNumbers (p : Z) :
  index circledNumbers p = (fun g => [g]) <$> position_glyph p.
Proof.
  unfold index, position_glyph.
  destruct (Z.leb_spec 0 p) as [H0|H0]; simpl; [|reflexivity].
  destruct (Z.leb_spec p 9) as [H9|H9]; simpl.
  - assert (p = 0 \/ p = 1 \/ p = 2 \/ p = 3 \/ p = 4 \/ p = 5 \/ p = 6
            \/ p = 7 \/ p = 8 \/ p = 9) as Hp by lia.
    repeat (destruct Hp as [->|Hp]; [reflexivity|]). by subst.
  - apply lookup_ge_None. simpl. lia.
Qed.

(** ** The evaluator against its rules *)

Section EvaluatorFacts.

Variable toLowerCase : jsstring -> jsstring.


(** The two glyph tests of the code, in terms of the glyph of the position. *)
Lemma glyph_equal_test (no na : jsstring) (p : Z) :
  truthy (index circledNumbers p) && bool_decide (Some na = index circledNumbers p)
  = rule_glyph no na p.
Proof.
  unfold rule_glyph. rewrite index_circledNumbers.
  destruct (position_glyph p) as [g|]; simpl; [|reflexivity].
  apply bool_decide_ext. split; [by intros [= ->] | by intros ->].
Qed.

Lemma glyph_contains_test (no na : jsstring) (p : Z) :
  truthy (index circledNumbers p) && includes na (default [] (index circledNumbers p))
  = rule_contains no na p.
Proof.
  unfold rule_contains. rewrite index_circledNumbers.
  destruct (position_glyph p) as [g|]; simpl; [|reflexivity].
  apply eq_true_iff_eq. rewrite includes_singleton, bool_decide_eq_true. reflexivity.
Qed.

Lemma prefix_test (no na : jsstring) (p : Z) :
  startsWith na (toString (p + 1) ++ str ".")
  || startsWith na (toString (p + 1) ++ str ")")
  || startsWith na (str "(" ++ toString (p + 1) ++ str ")")
  = rule_prefix no na p.
Proof.
  unfold rule_prefix, position_numeral. apply eq_true_iff_eq.
  rewrite !orb_true_iff, !startsWith_prefix, bool_decide_eq_true. tauto.
Qed.

(** The evaluator on a candidate that passed the guard [if (!option)]. *)
Lemma isAnswerMatch_unfold (c : code_unit) (o answer : jsstring) (p : Z) :
  isAnswerMatch toLowerCase (Some (c :: o)) answer p =
  let no := normalize toLowerCase (c :: o) in
  let na := normalize toLowerCase answer in
  rule_equal no na p || rule_numeral no na p || rule_glyph no na p
  || rule_prefix no na p || rule_contains no na p.
Proof.
  unfold isAnswerMatch. cbv zeta.
  set (no := normalize toLowerCase (c :: o)). set (na := normalize toLowerCase answer).
  rewrite (glyph_equal_test no), (glyph_contains_test no).
  rewrite <- (prefix_test no na p).
  unfold rule_equal, rule_numeral, position_numeral.
  generalize (bool_decide (no = na)) (bool_decide (na = toString (p + 1)))
    (rule_glyph no na p) (rule_contains no na p)
    (startsWith na (toString (p + 1) ++ str "."))
    (startsWith na (toString (p + 1) ++ str ")"))
    (startsWith na (str "(" ++ toString (p + 1) ++ str ")")).
  by intros [] [] [] [] [] [] [].
Qed.

Lemma first_hit_rules (no na : jsstring) (p : Z) :
  first_hit match_rules no na p =
  rule_equal no na p || rule_numeral no na p || rule_glyph no na p
  || rule_prefix no na p || rule_contains no na p.
Proof.
  unfold first_hit, match_rules. simpl List.find.
  destruct (rule_equal no na p); [reflexivity|].
  destruct (rule_numeral no na p); [reflexivity|].
  destruct (rule_glyph no na p); [reflexivity|].
  destruct (rule_prefix no na p); [reflexivity|].
  destruct (rule_contains no na p); reflexivity.
Qed.

End EvaluatorFacts.

(** ** The Basic Latin lower-casing satisfies what is asked of [toLowerCase] *)

Lemma isWhiteSpace_false (c : code_unit) :
  isWhiteSpace c = false <->
  ~ ((0x09 <= c <= 0x0D) \/ c = 0x20 \/ c = 0xA0 \/ c = 0x1680
     \/ (0x2000 <= c <= 0x200A) \/ c = 0x2028 \/ c = 0x2029 \/ c = 0x202F
     \/ c = 0x205F \/ c = 0x3000 \/ c = 0xFEFF)%N.
Proof.
  rewrite <- not_true_iff_false. unfold isWhiteSpace.
  rewrite !orb_true_iff, !andb_true_iff, !N.eqb_eq, !N.leb_le. tauto.
Qed.

Lemma isDotOrComma_true (c : code_unit) :
  isDotOrComma c = true <-> (c = 0x2E \/ c = 0x2C)%N.
Proof. unfold isDotOrComma. rewrite orb_true_iff, !N.eqb_eq. tauto. Qed.

Lemma asciiLowerUnit_cases (c : code_unit) :
  ((0x41 <= c <= 0x5A) /\ asciiLowerUnit c = c + 0x20
   \/ ~ (0x41 <= c <= 0x5A) /\ asciiLowerUnit c = c)%N.
Proof.
  unfold asciiLowerUnit.
  destruct (N.leb_spec 0x41 c); destruct (N.leb_spec c 0x5A); simpl; lia.
Qed.

Lemma asciiLower_idem (s : jsstring) : asciiLower (asciiLower s) = asciiLower s.
Proof.
  unfold asciiLower. rewrite List.map_map. apply List.map_ext. intros c.
  destruct (asciiLowerUnit_cases c) as [[Hc ->]|[Hc ->]].
  - destruct (asciiLowerUnit_cases (c + 0x20)%N) as [[H _]|[_ ->]]; [lia | reflexivity].
  - destruct (asciiLowerUnit_cases c) as [[H _]|[_ ->]]; [tauto | reflexivity].
Qed.

Lemma asciiLower_noWhiteSpace (s : jsstring) :
  noWhiteSpace s -> noWhiteSpace (asciiLower s).
Proof.
  unfold noWhiteSpace, asciiLower. intros H. apply Forall_forall.
  intros d Hd. apply list_elem_of_In, List.in_map_iff in Hd as (c & <- & Hc).
  apply list_elem_of_In in Hc. rewrite Forall_forall in H. specialize (H c Hc).
  destruct (asciiLowerUnit_cases c) as [[Hr ->]|[Hr ->]]; [|exact H].
  apply isWhiteSpace_false. lia.
Qed.

Lemma asciiLower_caseless (s : jsstring) :
  Forall caseless s -> asciiLower s = s.
Proof.
  unfold asciiLower. induction 1 as [|c s Hc _ IH]; simpl; [reflexivity|].
  rewrite IH. f_equal.
  destruct (asciiLowerUnit_cases c) as [[Hr _]|[_ ->]]; [|reflexivity].
  unfold caseless in Hc. lia.
Qed.

(** ** Facts about numerals and glyphs *)

Lemma digits_isDigit (u : Decimal.uint) : Forall isDigit (digits u).
Proof.
  induction u; simpl; constructor; try assumption; unfold isDigit; lia.
Qed.

Lemma digits_inj (u v : Decimal.uint) : digits u = digits v -> u = v.
Proof.
  revert v. induction u as [|u IH|u IH|u IH|u IH|u IH|u IH|u IH|u IH|u IH|u IH];
    intros [|v|v|v|v|v|v|v|v|v|v]; simpl; intros H;
    try discriminate H; try reflexivity;
    injection H as H; f_equal; by apply IH.
Qed.

Lemma toString_inj (a b : Z) : toString a = toString b -> a = b.
Proof.
  unfold toString. intros H. apply DecimalZ.to_int_inj.
  destruct (Z.to_int a) as [u|u], (Z.to_int b) as [v|v].
  - f_equal. by apply digits_inj.
  - pose proof (digits_isDigit u) as Hu. rewrite H in Hu.
    inversion Hu as [|? ? Hd _]. unfold isDigit in Hd. lia.
  - pose proof (digits_isDigit v) as Hv. rewrite <- H in Hv.
    inversion Hv as [|? ? Hd _]. unfold isDigit in Hd. lia.
  - injection H as H. f_equal. by apply digits_inj.
Qed.

(** The numeral of a non-negative integer consists of digits. *)
Lemma toString_isDigit (n : Z) : 0 <= n -> Forall isDigit (toString n).
Proof.
  intros Hn. unfold toString. destruct n as [|x|x]; simpl.
  - apply (digits_isDigit (D0 Nil)).
  - apply digits_isDigit.
  - lia.
Qed.

(** A numeral holds digits and, possibly, the minus sign. *)
Lemma toString_units (n : Z) :
  Forall (fun c => isDigit c \/ c = 0x2D%N) (toString n).
Proof.
  unfold toString. destruct (Z.to_int n) as [u|u].
  - eapply Forall_impl; [apply digits_isDigit | tauto].
  - constructor; [by right|]. eapply Forall_impl; [apply digits_isDigit | tauto].
Qed.

Lemma position_glyph_range (p : Z) (g : code_unit) :
  position_glyph p = Some g ->
  0 <= p <= 9 /\ g = (0x2460 + Z.to_N p)%N /\ caseless g.
Proof.
  unfold position_glyph, caseless.
  destruct (Z.leb_spec 0 p); destruct (Z.leb_spec p 9); simpl; intros [= <-]; lia.
Qed.

Lemma position_glyph_inj (p q : Z) (g : code_unit) :
  position_glyph p = Some g -> position_glyph q = Some g -> p = q.
Proof.
  intros Hp Hq. apply position_glyph_range in Hp, Hq. lia.
Qed.

(** ** Facts about normalization *)

Lemma removeWhiteSpace_noWhiteSpace (s : jsstring) :
  noWhiteSpace (removeWhiteSpace s).
Proof.
  unfold noWhiteSpace, removeWhiteSpace. apply Forall_forall. intros c Hc.
  apply list_elem_of_In, List.filter_In in Hc as [_ Hc].
  by apply negb_true_iff.
Qed.

Lemma removeWhiteSpace_id (s : jsstring) :
  noWhiteSpace s -> removeWhiteSpace s = s.
Proof.
  unfold removeWhiteSpace. induction 1 as [|c s Hc _ IH]; simpl; [reflexivity|].
  by rewrite Hc, IH.
Qed.

Lemma removeTrailing_noWhiteSpace (s : jsstring) :
  noWhiteSpace s -> noWhiteSpace (removeTrailingDotOrComma s).
Proof.
  unfold noWhiteSpace. induction 1 as [|c s Hc Hs IH]; simpl; [constructor|].
  destruct s as [|d s].
  - destruct (isDotOrComma c); by repeat constructor.
  - by constructor.
Qed.

(** A string that does not end in a period or comma is left alone. *)
Lemma removeTrailing_id (s : jsstring) :
  (forall c, last s = Some c -> isDotOrComma c = false) ->
  removeTrailingDotOrComma s = s.
Proof.
  induction s as [|c s IH]; intros H; simpl; [reflexivity|].
  destruct s as [|d s].
  - by rewrite (H c eq_refl).
  - f_equal. apply IH. intros e He. apply H. exact He.
Qed.

Lemma caseless_plain (s : jsstring) :
  Forall caseless s ->
  noWhiteSpace s /\ (forall c, last s = Some c -> isDotOrComma c = false).
Proof.
  intros H. split.
  - eapply Forall_impl; [exact H|]. intros c Hc. apply isWhiteSpace_false.
    unfold caseless in Hc. lia.
  - intros c Hc. apply last_Some_elem_of in Hc. rewrite Forall_forall in H.
    specialize (H c Hc). apply not_true_iff_false. rewrite isDotOrComma_true.
    unfold caseless in H. lia.
Qed.

(** ** Claims about the evaluator *)

Section EvaluatorClaims.

Variable toLowerCase : jsstring -> jsstring.

(** The facts about the runtime's [toLowerCase] that the proofs below use;
    each lemma depends only on those it names. *)
Hypothesis lower_idem : forall s, toLowerCase (toLowerCase s) = toLowerCase s.
Hypothesis lower_noWhiteSpace :
  forall s, noWhiteSpace s -> noWhiteSpace (toLowerCase s).
Hypothesis lower_caseless : forall s, Forall caseless s -> toLowerCase s = s.

Lemma normalize_caseless (s : jsstring) :
  Forall caseless s -> normalize toLowerCase s = s.
Proof.
  intros H. destruct (caseless_plain s H) as [Hw Hl]. unfold normalize.
  rewrite (removeWhiteSpace_id s Hw), (removeTrailing_id s Hl).
  by apply lower_caseless.
Qed.

(** A key that is the numeral or the glyph of a position consists of
    caseless code units. *)
Lemma position_key_caseless (p : Z) (key : jsstring) :
  0 <= p ->
  key = toString (p + 1) \/ index circledNumbers p = Some key ->
  Forall caseless key.
Proof.
  intros Hp [->|Hk].
  - eapply Forall_impl; [apply toString_isDigit; lia|]. intros c Hc. by left.
  - rewrite index_circledNumbers in Hk.
    destruct (position_glyph p) as [g|] eqn:Hg; [|discriminate].
    injection Hk as <-. apply position_glyph_range in Hg as (_ & _ & Hg).
    constructor; [exact Hg | constructor].
Qed.

(** At the position of the key, the numeral rule or the glyph rule hits. *)
Lemma position_key_hits (p : Z) (key no : jsstring) :
  key = toString (p + 1) \/ index circledNumbers p = Some key ->
  rule_numeral no key p || rule_glyph no key p = true.
Proof.
  intros [->|Hk].
  - unfold rule_numeral, position_numeral. by rewrite bool_decide_eq_true_2.
  - rewrite index_circledNumbers in Hk. unfold rule_glyph.
    destruct (position_glyph p) as [g|]; [|discriminate]. injection Hk as <-.
    rewrite (bool_decide_eq_true_2 ([g] = [g])) by reflexivity.
    apply orb_true_r.
Qed.

(** A key of caseless units triggers no prefix rule, at any position. *)
Lemma caseless_no_prefix (key no : jsstring) (q : Z) :
  Forall caseless key -> rule_prefix no key q = false.
Proof.
  intros Hk. unfold rule_prefix. apply bool_decide_eq_false_2.
  rewrite Forall_forall in Hk.
  assert (forall (pre : jsstring) (c : code_unit),
             c ∈ pre -> pre `prefix_of` key -> caseless c) as Hin.
  { intros pre c Hc [k ->]. apply Hk. apply elem_of_app. by left. }
  intros [H|[H|H]].
  - assert (caseless 0x2E%N) as Hc.
    { eapply Hin; [|exact H]. apply elem_of_app. right. by left. }
    unfold caseless in Hc. lia.
  - assert (caseless 0x29%N) as Hc.
    { eapply Hin; [|exact H]. apply elem_of_app. right. by left. }
    unfold caseless in Hc. lia.
  - assert (caseless 0x28%N) as Hc.
    { eapply Hin; [|exact H]. by left. }
    unfold caseless in Hc. lia.
Qed.

(** At another position than that of the key, only the direct comparison of
    the texts can hit. *)
Lemma other_position_rules (p q : Z) (key no : jsstring) :
  0 <= p -> q <> p ->
  key = toString (p + 1) \/ index circledNumbers p = Some key ->
  rule_numeral no key q = false /\ rule_glyph no key q = false
  /\ rule_prefix no key q = false /\ rule_contains no key q = false.
Proof.
  intros Hp Hq Hk.
  pose proof (position_key_caseless p key Hp Hk) as Hc.
  split; [|split; [|split]].
  - unfold rule_numeral, position_numeral. apply bool_decide_eq_false_2.
    intros E. destruct Hk as [Hk|Hk].
    + apply Hq. rewrite Hk in E. apply toString_inj in E. lia.
    + rewrite index_circledNumbers in Hk.
      destruct (position_glyph p) as [g|] eqn:Hg; [|discriminate].
      injection Hk as <-. apply position_glyph_range in Hg as (_ & Hg & _).
      pose proof (toString_units (q + 1)) as Hu. rewrite <- E in Hu.
      inversion Hu as [|? ? Hd _]. unfold isDigit in Hd. lia.
  - unfold rule_glyph. destruct (position_glyph q) as [g|] eqn:Hg; [|reflexivity].
    apply bool_decide_eq_false_2. intros E. destruct Hk as [Hk|Hk].
    + apply position_glyph_range in Hg as (_ & Hg & _).
      pose proof (toString_isDigit (p + 1) ltac:(lia)) as Hd.
      rewrite <- Hk, E in Hd. inversion Hd as [|? ? Hd' _].
      unfold isDigit in Hd'. lia.
    + rewrite index_circledNumbers, E in Hk.
      destruct (position_glyph p) as [g'|] eqn:Hg'; [|discriminate].
      injection Hk as <-. apply Hq. by eapply position_glyph_inj.
  - by apply caseless_no_prefix.
  - unfold rule_contains. destruct (position_glyph q) as [g|] eqn:Hg; [|reflexivity].
    apply bool_decide_eq_false_2. intros E. destruct Hk as [Hk|Hk].
    + apply position_glyph_range in Hg as (_ & Hg & _).
      pose proof (toString_isDigit (p + 1) ltac:(lia)) as Hd.
      rewrite <- Hk, Forall_forall in Hd. specialize (Hd g E).
      unfold isDigit in Hd. lia.
    + rewrite index_circledNumbers in Hk.
      destruct (position_glyph p) as [g'|] eqn:Hg'; [|discriminate].
      injection Hk as <-. apply list_elem_of_singleton in E. subst g'.
      apply Hq. by eapply position_glyph_inj.
Qed.

(** C3 (amended). For a candidate that is not the empty string, the
    evaluator is the ordered rule list of the specification applied to the
    normalized candidate and the normalized answer: (1) equality, (2) the
    answer is the 1-based decimal position, (3) the answer is the circled
    digit of the position, (4) the answer starts with the position followed
    by a period or a closing parenthesis, or put in parentheses, (5) the
    answer contains the circled digit of the position; otherwise no match. *)
Theorem C3_rules_for_nonempty_candidate (candidate key : jsstring) (p : Z) :
  candidate <> [] ->
  isAnswerMatch toLowerCase (Some candidate) key p
  = spec_isAnswerMatch toLowerCase candidate key p.
Proof.
  intros Hne. destruct candidate as [|c o]; [done|].
  rewrite isAnswerMatch_unfold. unfold spec_isAnswerMatch.
  by rewrite first_hit_rules.
Qed.

(** C10. Whatever the answer and the position, a [null] candidate and an
    empty candidate do not match, also when the answer normalizes to the
    empty string. *)
Theorem C10_null_or_empty_candidate_never_matches (key : jsstring) (p : Z) :
  isAnswerMatch toLowerCase None key p = false
  /\ isAnswerMatch toLowerCase (Some []) key p = false.
Proof. split; reflexivity. Qed.

(** C7. The evaluator never throws and yields a boolean for every candidate
    ([null] and the empty string included), every answer and every integer
    position, in or out of the range of the glyph table: the evaluation with
    the runtime's faults made explicit completes normally, with the value of
    [isAnswerMatch], which is a function of the three inputs alone. *)
Theorem C7_evaluator_total (opt : option jsstring) (key : jsstring) (p : Z) :
  isAnswerMatch_run toLowerCase opt key p
  = Normal (isAnswerMatch toLowerCase opt key p)
  /\ (isAnswerMatch toLowerCase opt key p = true
      \/ isAnswerMatch toLowerCase opt key p = false).
Proof.
  split.
  - destruct opt as [[|c o]|]; try reflexivity.
    unfold isAnswerMatch_run, isAnswerMatch. simpl truthy. simpl negb. cbv iota.
    unfold normalize_call, mbind, completion_bind.
    repeat match goal with |- context [if ?b then _ else _] => destruct b end;
      reflexivity.
  - destruct (isAnswerMatch toLowerCase opt key p); auto.
Qed.

(** With the sentinel position [-1] the glyph rules are out of reach, but the
    numeral of the position is "0" and the numeral rules stay live. *)
Lemma sentinel_rules (c : code_unit) (o key : jsstring) :
  isAnswerMatch toLowerCase (Some (c :: o)) key (-1) =
  let na := normalize toLowerCase key in
  direct_match toLowerCase (c :: o) key
  || bool_decide (na = str "0")
  || rule_prefix (normalize toLowerCase (c :: o)) na (-1).
Proof.
  rewrite isAnswerMatch_unfold. cbv zeta. unfold direct_match, rule_equal.
  unfold rule_numeral, rule_glyph, rule_contains, position_numeral. simpl.
  by rewrite !orb_false_r.
Qed.

(** C5 (amended). Let [p] be a position of the option list whose option is
    not empty, and let the answer be the decimal numeral of [p+1] or the
    circled digit of [p]. The evaluator matches the option at [p]; at any
    other position it matches a candidate only through the direct comparison
    of the normalized texts. With options "①3", "②5", "③7" and answer "②",
    "②5" at position 1 matches and "①3" at position 0 does not. *)
Theorem C5_position_key (opts : list jsstring) (p : nat) (o key : jsstring) :
  opts !! p = Some o -> o <> [] ->
  key = toString (Z.of_nat p + 1) \/ index circledNumbers (Z.of_nat p) = Some key ->
  isAnswerMatch toLowerCase (Some o) key (Z.of_nat p) = true
  /\ (forall (q : Z) (o' : jsstring), q <> Z.of_nat p ->
        isAnswerMatch toLowerCase (Some o') key q = true ->
        direct_match toLowerCase o' key = true)
  /\ isAnswerMatch toLowerCase (Some [0x2461; 0x35]%N) [0x2461%N] 1 = true
  /\ isAnswerMatch toLowerCase (Some [0x2460; 0x33]%N) [0x2461%N] 0 = false.
Proof.
  intros _ Hne Hk.
  assert (Forall caseless key) as Hc
    by (eapply position_key_caseless; [|exact Hk]; lia).
  pose proof (normalize_caseless key Hc) as Hn.
  split; [|split; [|split]].
  - destruct o as [|c o]; [done|]. rewrite isAnswerMatch_unfold. cbv zeta.
    rewrite Hn.
    pose proof (position_key_hits (Z.of_nat p) key
                  (normalize toLowerCase (c :: o)) Hk) as Hh.
    apply orb_true_iff in Hh as [-> | ->]; by rewrite ?orb_true_r.
  - intros q o' Hq Hm. destruct o' as [|c o']; [discriminate|].
    rewrite isAnswerMatch_unfold in Hm. cbv zeta in Hm. rewrite Hn in Hm.
    destruct (other_position_rules (Z.of_nat p) q key
                (normalize toLowerCase (c :: o')) ltac:(lia) Hq Hk)
      as (H2 & H3 & H4 & H5).
    rewrite H2, H3, H4, H5, !orb_false_r in Hm.
    unfold direct_match. by rewrite Hn.
  - rewrite isAnswerMatch_unfold. cbv zeta.
    rewrite !normalize_caseless
      by (repeat constructor; unfold caseless; lia).
    reflexivity.
  - rewrite isAnswerMatch_unfold. cbv zeta.
    rewrite !normalize_caseless
      by (repeat (apply List.Forall_cons || apply List.Forall_nil); unfold caseless; lia).
    reflexivity.
Qed.

(** C6 (amended). Normalizing a normalized string changes nothing when the
    normalized string does not end in a period or a comma. *)
Theorem C6_normalize_idempotent_up_to_trailing_punctuation (s : jsstring) :
  (forall c, last (normalize toLowerCase s) = Some c -> isDotOrComma c = false) ->
  normalize toLowerCase (normalize toLowerCase s) = normalize toLowerCase s.
Proof.
  intros Hlast. unfold normalize at 1.
  assert (noWhiteSpace (normalize toLowerCase s)) as Hw.
  { apply lower_noWhiteSpace, removeTrailing_noWhiteSpace,
      removeWhiteSpace_noWhiteSpace. }
  rewrite (removeWhiteSpace_id _ Hw), (removeTrailing_id _ Hlast).
  apply lower_idem.
Qed.

End EvaluatorClaims.

(** *** The evaluator on concrete inputs *)

(** C3, as stated, fails on the empty candidate: the rules would match it
    against the answer "1" at position 0 (rule 2) and against the answer "."
    (rule 1, both normalize to the empty string), but the evaluator rejects an
    empty candidate before any rule. *)
Lemma C3_empty_candidate_counterexample :
  spec_isAnswerMatch asciiLower [] (str "1") 0 = true
  /\ isAnswerMatch asciiLower (Some []) (str "1") 0 = false
  /\ spec_isAnswerMatch asciiLower [] (str ".") 3 = true
  /\ isAnswerMatch asciiLower (Some []) (str ".") 3 = false.
Proof. repeat split; vm_compute; reflexivity. Qed.

Lemma C3_rules_for_nonempty_candidate_witness :
  str "3. y=x" <> []
  /\ isAnswerMatch asciiLower (Some (str "y = x")) (str "3. y=x") 2
     = spec_isAnswerMatch asciiLower (str "y = x") (str "3. y=x") 2
  /\ spec_isAnswerMatch asciiLower (str "y = x") (str "3. y=x") 2 = true.
Proof.
  split; [discriminate|]. split.
  - apply (C3_rules_for_nonempty_candidate asciiLower (str "y = x")). discriminate.
  - vm_compute. reflexivity.
Defined.

(** C4: the code at the sentinel position. The candidate "O" and the answer
    "0" differ after normalization, yet the evaluator matches them at
    position [-1], whose numeral is "0"; the same for the answer "0.5", which
    starts with "0.". In the scoring pass an OX question without an option
    list, answered "O", is therefore counted correct against the answer "0". *)
Theorem C4_sentinel_numeral_rule_fires :
  direct_match asciiLower (str "O") (str "0") = false
  /\ isAnswerMatch asciiLower (Some (str "O")) (str "0") (-1) = true
  /\ direct_match asciiLower (str "X") (str "0.5") = false
  /\ isAnswerMatch asciiLower (Some (str "X")) (str "0.5") (-1) = true
  /\ Quiz.correctness
       (Quiz.finalResults asciiLower [Example.q_ox_zero] [Some (str "O")] [None])
     = [true].
Proof. repeat split; vm_compute; reflexivity. Qed.

(** C5, as stated, fails when another option carries the answer as its text:
    with options "2", "1" and answer "1" (the numeral of position 0), the
    evaluator matches position 0 by the numeral rule and position 1 by the
    direct comparison. *)
Lemma C5_other_position_counterexample :
  str "1" = toString (0 + 1)
  /\ isAnswerMatch asciiLower (Some (str "2")) (str "1") 0 = true
  /\ isAnswerMatch asciiLower (Some (str "1")) (str "1") 1 = true.
Proof. repeat split; vm_compute; reflexivity. Qed.

Lemma C5_position_key_witness :
  isAnswerMatch asciiLower (Some [0x2461; 0x35]%N) [0x2461%N] 1 = true
  /\ (isAnswerMatch asciiLower (Some [0x2460; 0x33]%N) [0x2461%N] 0 = true ->
      direct_match asciiLower [0x2460; 0x33]%N [0x2461%N] = true).
Proof.
  destruct (C5_position_key asciiLower asciiLower_caseless
              [[0x2460; 0x33]; [0x2461; 0x35]; [0x2462; 0x37]]%N 1%nat
              [0x2461; 0x35]%N [0x2461%N])
    as (Hp & Hq & _).
  - reflexivity.
  - discriminate.
  - right. reflexivity.
  - split; [exact Hp|]. apply Hq. lia.
Defined.

(** C6, as stated, fails on a string that ends in two periods: one is
    removed by each normalization. *)
Lemma C6_two_trailing_periods_counterexample :
  normalize asciiLower (str "a..") = str "a."
  /\ normalize asciiLower (normalize asciiLower (str "a..")) = str "a"
  /\ normalize asciiLower (normalize asciiLower (str "a.."))
     <> normalize asciiLower (str "a..").
Proof. repeat split; try (vm_compute; reflexivity). vm_compute. discriminate. Qed.

Lemma C6_normalize_idempotent_witness :
  normalize asciiLower (str " The Answer. ") = str "theanswer"
  /\ normalize asciiLower (normalize asciiLower (str " The Answer. "))
     = normalize asciiLower (str " The Answer. ").
Proof.
  split; [vm_compute; reflexivity|].
  apply (C6_normalize_idempotent_up_to_trailing_punctuation asciiLower
           asciiLower_idem asciiLower_noWhiteSpace).
  vm_compute. intros c [= <-]. reflexivity.
Defined.

(** ** Facts about rounding *)

Section Rounding.

Import Binary64.

Local Open Scope Q_scope.

Lemma two_nonzero : ~ 2 == 0.
Proof. discriminate. Qed.

Lemma pow2_pos (z : Z) : 0 < 2 ^ z.
Proof. by apply Qpower_0_lt. Qed.

Lemma pow2_le (a b : Z) : (a <= b)%Z -> 2 ^ a <= 2 ^ b.
Proof. intros H. apply Qpower_le_compat_l; [exact H | discriminate]. Qed.

Lemma pow2_lt (a b : Z) : (a < b)%Z -> 2 ^ a < 2 ^ b.
Proof. intros H. apply Qpower_lt_compat_l; [exact H | reflexivity]. Qed.

Lemma pow2_succ (a : Z) : 2 ^ (a + 1) == 2 * 2 ^ a.
Proof. rewrite Qpower_plus by exact two_nonzero. rewrite Qpower_1_r. ring. Qed.

Lemma pow2_inject (a : Z) : (0 <= a)%Z -> inject_Z (2 ^ a) == 2 ^ a.
Proof. intros H. by rewrite Zpower_Qpower. Qed.

(** *** The nearest integer *)

Lemma roundHalfEven_near (m : Q) :
  inject_Z (roundHalfEven m) - (1 # 2) <= m
  /\ m <= inject_Z (roundHalfEven m) + (1 # 2).
Proof.
  unfold roundHalfEven.
  pose proof (Qfloor_le m) as Hlo. pose proof (Qlt_floor m) as Hhi.
  rewrite inject_Z_plus in Hhi. change (inject_Z 1) with 1 in Hhi.
  destruct (Qcompare_spec (m - inject_Z (Qfloor m)) (1 # 2)) as [E|E|E];
    [destruct (Z.even (Qfloor m))|..]; rewrite ?inject_Z_plus;
    change (inject_Z 1) with 1; lra.
Qed.

Lemma roundHalfEven_floor (m : Q) :
  (Qfloor m <= roundHalfEven m <= Qfloor m + 1)%Z.
Proof.
  unfold roundHalfEven.
  destruct (m - inject_Z (Qfloor m) ?= 1 # 2);
    [destruct (Z.even (Qfloor m))|..]; lia.
Qed.

Lemma roundHalfEven_comp (a b : Q) : a == b -> roundHalfEven a = roundHalfEven b.
Proof.
  intros E. unfold roundHalfEven. rewrite (Qfloor_comp a b E).
  by rewrite (Qcompare_comp _ _ (ltac:(rewrite E; reflexivity) :
    a - inject_Z (Qfloor b) == b - inject_Z (Qfloor b)) _ _ (Qeq_refl (1 # 2))).
Qed.

Lemma roundHalfEven_monotone (a b : Q) :
  a <= b -> (roundHalfEven a <= roundHalfEven b)%Z.
Proof.
  intros Hab. pose proof (Qfloor_resp_le a b Hab) as Hf.
  pose proof (roundHalfEven_floor a) as Ha.
  pose proof (roundHalfEven_floor b) as Hb.
  destruct (decide (Qfloor a = Qfloor b)) as [E|E]; [|lia].
  clear Ha Hb Hf. unfold roundHalfEven. rewrite E.
  destruct (Qcompare_spec (a - inject_Z (Qfloor b)) (1 # 2)) as [Ea|Ea|Ea];
    destruct (Qcompare_spec (b - inject_Z (Qfloor b)) (1 # 2)) as [Eb|Eb|Eb];
    try destruct (Z.even (Qfloor b)); try lia; exfalso; lra.
Qed.

Lemma roundHalfEven_inject (z : Z) : roundHalfEven (inject_Z z) = z.
Proof.
  unfold roundHalfEven. rewrite Qfloor_Z.
  destruct (Qcompare_spec (inject_Z z - inject_Z z) (1 # 2)) as [E|E|E];
    [exfalso; lra | reflexivity | exfalso; lra].
Qed.

(** *** The exponent *)

Lemma exponent_spec (q : Q) :
  0 < q -> 2 ^ exponent q <= q /\ q < 2 ^ (exponent q + 1).
Proof.
  intros Hq. destruct q as [n d]. unfold exponent. cbn [Qnum Qden].
  assert (0 < n)%Z as Hn by (unfold Qlt in Hq; simpl in Hq; lia).
  set (a := Z.log2 n). set (b := Z.log2 (Z.pos d)).
  pose proof (Z.log2_spec n Hn) as [Ha1 Ha2]. fold a in Ha1, Ha2.
  pose proof (Z.log2_spec (Z.pos d) eq_refl) as [Hb1 Hb2]. fold b in Hb1, Hb2.
  pose proof (Z.log2_nonneg n) as Ha0. fold a in Ha0.
  pose proof (Z.log2_nonneg (Z.pos d)) as Hb0. fold b in Hb0.
  rewrite <- Z.add_1_r in Ha2, Hb2.
  rewrite Zle_Qle in Ha1, Hb1. rewrite Zlt_Qlt in Ha2, Hb2.
  rewrite pow2_inject in Ha1, Hb1, Ha2, Hb2 by lia.
  set (N := inject_Z n) in *. set (D := inject_Z (Z.pos d)) in *.
  assert (0 < D) as HD by (pose proof (pow2_pos b); lra).
  assert (n # d == N / D) as -> by apply Qmake_Qdiv.
  assert (2 ^ (a + 1) == 2 ^ (a - b + 1) * 2 ^ b) as E1.
  { rewrite <- Qpower_plus by exact two_nonzero. apply Qpower_comp;
      [reflexivity | lia]. }
  assert (2 ^ a == 2 ^ (a - b - 1) * 2 ^ (b + 1)) as E2.
  { rewrite <- Qpower_plus by exact two_nonzero. apply Qpower_comp;
      [reflexivity | lia]. }
  pose proof (pow2_pos (a - b + 1)) as P1. pose proof (pow2_pos (a - b - 1)) as P2.
  assert (N / D < 2 ^ (a - b + 1)) as Hup.
  { apply Qlt_shift_div_r; [exact HD|]. nra. }
  assert (2 ^ (a - b - 1) < N / D) as Hdown.
  { apply Qlt_shift_div_l; [exact HD|]. nra. }
  destruct (Qle_bool (2 ^ (a - b)) (N / D)) eqn:Eb.
  - apply Qle_bool_iff in Eb. by split.
  - assert (~ 2 ^ (a - b) <= N / D) as Hn'
      by (intros H; apply Qle_bool_iff in H; congruence).
    apply Qnot_le_lt in Hn'. split; [by apply Qlt_le_weak|].
    by replace (a - b - 1 + 1)%Z with (a - b)%Z by lia.
Qed.

Lemma exponent_unique (q : Q) (e : Z) :
  2 ^ e <= q -> q < 2 ^ (e + 1) -> exponent q = e.
Proof.
  intros H1 H2.
  assert (0 < q) as Hq by (pose proof (pow2_pos e); lra).
  destruct (exponent_spec q Hq) as [S1 S2].
  destruct (Z.lt_trichotomy (exponent q) e) as [H|[H|H]]; [|exact H|].
  - pose proof (pow2_le (exponent q + 1) e ltac:(lia)). exfalso. lra.
  - pose proof (pow2_le (e + 1) (exponent q) ltac:(lia)). exfalso. lra.
Qed.

Lemma exponent_comp (a b : Q) : 0 < a -> a == b -> exponent a = exponent b.
Proof.
  intros Ha E. destruct (exponent_spec a Ha) as [S1 S2]. symmetry.
  apply exponent_unique; by rewrite <- E.
Qed.

Lemma exponent_monotone (a b : Q) :
  0 < a -> a <= b -> (exponent a <= exponent b)%Z.
Proof.
  intros Ha Hab. destruct (exponent_spec a Ha) as [A1 A2].
  destruct (exponent_spec b ltac:(lra)) as [B1 B2].
  destruct (Z_le_gt_dec (exponent a) (exponent b)) as [H|H]; [exact H|].
  pose proof (pow2_le (exponent b + 1) (exponent a) ltac:(lia)). exfalso. lra.
Qed.

(** *** Rounding of positive numbers *)

Lemma scaled_back (q : Q) (s : Z) : q / 2 ^ s * 2 ^ s == q.
Proof. field. pose proof (pow2_pos s). lra. Qed.

(** The scaled number has at most 53 bits before the point. *)
Lemma scaled_below (q : Q) :
  0 < q -> q / 2 ^ ulpExponent q < 2 ^ 53.
Proof.
  intros Hq. destruct (exponent_spec q Hq) as [_ S2].
  unfold ulpExponent. set (t := Z.max (exponent q) (-1022)).
  pose proof (pow2_pos (t - 52)) as P.
  apply Qlt_shift_div_r; [exact P|].
  assert (2 ^ 53 * 2 ^ (t - 52) == 2 ^ (t + 1)) as ->.
  { rewrite <- Qpower_plus by exact two_nonzero. apply Qpower_comp;
      [reflexivity | lia]. }
  pose proof (pow2_le (exponent q + 1) (t + 1) ltac:(lia)). lra.
Qed.

Lemma roundPositive_nonneg (q : Q) : 0 < q -> 0 <= roundPositive q.
Proof.
  intros Hq. unfold roundPositive. pose proof (pow2_pos (ulpExponent q)) as P.
  assert (0 <= q / 2 ^ ulpExponent q) as Hm
    by (apply Qle_shift_div_l; [exact P | lra]).
  pose proof (roundHalfEven_monotone 0 _ Hm) as Hr.
  change 0 with (inject_Z 0) in Hr at 1. rewrite roundHalfEven_inject in Hr.
  rewrite Zle_Qle in Hr. change (inject_Z 0) with 0 in Hr. nra.
Qed.

Lemma roundPositive_below (q : Q) :
  0 < q -> roundPositive q <= 2 ^ (Z.max (exponent q) (-1022) + 1).
Proof.
  intros Hq. pose proof (scaled_below q Hq) as Hm. unfold roundPositive.
  pose proof (pow2_pos (ulpExponent q)) as P.
  assert (q / 2 ^ ulpExponent q <= inject_Z (2 ^ 53)%Z) as Hm'
    by (rewrite pow2_inject by lia; lra).
  pose proof (roundHalfEven_monotone _ _ Hm') as Hr.
  rewrite roundHalfEven_inject in Hr.
  rewrite Zle_Qle in Hr. rewrite pow2_inject in Hr by lia.
  assert (2 ^ (Z.max (exponent q) (-1022) + 1) == 2 ^ 53 * 2 ^ ulpExponent q) as ->.
  { rewrite <- Qpower_plus by exact two_nonzero. apply Qpower_comp;
      [reflexivity | unfold ulpExponent; lia]. }
  nra.
Qed.

Lemma roundPositive_above (q : Q) :
  0 < q -> (-1022 <= exponent q)%Z -> 2 ^ exponent q <= roundPositive q.
Proof.
  intros Hq He. destruct (exponent_spec q Hq) as [S1 _].
  unfold roundPositive, ulpExponent. rewrite Z.max_l by lia.
  set (s := (exponent q - 52)%Z). pose proof (pow2_pos s) as P.
  assert (2 ^ exponent q == 2 ^ 52 * 2 ^ s) as E.
  { rewrite <- Qpower_plus by exact two_nonzero. apply Qpower_comp;
      [reflexivity | unfold s; lia]. }
  assert (2 ^ 52 <= q / 2 ^ s) as Hm
    by (apply Qle_shift_div_l; [exact P | lra]).
  assert (inject_Z (2 ^ 52)%Z <= q / 2 ^ s) as Hm'
    by (rewrite pow2_inject by lia; lra).
  pose proof (roundHalfEven_monotone _ _ Hm') as Hr.
  rewrite roundHalfEven_inject in Hr.
  rewrite Zle_Qle in Hr. rewrite pow2_inject in Hr by lia.
  rewrite E. nra.
Qed.

Lemma roundPositive_monotone (a b : Q) :
  0 < a -> a <= b -> roundPositive a <= roundPositive b.
Proof.
  intros Ha Hab. assert (0 < b) as Hb by lra.
  pose proof (exponent_monotone a b Ha Hab) as He.
  destruct (decide (ulpExponent a = ulpExponent b)) as [E|E].
  - unfold roundPositive. rewrite E. set (s := ulpExponent b).
    pose proof (pow2_pos s) as P.
    assert (a / 2 ^ s <= b / 2 ^ s) as Hm.
    { apply Qle_shift_div_l; [exact P|]. rewrite scaled_back. exact Hab. }
    pose proof (roundHalfEven_monotone _ _ Hm) as Hr. rewrite Zle_Qle in Hr. nra.
  - assert (Z.max (exponent a) (-1022) + 1 <= exponent b
            /\ -1022 <= exponent b)%Z as [H1 H2]
      by (unfold ulpExponent in E; lia).
    pose proof (roundPositive_below a Ha). pose proof (roundPositive_above b Hb H2).
    pose proof (pow2_le _ _ H1). lra.
Qed.

Lemma roundPositive_comp (a b : Q) :
  0 < a -> a == b -> roundPositive a == roundPositive b.
Proof.
  intros Ha E. unfold roundPositive, ulpExponent.
  rewrite (exponent_comp a b Ha E).
  set (s := (Z.max (exponent b) (-1022) - 52)%Z).
  rewrite (roundHalfEven_comp (a / 2 ^ s) (b / 2 ^ s)); [reflexivity|].
  by rewrite E.
Qed.

(** The distance to the rounded number is at most half a unit in the last
    place. *)
Lemma roundPositive_near (q : Q) :
  0 < q ->
  q - 2 ^ ulpExponent q * (1 # 2) <= roundPositive q
  /\ roundPositive q <= q + 2 ^ ulpExponent q * (1 # 2).
Proof.
  intros Hq. unfold roundPositive. set (s := ulpExponent q).
  pose proof (pow2_pos s) as P. pose proof (scaled_back q s) as E.
  destruct (roundHalfEven_near (q / 2 ^ s)) as [H1 H2]. nra.
Qed.

(** *** Rounding *)

Lemma round64_nonneg (q : Q) : 0 <= q -> 0 <= round64 q.
Proof.
  intros Hq. unfold round64.
  destruct (Qcompare_spec q 0) as [E|E|E];
    [apply Qle_refl | exfalso; lra | by apply roundPositive_nonneg].
Qed.

Lemma round64_monotone (a b : Q) :
  0 <= a -> a <= b -> round64 a <= round64 b.
Proof.
  intros Ha Hab. unfold round64 at 1.
  destruct (Qcompare_spec a 0) as [E|E|E]; [|exfalso; lra|].
  - apply round64_nonneg. lra.
  - unfold round64. destruct (Qcompare_spec b 0) as [E'|E'|E'];
      [exfalso; lra | exfalso; lra | by apply roundPositive_monotone].
Qed.

#[global] Instance round64_comp : Proper (Qeq ==> Qeq) round64.
Proof.
  intros a b E. unfold round64. rewrite <- (Qcompare_comp a b E 0 0 (Qeq_refl 0)).
  destruct (Qcompare_spec a 0) as [H|H|H]; [reflexivity| |].
  - apply Qopp_comp. apply roundPositive_comp; [lra | by rewrite E].
  - by apply roundPositive_comp.
Qed.

#[global] Instance fdiv_comp : Proper (Qeq ==> Qeq ==> Qeq) fdiv.
Proof. intros a b E c d F. unfold fdiv. by rewrite E, F. Qed.

#[global] Instance fmul_comp : Proper (Qeq ==> Qeq ==> Qeq) fmul.
Proof. intros a b E c d F. unfold fmul. by rewrite E, F. Qed.

#[global] Instance fadd_comp : Proper (Qeq ==> Qeq ==> Qeq) fadd.
Proof. intros a b E c d F. unfold fadd. by rewrite E, F. Qed.

(** A whole number of quarters below [2^51] is a binary64 number. *)
Lemma round64_quarters (z : Z) :
  (0 <= z < 2 ^ 53)%Z -> round64 (inject_Z z / 4) == inject_Z z / 4.
Proof.
  intros [Hz0 Hz]. unfold round64.
  destruct (Qcompare_spec (inject_Z z / 4) 0) as [E|E|E];
    [by rewrite E | |].
  { exfalso. assert (0 <= inject_Z z) by (change 0 with (inject_Z 0);
      rewrite <- Zle_Qle; lia).
    assert (0 <= inject_Z z / 4) by (apply Qle_shift_div_l; lra). lra. }
  set (q := inject_Z z / 4) in *.
  assert (1 <= z)%Z as Hz1.
  { destruct (Z_le_gt_dec 1 z) as [H|H]; [exact H|].
    assert (z = 0%Z) as -> by lia. exfalso. unfold q in E. vm_compute in E.
    discriminate E. }
  assert (inject_Z 1 <= inject_Z z) as Hq1 by (rewrite <- Zle_Qle; lia).
  assert (inject_Z z < inject_Z (2 ^ 53)) as Hq2 by (rewrite <- Zlt_Qlt; lia).
  change (inject_Z 1) with 1 in Hq1.
  change (inject_Z (2 ^ 53)) with 9007199254740992 in Hq2.
  assert (4 * q == inject_Z z) as Eq by (unfold q; field).
  destruct (exponent_spec q E) as [S1 S2].
  assert (-2 <= exponent q <= 50)%Z as [He1 He2].
  { split.
    - destruct (Z_le_gt_dec (-2) (exponent q)) as [H|H]; [exact H|].
      pose proof (pow2_le (exponent q + 1) (-2) ltac:(lia)) as Hp.
      change (2 ^ (-2)) with (1 # 4) in Hp. exfalso. lra.
    - destruct (Z_le_gt_dec (exponent q) 50) as [H|H]; [exact H|].
      pose proof (pow2_le 51 (exponent q) ltac:(lia)) as Hp.
      change (2 ^ 51) with 2251799813685248 in Hp. exfalso. lra. }
  unfold roundPositive, ulpExponent. rewrite Z.max_l by lia.
  set (s := (exponent q - 52)%Z). set (t := (- 2 - s)%Z).
  assert (0 <= t)%Z as Ht by (unfold t, s; lia).
  assert (2 ^ t * 2 ^ s == 1 # 4) as Ets.
  { rewrite <- Qpower_plus by exact two_nonzero.
    replace (t + s)%Z with (-2)%Z by (unfold t; lia). reflexivity. }
  pose proof (pow2_pos s) as Ps.
  assert (q == inject_Z z * 2 ^ t * 2 ^ s) as Eq'
    by (rewrite <- Qmult_assoc, Ets; lra).
  assert (q / 2 ^ s == inject_Z (z * 2 ^ t)) as Em.
  { rewrite inject_Z_mult, pow2_inject by exact Ht. rewrite Eq' at 1.
    field. lra. }
  rewrite (roundHalfEven_comp _ _ Em), roundHalfEven_inject.
  rewrite inject_Z_mult, pow2_inject by exact Ht. by rewrite <- Eq'.
Qed.

(** Below [2^k], rounding moves a number by at most [2^(k-54)]. *)
Lemma round64_near (q : Q) (k : Z) :
  (-1021 <= k)%Z -> 0 <= q -> q < 2 ^ k ->
  q - 2 ^ (k - 54) <= round64 q /\ round64 q <= q + 2 ^ (k - 54).
Proof.
  intros Hk H0 Hq. pose proof (pow2_pos (k - 54)) as P. unfold round64.
  destruct (Qcompare_spec q 0) as [E|E|E]; [lra | exfalso; lra |].
  destruct (exponent_spec q E) as [S1 _].
  assert (exponent q < k)%Z as He.
  { destruct (Z_lt_ge_dec (exponent q) k) as [H|H]; [exact H|].
    pose proof (pow2_le k (exponent q) ltac:(lia)). exfalso. lra. }
  pose proof (pow2_le (ulpExponent q) (k - 53) ltac:(unfold ulpExponent; lia)) as Hs.
  assert (2 ^ (k - 53) == 2 * 2 ^ (k - 54)) as E2.
  { rewrite <- pow2_succ. apply Qpower_comp; [reflexivity | lia]. }
  destruct (roundPositive_near q E) as [N1 N2]. lra.
Qed.

End Rounding.

(** ** Facts about sums of weights *)

Section Weights.

Import Quiz.

Lemma quarter_unit (w : Q) : quarter w -> unit_weight w.
Proof.
  intros (k & Hk & E).
  assert (inject_Z 0 <= inject_Z k)%Q as H0 by (rewrite <- Zle_Qle; lia).
  assert (inject_Z k <= inject_Z 4)%Q as H4 by (rewrite <- Zle_Qle; lia).
  change (inject_Z 0) with 0%Q in H0. change (inject_Z 4) with 4%Q in H4.
  split; lra.
Qed.

Lemma quarter_short (w : Q) : quarter w -> (w == 1)%Q \/ (w <= 3 # 4)%Q.
Proof.
  intros (k & Hk & E). destruct (decide (k = 4)) as [->|Hne].
  - left. change (inject_Z 4) with 4%Q in E. lra.
  - right. assert (inject_Z k <= inject_Z 3)%Q as H3
      by (rewrite <- Zle_Qle; lia).
    change (inject_Z 3) with 3%Q in H3. lra.
Qed.

(** The additions of quarters are exact as long as the total stays below
    2^51. *)
Lemma foldl_fadd (l : list Q) (a : Q) (za : Z) :
  (4 * a == inject_Z za)%Q -> 0 <= za ->
  Forall quarter l -> za + 4 * Z.of_nat (length l) < 2 ^ 53 ->
  (foldl Binary64.fadd a l == a + Qsum l)%Q.
Proof.
  revert a za. induction l as [|w l IH]; intros a za Ea Hza Hl Hmax.
  - simpl. lra.
  - apply Forall_cons_1 in Hl as [(k & Hk & Ew) Hl]. simpl length in Hmax.
    assert (Binary64.fadd a w == a + w)%Q as Estep.
    { unfold Binary64.fadd.
      assert (a + w == inject_Z (za + k) / 4)%Q as ->
        by (rewrite inject_Z_plus, <- Ea, <- Ew; field).
      apply round64_quarters. lia. }
    cbn [foldl].
    assert (foldl Binary64.fadd (Binary64.fadd a w) l
            == Binary64.fadd a w + Qsum l)%Q as ->.
    { apply (IH _ (za + k)); [|lia|exact Hl|lia].
      rewrite Estep, inject_Z_plus. lra. }
    rewrite Estep. simpl Qsum. lra.
Qed.

Lemma sumPoints_Qsum (l : list Q) :
  Forall quarter l -> Z.of_nat (length l) < 2 ^ 32 ->
  (sumPoints l == Qsum l)%Q.
Proof.
  intros Hl Hmax. unfold sumPoints.
  rewrite (foldl_fadd l 0 0); [lra | reflexivity | lia | exact Hl | lia].
Qed.

Lemma inject_length_cons {A} (x : A) (l : list A) :
  (inject_Z (Z.of_nat (length (x :: l))) == inject_Z (Z.of_nat (length l)) + 1)%Q.
Proof.
  simpl length. rewrite Nat2Z.inj_succ, <- Z.add_1_r, inject_Z_plus. reflexivity.
Qed.

Lemma Qsum_bounds (ws : list Q) :
  Forall unit_weight ws ->
  (0 <= Qsum ws /\ Qsum ws <= inject_Z (Z.of_nat (length ws)))%Q.
Proof.
  induction 1 as [|w ws [H0 H1] _ [IH0 IH1]].
  - split; apply Qle_refl.
  - rewrite inject_length_cons. simpl Qsum. lra.
Qed.

Lemma Qsum_full (ws : list Q) :
  Forall unit_weight ws ->
  (Qsum ws == inject_Z (Z.of_nat (length ws)))%Q ->
  Forall (fun w => (w == 1)%Q) ws.
Proof.
  induction 1 as [|w ws [H0 H1] Hws IH]; intros Hs; [constructor|].
  rewrite inject_length_cons in Hs. simpl Qsum in Hs.
  destruct (Qsum_bounds ws Hws) as [_ Hb].
  constructor; [lra | apply IH; lra].
Qed.

Lemma Qsum_ones (ws : list Q) :
  Forall (fun w => (w == 1)%Q) ws ->
  (Qsum ws == inject_Z (Z.of_nat (length ws)))%Q.
Proof.
  induction 1 as [|w ws Hw _ IH].
  - reflexivity.
  - rewrite inject_length_cons. simpl Qsum. lra.
Qed.

(** A sum of unit weights that are 1 or at most 3/4 is the length, or
    falls short of it by a quarter at least. *)
Lemma Qsum_short (ws : list Q) :
  Forall unit_weight ws ->
  Exists (fun w => (w <= 3 # 4)%Q) ws ->
  (Qsum ws <= inject_Z (Z.of_nat (length ws)) - (1 # 4))%Q.
Proof.
  intros Hu. induction 1 as [w ws Hw|w ws Hex IH].
  - apply Forall_cons_1 in Hu as [_ Hu].
    destruct (Qsum_bounds ws Hu) as [_ Hb].
    rewrite inject_length_cons. simpl Qsum. lra.
  - apply Forall_cons_1 in Hu as [[_ Hw] Hu]. specialize (IH Hu).
    rewrite inject_length_cons. simpl Qsum. lra.
Qed.

End Weights.

(** ** The percentage in binary64 *)

Section Percentage.

Import Binary64.

Local Open Scope Q_scope.

Lemma round64_1 : round64 1 == 1.
Proof. vm_compute. reflexivity. Qed.

Lemma round64_100 : round64 100 == 100.
Proof. vm_compute. reflexivity. Qed.

Variables total n : Q.

Hypothesis n_pos : 0 < n.
Hypothesis total_nonneg : 0 <= total.
Hypothesis total_le : total <= n.

Lemma quotient_unit : 0 <= total / n /\ total / n <= 1.
Proof.
  split; [apply Qle_shift_div_l; lra | apply Qle_shift_div_r; lra].
Qed.

Lemma fdiv_unit : 0 <= fdiv total n /\ fdiv total n <= 1.
Proof.
  destruct quotient_unit as [H0 H1]. unfold fdiv. split.
  - by apply round64_nonneg.
  - rewrite <- round64_1. by apply round64_monotone.
Qed.

(** The percentage lies between 0 and 100. *)
Lemma percentage_bounds :
  0 <= fmul (fdiv total n) 100 /\ fmul (fdiv total n) 100 <= 100.
Proof.
  destruct fdiv_unit as [H0 H1]. unfold fmul. split.
  - apply round64_nonneg. lra.
  - rewrite <- round64_100 at 2. apply round64_monotone; lra.
Qed.

(** The two roundings move the percentage by less than [2^-45]. *)
Lemma percentage_near :
  total / n * 100 - 2 ^ (-45) <= fmul (fdiv total n) 100
  /\ fmul (fdiv total n) 100 <= total / n * 100 + 2 ^ (-45).
Proof.
  destruct quotient_unit as [H0 H1]. destruct fdiv_unit as [F0 F1].
  destruct (round64_near (total / n) 1) as [A1 A2];
    [lia | exact H0 | change (2 ^ 1) with 2; lra|].
  fold (fdiv total n) in A1, A2.
  destruct (round64_near (fdiv total n * 100) 7) as [B1 B2];
    [lia | lra | change (2 ^ 7) with 128; lra|].
  fold (fmul (fdiv total n) 100) in B1, B2.
  change (2 ^ (1 - 54)) with (1 # 9007199254740992) in A1, A2.
  change (2 ^ (7 - 54)) with (1 # 140737488355328) in B1, B2.
  change (2 ^ (-45)) with (1 # 35184372088832).
  lra.
Qed.

End Percentage.

Section PercentageSteps.

Import Binary64.

Local Open Scope Q_scope.

(** A total of [n] gives 100. *)
Lemma percentage_full (total n : Q) :
  0 < n -> total == n -> fmul (fdiv total n) 100 == 100.
Proof.
  intros Hn E. assert (total / n == 1) as E1 by (rewrite E; field; lra).
  unfold fmul, fdiv. rewrite E1, round64_1.
  assert (1 * 100 == 100) as -> by reflexivity. exact round64_100.
Qed.

(** With fewer than [2^32] questions, a quarter more in the total gives a
    larger percentage, larger also than the exact percentage of the smaller
    total. *)
Lemma percentage_step (t1 t2 n : Q) :
  0 < n -> n <= 4294967296 ->
  0 <= t1 -> t1 + (1 # 4) <= t2 -> t2 <= n ->
  fmul (fdiv t1 n) 100 < fmul (fdiv t2 n) 100
  /\ t1 / n * 100 < fmul (fdiv t2 n) 100.
Proof.
  intros Hn Hmax H1 H12 H2.
  destruct (percentage_near t1 n Hn H1 ltac:(lra)) as [_ A].
  destruct (percentage_near t2 n Hn ltac:(lra) H2) as [B _].
  change (2 ^ (-45)) with (1 # 35184372088832) in A, B.
  assert (n * (t1 / n) == t1) as E1 by (apply Qmult_div_r; lra).
  assert (n * (t2 / n) == t2) as E2 by (apply Qmult_div_r; lra).
  assert (t1 / n + (1 # 17179869184) <= t2 / n) as Hgap.
  { set (x1 := t1 / n) in *. set (x2 := t2 / n) in *.
    destruct (Qlt_le_dec (x2 - x1) (1 # 17179869184)) as [Hlt|Hge]; [|lra].
    exfalso.
    assert (n * (x2 - x1) <= 4294967296 * (x2 - x1)) as Hm.
    { destruct (Qlt_le_dec (x2 - x1) 0) as [Hneg|Hpos].
      - assert (n * (x2 - x1) <= 0) by nra. lra.
      - apply Qmult_le_compat_r; [exact Hmax | exact Hpos]. }
    lra. }
  lra.
Qed.

End PercentageSteps.

(** ** The final scoring pass against the earned weights *)

Section Scoring.

Import Quiz.

Variable toLowerCase : jsstring -> jsstring.
Variable qs : list QuizQuestion.
Variables (answers : list (option jsstring)) (grades : list (option Grade)).

Lemma correctness_imap :
  correctness (finalResults toLowerCase qs answers grades)
  = imap (fun i q => snd (correctnessCallback toLowerCase answers grades i q)) qs.
Proof.
  unfold finalResults. simpl. apply list_eq. intros i.
  rewrite list_lookup_fmap, !list_lookup_imap. by destruct (qs !! i).
Qed.

Lemma correctness_lookup (i : nat) (q : QuizQuestion) :
  qs !! i = Some q ->
  correctness (finalResults toLowerCase qs answers grades) !! i
  = Some (snd (correctnessCallback toLowerCase answers grades i q)).
Proof. intros H. by rewrite correctness_imap, list_lookup_imap, H. Qed.

(** The flag of an objective question is the evaluator's verdict. *)
Lemma callback_objective (i : nat) (q : QuizQuestion) :
  isMcOrOx (questionType q) = true ->
  snd (correctnessCallback toLowerCase answers grades i q)
  = evaluator_matches toLowerCase q (nullable (answers !! i)).
Proof.
  intros H. unfold correctnessCallback, evaluator_matches. rewrite H. simpl.
  by destruct (list_find _ _) as [[k x]|].
Qed.

(** The flag of a free-text question: grades A, B and C count as correct. *)
Lemma callback_free_text (i : nat) (q : QuizQuestion) :
  isMcOrOx (questionType q) = false ->
  snd (correctnessCallback toLowerCase answers grades i q)
  = match nullable (grades !! i) with
    | Some GradeA | Some GradeB | Some GradeC => true
    | _ => false
    end.
Proof.
  intros H. unfold correctnessCallback. rewrite H. simpl.
  by destruct (nullable (grades !! i)) as [[]|].
Qed.

(** The re-summation adds the earned weight of each question. *)
Lemma points_earned_weight (i : nat) (q : QuizQuestion) :
  qs !! i = Some q ->
  pointsCallback grades
    (correctness (finalResults toLowerCase qs answers grades)) i q
  = earned_weight toLowerCase q (nullable (answers !! i)) (nullable (grades !! i)).
Proof.
  intros H. unfold pointsCallback, earned_weight.
  destruct (isMcOrOx (questionType q)) eqn:Ht; cbn [negb].
  - by rewrite (correctness_lookup i q H), (callback_objective i q Ht).
  - by destruct (nullable (grades !! i)) as [[]|].
Qed.

Lemma totalEarnedPoints_earned_weights :
  totalEarnedPoints toLowerCase qs answers grades
  = sumPoints (earned_weights toLowerCase qs answers grades).
Proof.
  unfold totalEarnedPoints, earned_weights. f_equal. apply imap_ext.
  intros i q Hq. by apply points_earned_weight.
Qed.

Lemma score_totalEarnedPoints :
  score (finalResults toLowerCase qs answers grades)
  = Binary64.fmul
      (Binary64.fdiv (totalEarnedPoints toLowerCase qs answers grades)
         (inject_Z (Z.of_nat (length qs)))) 100.
Proof. reflexivity. Qed.

Lemma earned_weight_quarter (q : QuizQuestion) (ans : option jsstring)
    (g : option Grade) :
  quarter (earned_weight toLowerCase q ans g).
Proof.
  unfold quarter, earned_weight, grade_weight.
  destruct (isMcOrOx (questionType q)).
  - destruct (evaluator_matches toLowerCase q ans);
      [exists 4 | exists 0]; (split; [lia | reflexivity]).
  - destruct g as [[]|];
      [exists 4 | exists 3 | exists 2 | exists 1 | exists 0 | exists 0];
      (split; [lia | reflexivity]).
Qed.

Lemma earned_weights_quarter :
  Forall quarter (earned_weights toLowerCase qs answers grades).
Proof.
  apply Forall_forall. intros w Hw. unfold earned_weights in Hw.
  apply elem_of_lookup_imap_1 in Hw as (i & q & -> & _).
  apply earned_weight_quarter.
Qed.

(** With fewer than 2^32 questions the earned points are the exact sum of
    the earned weights. *)
Lemma totalEarnedPoints_Qsum :
  Z.of_nat (length qs) < 2 ^ 32 ->
  (totalEarnedPoints toLowerCase qs answers grades
   == Qsum (earned_weights toLowerCase qs answers grades))%Q.
Proof.
  intros Hmax. rewrite totalEarnedPoints_earned_weights.
  apply sumPoints_Qsum; [apply earned_weights_quarter|].
  unfold earned_weights. by rewrite length_imap.
Qed.

Lemma score_earned_weights :
  Z.of_nat (length qs) < 2 ^ 32 ->
  (score (finalResults toLowerCase qs answers grades)
   == Binary64.fmul
        (Binary64.fdiv (Qsum (earned_weights toLowerCase qs answers grades))
           (inject_Z (Z.of_nat (length qs)))) 100)%Q.
Proof.
  intros Hmax. rewrite score_totalEarnedPoints.
  by rewrite (totalEarnedPoints_Qsum Hmax).
Qed.

Lemma earned_weight_unit (q : QuizQuestion) (ans : option jsstring)
    (g : option Grade) :
  unit_weight (earned_weight toLowerCase q ans g).
Proof.
  unfold unit_weight, earned_weight, grade_weight.
  destruct (isMcOrOx (questionType q)).
  - destruct (evaluator_matches toLowerCase q ans); lra.
  - destruct g as [[]|]; lra.
Qed.

Lemma earned_weights_unit :
  Forall unit_weight (earned_weights toLowerCase qs answers grades).
Proof.
  apply Forall_forall. intros w Hw. unfold earned_weights in Hw.
  apply elem_of_lookup_imap_1 in Hw as (i & q & -> & _).
  apply earned_weight_unit.
Qed.

Lemma length_positive : qs <> [] -> (0 < inject_Z (Z.of_nat (length qs)))%Q.
Proof.
  intros Hne. change 0%Q with (inject_Z 0). rewrite <- Zlt_Qlt.
  destruct qs; [done | simpl; lia].
Qed.

Lemma length_array :
  Z.of_nat (length qs) < 2 ^ 32 ->
  (inject_Z (Z.of_nat (length qs)) <= 4294967296)%Q.
Proof.
  intros H. change 4294967296%Q with (inject_Z 4294967296).
  rewrite <- Zle_Qle. lia.
Qed.

(** C2. For a session of at least one question (and fewer than 2^32, the
    bound of an array), each earned weight lies between 0 and 1; the final
    score is the sum of the earned weights divided by the number of
    questions, times 100, as binary64 computes the quotient and the
    product, and so within 2^-45 of the exact value; it lies between 0 and
    100, and it is 100 exactly when every weight is 1. *)
Theorem C2_score_linear_and_bounded :
  qs <> [] -> Z.of_nat (length qs) < 2 ^ 32 ->
  let sub := finalResults toLowerCase qs answers grades in
  let ws := earned_weights toLowerCase qs answers grades in
  let n := inject_Z (Z.of_nat (length qs)) in
  Forall unit_weight ws
  /\ length ws = length qs
  /\ (score sub == Binary64.fmul (Binary64.fdiv (Qsum ws) n) 100)%Q
  /\ (Qsum ws / n * 100 - 2 ^ (-45) <= score sub)%Q
  /\ (score sub <= Qsum ws / n * 100 + 2 ^ (-45))%Q
  /\ (0 <= score sub)%Q /\ (score sub <= 100)%Q
  /\ ((score sub == 100)%Q <-> Forall (fun w => (w == 1)%Q) ws).
Proof.
  intros Hne Hmax sub ws n.
  assert (length ws = length qs) as Hlen by apply length_imap.
  pose proof (length_positive Hne) as Hn. fold n in Hn.
  pose proof (length_array Hmax) as Hn32. fold n in Hn32.
  pose proof earned_weights_unit as Hu. fold ws in Hu.
  destruct (Qsum_bounds ws Hu) as [H0 H1]. rewrite Hlen in H1. fold n in H1.
  assert (score sub == Binary64.fmul (Binary64.fdiv (Qsum ws) n) 100)%Q as Hs
    by (by apply score_earned_weights).
  destruct (percentage_bounds (Qsum ws) n Hn H0 H1) as [Hb0 Hb1].
  destruct (percentage_near (Qsum ws) n Hn H0 H1) as [Hn0 Hn1].
  split; [exact Hu|]. split; [exact Hlen|]. split; [exact Hs|].
  split; [by rewrite Hs|]. split; [by rewrite Hs|].
  split; [by rewrite Hs|]. split; [by rewrite Hs|].
  rewrite Hs. split.
  - intros E.
    destruct (Forall_Exists_dec (fun w => (w == 1)%Q) (fun w => ~ (w == 1)%Q)
                (fun w => Qeq_dec w 1) ws) as [Hall|Hex]; [exact Hall|].
    exfalso.
    assert (Exists (fun w => (w <= 3 # 4)%Q) ws) as Hq.
    { pose proof earned_weights_quarter as Hquarters. fold ws in Hquarters.
      clear -Hex Hquarters. induction Hex as [w l Hw|w l Hex IH].
      - apply Forall_cons_1 in Hquarters as [Hq _].
        destruct (quarter_short w Hq) as [H|H]; [done|].
        by apply Exists_cons_hd.
      - apply Forall_cons_1 in Hquarters as [_ H]. apply Exists_cons_tl.
        by apply IH. }
    pose proof (Qsum_short ws Hu Hq) as Hshort. rewrite Hlen in Hshort.
    fold n in Hshort.
    destruct (percentage_step (Qsum ws) n n Hn Hn32 H0) as [Hlt _];
      [lra | lra|].
    rewrite (percentage_full n n Hn (Qeq_refl n)) in Hlt. lra.
  - intros Hall. apply percentage_full; [exact Hn|].
    rewrite (Qsum_ones ws Hall), Hlen. reflexivity.
Qed.

(** A session in which one question earns a quarter without being counted
    and every other question earns 1 and is counted. *)
Lemma all_full {A} (w : nat -> A -> Q) (c : nat -> A -> bool) (l : list A) :
  (forall j y, l !! j = Some y -> (w j y == 1)%Q /\ c j y = true) ->
  (Qsum (imap w l) == inject_Z (Z.of_nat (length l)))%Q
  /\ length (filter (fun b : bool => b = true) (imap c l)) = length l.
Proof.
  revert w c. induction l as [|x l IH]; intros w c H.
  - split; reflexivity.
  - destruct (H 0%nat x eq_refl) as [Hw Hc].
    destruct (IH (w ∘ S) (c ∘ S)) as [IHw IHc].
    { intros j y Hj. apply (H (S j) y Hj). }
    split.
    + rewrite inject_length_cons. simpl imap. simpl Qsum. rewrite Hw, IHw.
      apply Qplus_comm.
    + simpl imap. rewrite filter_cons_True by exact Hc. simpl. by rewrite IHc.
Qed.

Lemma one_quarter {A} (w : nat -> A -> Q) (c : nat -> A -> bool) (l : list A)
    (i : nat) (x : A) :
  l !! i = Some x -> (w i x == 1 # 4)%Q -> c i x = false ->
  (forall j y, j <> i -> l !! j = Some y -> (w j y == 1)%Q /\ c j y = true) ->
  (Qsum (imap w l) == inject_Z (Z.of_nat (length l)) - (3 # 4))%Q
  /\ length (filter (fun b : bool => b = true) (imap c l)) = (length l - 1)%nat.
Proof.
  revert w c i. induction l as [|y l IH]; intros w c i Hi Hw Hc H; [done|].
  rewrite inject_length_cons. simpl imap. simpl Qsum. destruct i as [|i].
  - injection Hi as ->.
    destruct (all_full (w ∘ S) (c ∘ S) l) as [Tw Tc].
    { intros j z Hj. apply (H (S j) z); [lia | exact Hj]. }
    split.
    + rewrite Hw, Tw. lra.
    + rewrite filter_cons_False by (rewrite Hc; discriminate).
      rewrite Tc. simpl. lia.
  - destruct (H 0%nat y ltac:(lia) eq_refl) as [Hw0 Hc0].
    destruct (IH (w ∘ S) (c ∘ S) i Hi Hw Hc) as [IHw IHc].
    { intros j z Hj Hz. apply (H (S j) z); [lia | exact Hz]. }
    split.
    + rewrite Hw0, IHw. lra.
    + rewrite filter_cons_True by exact Hc0. simpl. rewrite IHc.
      apply lookup_lt_Some in Hi. simpl in Hi. lia.
Qed.

(** A question that earns 1 is counted correct. *)
Lemma full_weight_counted (j : nat) (q : QuizQuestion) :
  (earned_weight toLowerCase q (nullable (answers !! j)) (nullable (grades !! j))
   == 1)%Q ->
  snd (correctnessCallback toLowerCase answers grades j q) = true.
Proof.
  unfold earned_weight. destruct (isMcOrOx (questionType q)) eqn:Ht.
  - rewrite (callback_objective j q Ht).
    destruct (evaluator_matches toLowerCase q (nullable (answers !! j)));
      [reflexivity | intros E; lra].
  - rewrite (callback_free_text j q Ht). unfold grade_weight.
    destruct (nullable (grades !! j)) as [[]|]; intros E; try reflexivity; lra.
Qed.

(** C1 (amended). In the final scoring pass a free-text question counts
    toward the correct count exactly when its selected grade is A, B or C,
    that is, when its weight is at least 0.5. A question graded D earns 0.25
    and is not counted; when every other question earns 1, the correct count
    is N - 1 while (with fewer than 2^32 questions, the bound of an array)
    the earned points are N - 0.75 and the score is (N - 0.75) / N x 100 as
    binary64 computes it, which is more than the percentage of the correct
    count, exact or computed the same way, and less than 100. *)
Theorem C1_free_text_correct_count (i : nat) (q : QuizQuestion) :
  qs !! i = Some q -> isMcOrOx (questionType q) = false ->
  let sub := finalResults toLowerCase qs answers grades in
  let g := nullable (grades !! i) in
  let n := inject_Z (Z.of_nat (length qs)) in
  correctAnswers sub = length (filter (fun c : bool => c = true) (correctness sub))
  /\ (correctness sub !! i = Some true
      <-> g = Some GradeA \/ g = Some GradeB \/ g = Some GradeC)
  /\ (correctness sub !! i = Some true <-> (1 # 2 <= grade_weight g)%Q)
  /\ (g = Some GradeD ->
      correctness sub !! i = Some false
      /\ earned_weight toLowerCase q (nullable (answers !! i)) g = (1 # 4)%Q
      /\ ((forall j q', j <> i -> qs !! j = Some q' ->
             (earned_weight toLowerCase q' (nullable (answers !! j))
                (nullable (grades !! j)) == 1)%Q) ->
          correctAnswers sub = (length qs - 1)%nat
          /\ (Z.of_nat (length qs) < 2 ^ 32 ->
              let c := inject_Z (Z.of_nat (correctAnswers sub)) in
              (totalEarnedPoints toLowerCase qs answers grades == n - (3 # 4))%Q
              /\ (score sub
                  == Binary64.fmul (Binary64.fdiv (n - (3 # 4)) n) 100)%Q
              /\ (c / n * 100 < score sub)%Q
              /\ (Binary64.fmul (Binary64.fdiv c n) 100 < score sub)%Q
              /\ (score sub < 100)%Q))).
Proof.
  intros Hq Ht sub g n.
  assert (correctness sub !! i
          = Some (match g with
                  | Some GradeA | Some GradeB | Some GradeC => true
                  | _ => false
                  end)) as Hflag.
  { unfold sub. rewrite (correctness_lookup i q Hq).
    by rewrite (callback_free_text i q Ht). }
  split; [reflexivity|]. split; [|split].
  - rewrite Hflag. destruct g as [[]|]; split; intros H;
      try discriminate; try tauto;
      destruct H as [H|[H|H]]; discriminate.
  - rewrite Hflag. unfold grade_weight.
    destruct g as [[]|]; split; intros H; try reflexivity; try discriminate;
      try lra; exfalso; revert H; unfold Qle; simpl; lia.
  - intros Hg. split; [by rewrite Hflag, Hg|].
    assert (earned_weight toLowerCase q (nullable (answers !! i)) g = (1 # 4)%Q)
      as Hw by (unfold earned_weight; by rewrite Ht, Hg).
    split; [exact Hw|]. intros Hothers.
    destruct (one_quarter
      (fun j q' => earned_weight toLowerCase q' (nullable (answers !! j))
                     (nullable (grades !! j)))
      (fun j q' => snd (correctnessCallback toLowerCase answers grades j q'))
      qs i q Hq) as [Hsum Hcount].
    { fold g. by rewrite Hw. }
    { rewrite (callback_free_text i q Ht). fold g. by rewrite Hg. }
    { intros j q' Hj Hq'. split; [by apply Hothers|].
      apply full_weight_counted. by apply Hothers. }
    assert (correctAnswers sub = (length qs - 1)%nat) as Hc.
    { unfold sub at 1. change (correctAnswers _) with
        (length (filter (fun c : bool => c = true)
           (correctness (finalResults toLowerCase qs answers grades)))).
      by rewrite correctness_imap. }
    assert (0 < length qs)%nat as Hpos by (apply lookup_lt_Some in Hq; lia).
    assert (1 <= n)%Q as Hn.
    { unfold n. change 1%Q with (inject_Z 1). rewrite <- Zle_Qle. lia. }
    split; [exact Hc|]. intros Hmax c.
    assert (totalEarnedPoints toLowerCase qs answers grades == n - (3 # 4))%Q
      as Ht4.
    { rewrite (totalEarnedPoints_Qsum Hmax).
      unfold earned_weights. rewrite Hsum. reflexivity. }
    assert (score sub == Binary64.fmul (Binary64.fdiv (n - (3 # 4)) n) 100)%Q
      as Hs.
    { unfold sub. rewrite score_totalEarnedPoints. by rewrite Ht4. }
    split; [exact Ht4|]. split; [exact Hs|].
    assert (c == n - 1)%Q as Hm.
    { unfold c, n. rewrite Hc, Nat2Z.inj_sub by lia. unfold Z.sub.
      rewrite inject_Z_plus. reflexivity. }
    pose proof (length_array Hmax) as Hn32. fold n in Hn32.
    destruct (percentage_step (n - 1) (n - (3 # 4)) n) as [Hlt Hexact];
      [lra | exact Hn32 | lra | lra | lra|].
    destruct (percentage_step (n - (3 # 4)) n n) as [Hfull _];
      [lra | exact Hn32 | lra | lra | lra|].
    rewrite (percentage_full n n ltac:(lra) (Qeq_refl n)) in Hfull.
    rewrite Hs, Hm. split; [exact Hexact|]. split; [exact Hlt | exact Hfull].
Qed.

End Scoring.

(** ** The session state machine *)

Section SessionFacts.

Import Quiz.

Variable toLowerCase : jsstring -> jsstring.
Variable qs : list QuizQuestion.

Lemma assign_length {A} (hole : A) (arr : list A) (i : nat) (x : A) :
  (i < length arr)%nat -> length (assign hole arr i x) = length arr.
Proof.
  intros H. unfold assign. rewrite decide_True by exact H. apply length_insert.
Qed.

Lemma wf_initial : qs <> [] -> wf qs (initial qs).
Proof.
  intros H. unfold wf, initial. simpl. rewrite !length_replicate.
  destruct qs; [done|]. simpl. repeat split; lia.
Qed.

Lemma wf_syncTempShortAnswer (st : Session) :
  wf qs st -> wf qs (syncTempShortAnswer qs st).
Proof.
  unfold syncTempShortAnswer. by destruct (qs !! currentQuestionIndex st).
Qed.

(** Every event keeps the index inside the question list and the parallel
    arrays at the length of the question list. *)
Lemma wf_dispatch (ev : Event) (st : Session) :
  wf qs st -> wf qs (dispatch toLowerCase qs ev st).1.
Proof.
  intros Hwf. pose proof Hwf as (Hi & Ha & Hc & Hg). unfold dispatch.
  destruct (showResults st || negb (hasQuestions qs)); [exact Hwf|].
  destruct (qs !! currentQuestionIndex st) as [q|]; [|exact Hwf].
  destruct ev as [k|value| |grade| | |]; simpl.
  - destruct (renderedOptions q !! k); [|exact Hwf].
    destruct (isAnswerChecked st) eqn:E; [exact Hwf|]. simpl.
    unfold handleAnswerSelect. rewrite E. apply wf_syncTempShortAnswer.
    unfold wf. simpl. rewrite assign_length by lia. tauto.
  - destruct (negb (isMcOrOx (questionType q)) && negb (isAnswerChecked st));
      [|exact Hwf]. simpl.
    unfold handleShortAnswerChange. by destruct (isAnswerChecked st).
  - destruct (negb (isAnswerChecked st) && negb (isCheckAnswerDisabled q st));
      [|exact Hwf]. simpl.
    unfold handleCheckAnswer. apply wf_syncTempShortAnswer. unfold wf. simpl.
    rewrite assign_length by lia.
    destruct (negb (isMcOrOx (questionType q)));
      rewrite ?assign_length by lia; tauto.
  - destruct (negb (isMcOrOx (questionType q)) && isAnswerChecked st);
      [|exact Hwf]. simpl.
    unfold wf. simpl. rewrite assign_length by lia. tauto.
  - destruct (bool_decide (currentQuestionIndex st = 0%nat)); [exact Hwf|].
    simpl. unfold handlePrev.
    destruct (bool_decide (0 < currentQuestionIndex st)%nat); [|exact Hwf].
    apply wf_syncTempShortAnswer. unfold wf. simpl. repeat split; lia.
  - destruct (isAnswerChecked st && negb (isNextButtonDisabled q st));
      [|exact Hwf].
    unfold handleNext.
    destruct (Z.ltb_spec (Z.of_nat (currentQuestionIndex st))
                (Z.of_nat (length qs) - 1)); simpl.
    + apply wf_syncTempShortAnswer. unfold wf. simpl. repeat split; lia.
    + exact Hwf.
  - exact Hwf.
Qed.

Lemma wf_run (evs : list Event) (st : Session) :
  wf qs st -> wf qs (run toLowerCase qs evs st).1.
Proof.
  revert st. induction evs as [|ev evs IH]; intros st Hwf; [exact Hwf|].
  simpl. pose proof (wf_dispatch ev st Hwf) as H1.
  destruct (dispatch toLowerCase qs ev st) as [st1 sub]. simpl in H1.
  specialize (IH st1 H1).
  by destruct (run toLowerCase qs evs st1) as [st2 subs].
Qed.

(** [handleNext] always shows: it moves the index or submits. *)
Lemma handleNext_acts (st : Session) : handleNext toLowerCase qs st <> (st, None).
Proof.
  unfold handleNext.
  destruct (Z.of_nat (currentQuestionIndex st) <? Z.of_nat (length qs) - 1).
  - intros [= H]. apply (f_equal currentQuestionIndex) in H.
    unfold goTo, syncTempShortAnswer in H.
    destruct (qs !! _) in H; simpl in H; lia.
  - intros [= H].
Qed.

(** C8. On a well-formed session the "next" transition runs only when the
    current question is checked and, for a free-text question, a grade is
    selected; it then is [handleNext]. On a checked free-text question
    without a selected grade the click is rejected: the state is unchanged
    and nothing is submitted. *)
Theorem C8_advance_guard (st : Session) (q : QuizQuestion) :
  wf qs st -> qs !! currentQuestionIndex st = Some q ->
  let grade := shortAnswerGrades st !! currentQuestionIndex st in
  (dispatch toLowerCase qs ClickNext st <> (st, None) ->
   isAnswerChecked st = true
   /\ (isMcOrOx (questionType q) = false -> exists g, grade = Some (Some g)))
  /\ (isAnswerChecked st = true -> isMcOrOx (questionType q) = false ->
      nullable grade = None ->
      dispatch toLowerCase qs ClickNext st = (st, None))
  /\ (showResults st = false -> isAnswerChecked st = true ->
      (isMcOrOx (questionType q) = true \/ exists g, grade = Some (Some g)) ->
      dispatch toLowerCase qs ClickNext st = handleNext toLowerCase qs st).
Proof.
  intros (Hi & _ & _ & Hg) Hq grade.
  assert (exists cell, grade = Some cell) as [cell Hcell].
  { unfold grade. apply lookup_lt_is_Some. lia. }
  assert (hasQuestions qs = true) as Hhas.
  { unfold hasQuestions. apply bool_decide_eq_true_2. lia. }
  unfold dispatch. rewrite Hq, Hhas. unfold isNextButtonDisabled.
  fold grade. rewrite Hcell.
  replace (showResults st || negb true) with (showResults st)
    by (by destruct (showResults st)).
  split; [|split].
  - destruct (showResults st); [done|].
    destruct (isAnswerChecked st); [|done]. intros H.
    split; [reflexivity|]. intros Ht. rewrite Ht in H.
    destruct cell as [g|]; [by exists g|].
    rewrite bool_decide_eq_true_2 in H by reflexivity. simpl in H. done.
  - intros Hc Ht Hn. simpl in Hn. subst cell.
    rewrite Hc, Ht. simpl. by destruct (showResults st).
  - intros Hs Hc Hok. rewrite Hs, Hc. simpl.
    destruct Hok as [Ht|[g Hgr]].
    + by rewrite Ht.
    + injection Hgr as ->.
      by rewrite andb_false_r.
Qed.

End SessionFacts.

(** ** The study history *)

Section HistoryFacts.

Import History.

Lemma replay_snoc (ops : list Operation) (op : Operation) (h : list QuizResult) :
  replay (ops ++ [op]) h = apply op (replay ops h).
Proof. unfold replay. by rewrite foldl_app. Qed.

(** C9. Completing a session appends exactly one result at the end of the
    history and leaves the existing entries in place; a confirmed deletion
    keeps, in order, exactly the entries whose id differs from the given id
    (a declined one keeps everything); and whatever the sequence of
    operations, every stored result is a result of the initial history or
    the result appended by one of the submissions, unchanged. *)
Theorem C9_history_append_only_delete_by_id (h : list QuizResult) :
  (forall standard subjectName questions now_id now_date sub,
     let r := newResult standard subjectName questions now_id now_date sub in
     let h' := handleQuizSubmit standard subjectName questions now_id now_date sub h in
     h' = h ++ [r] /\ length h' = S (length h) /\ last h' = Some r
     /\ forall i x, h !! i = Some x -> h' !! i = Some x)
  /\ (forall item_id,
        let h' := handleDeleteHistoryItem item_id true h in
        h' `sublist_of` h
        /\ (forall x, x ∈ h' <-> x ∈ h /\ id x <> item_id)
        /\ (length h' + length (filter (fun x => id x = item_id) h))%nat = length h
        /\ handleDeleteHistoryItem item_id false h = h)
  /\ (forall ops x, x ∈ replay ops h ->
        x ∈ h \/
        exists standard subjectName questions now_id now_date sub,
          Submit standard subjectName questions now_id now_date sub ∈ ops
          /\ x = newResult standard subjectName questions now_id now_date sub).
Proof.
  split; [|split].
  - intros. unfold h', handleQuizSubmit. fold r. split; [reflexivity|].
    split; [rewrite length_app; simpl; lia|].
    split; [apply last_snoc|].
    intros i x Hx. by apply lookup_app_l_Some.
  - intros item_id h'. unfold h', handleDeleteHistoryItem.
    split; [apply sublist_filter|]. split; [|split; [|reflexivity]].
    + intros x. rewrite list_elem_of_filter. tauto.
    + clear h'. induction h as [|x l IH]; [reflexivity|].
      destruct (decide (id x = item_id)) as [E|E].
      * rewrite filter_cons_False by tauto. rewrite filter_cons_True by exact E.
        simpl. lia.
      * rewrite filter_cons_True by exact E. rewrite filter_cons_False by exact E.
        simpl. lia.
  - intros ops. induction ops as [|op ops IH] using rev_ind; intros x Hx.
    + by left.
    + rewrite replay_snoc in Hx. destruct op as [st sn qz ni nd sub|item_id c].
      * simpl in Hx. unfold handleQuizSubmit in Hx.
        apply elem_of_app in Hx as [Hx|Hx].
        -- destruct (IH x Hx) as [H|(s1 & s2 & s3 & s4 & s5 & s6 & Hin & ->)];
             [by left|].
           right. exists s1, s2, s3, s4, s5, s6. split; [|reflexivity].
           apply elem_of_app. by left.
        -- apply list_elem_of_singleton in Hx. subst x.
           right. exists st, sn, qz, ni, nd, sub. split; [|reflexivity].
           apply elem_of_app. right. by apply list_elem_of_singleton.
      * assert (x ∈ replay ops h) as Hx'.
        { simpl in Hx. unfold handleDeleteHistoryItem in Hx. destruct c; [|exact Hx].
          by apply list_elem_of_filter in Hx as [_ Hx]. }
        destruct (IH x Hx') as [H|(s1 & s2 & s3 & s4 & s5 & s6 & Hin & ->)];
          [by left|].
        right. exists s1, s2, s3, s4, s5, s6. split; [|reflexivity].
        apply elem_of_app. by left.
Qed.

End HistoryFacts.

(** ** The claims on the example sessions *)

Section Examples.

Import Quiz Example.

Example scenario_run :
  let '(st, subs) := run asciiLower scenario scenario_events (initial scenario) in
  showResults st = true
  /\ userAnswers st = scenario_answers
  /\ shortAnswerGrades st = scenario_grades
  /\ subs = [finalResults asciiLower scenario scenario_answers scenario_grades].
Proof. vm_compute. repeat split; reflexivity. Qed.

Example checked_ungraded_reached :
  (run asciiLower [q_short]
     [ChangeShortAnswer (str "respiration"); ClickCheckAnswer]
     (initial [q_short])).1 = checked_ungraded.
Proof. vm_compute. reflexivity. Qed.

(** C1, as stated, fails on grade C: its weight 0.5 is below 0.75, and the
    question is counted correct. *)
Lemma C1_grade_C_counterexample :
  let sub := finalResults asciiLower [q_short] [Some (str "respiration")]
               [Some GradeC] in
  correctness sub !! 0%nat = Some true
  /\ correctAnswers sub = 1%nat
  /\ grade_weight (Some GradeC) = (1 # 2)%Q
  /\ ~ (3 # 4 <= grade_weight (Some GradeC))%Q.
Proof.
  repeat split; try (vm_compute; reflexivity).
  vm_compute. intros H. by apply H.
Qed.

Lemma C1_free_text_correct_count_witness :
  let sub := finalResults asciiLower graded_D graded_D_answers graded_D_grades in
  graded_D !! 1%nat = Some q_short
  /\ correctness sub = [true; false]
  /\ correctAnswers sub = 1%nat
  /\ (totalEarnedPoints asciiLower graded_D graded_D_answers graded_D_grades
      == 5 # 4)%Q
  /\ (score sub == 125 # 2)%Q
  /\ (50 < score sub)%Q /\ (score sub < 100)%Q.
Proof.
  intros sub.
  destruct (C1_free_text_correct_count asciiLower graded_D graded_D_answers
              graded_D_grades 1%nat q_short eq_refl eq_refl)
    as (_ & _ & _ & HD).
  destruct (HD eq_refl) as (_ & _ & Hrest).
  destruct Hrest as (Hc & Hgap).
  { intros j q' Hj Hq'. destruct j as [|[|j]]; [|done|discriminate].
    injection Hq' as <-. vm_compute. reflexivity. }
  destruct Hgap as (Ht & _ & Hexact & _ & Hfull); [vm_compute; reflexivity|].
  split; [reflexivity|]. split; [vm_compute; reflexivity|].
  split; [exact Hc|]. split; [exact Ht|].
  split; [vm_compute; reflexivity|]. split; [|exact Hfull].
  eapply Qle_lt_trans; [|exact Hexact]. vm_compute. discriminate.
Defined.

(** One correct answer out of three: the quotient and the product are
    rounded, and the score is the number that prints as 33.33333333333333,
    not 100/3. *)
Example score_one_of_three :
  let sub := finalResults asciiLower [q_circled; q_text; q_short]
               [Some [0x2461; 0x35]%N; None; None] [None; None; None] in
  correctAnswers sub = 1%nat
  /\ (score sub == 4691249611844266 # 140737488355328)%Q
  /\ (score sub == Binary64.round64 (3333333333333333 # 100000000000000))%Q
  /\ ~ (score sub == 100 # 3)%Q.
Proof.
  vm_compute. repeat split; try reflexivity. discriminate.
Qed.

Lemma C2_score_linear_and_bounded_witness :
  let sub := finalResults asciiLower scenario scenario_answers scenario_grades in
  scenario <> []
  /\ (score sub == 275 # 4)%Q
  /\ correctAnswers sub = 3%nat
  /\ (0 <= score sub)%Q /\ (score sub <= 100)%Q
  /\ ~ (score sub == 100)%Q.
Proof.
  intros sub.
  destruct (C2_score_linear_and_bounded asciiLower scenario scenario_answers
              scenario_grades)
    as (_ & _ & _ & _ & _ & H0 & H1 & Hiff);
    [discriminate | vm_compute; reflexivity|].
  split; [discriminate|]. split; [vm_compute; reflexivity|].
  split; [vm_compute; reflexivity|]. split; [exact H0|]. split; [exact H1|].
  intros E. apply Hiff in E. apply Forall_inv_tail, Forall_inv_tail, Forall_inv in E.
  vm_compute in E. discriminate E.
Defined.

Lemma C8_advance_guard_witness :
  wf [q_short] checked_ungraded
  /\ isAnswerChecked checked_ungraded = true
  /\ shortAnswerGrades checked_ungraded !! 0%nat = Some None
  /\ dispatch asciiLower [q_short] ClickNext checked_ungraded
     = (checked_ungraded, None).
Proof.
  assert (wf [q_short] checked_ungraded) as Hwf.
  { unfold wf. simpl. repeat split; lia. }
  split; [exact Hwf|]. split; [reflexivity|]. split; [reflexivity|].
  destruct (C8_advance_guard asciiLower [q_short] checked_ungraded q_short Hwf
              eq_refl) as (_ & Hreject & _).
  apply Hreject; reflexivity.
Defined.

(** On the same session, once a grade is chosen the click submits. *)
Example graded_then_next :
  let '(st, subs) :=
    run asciiLower [q_short] [ClickGrade GradeD; ClickNext] checked_ungraded in
  showResults st = true
  /\ subs = [finalResults asciiLower [q_short] (userAnswers checked_ungraded)
               [Some GradeD]].
Proof. vm_compute. repeat split; reflexivity. Qed.

End Examples.

(** * The rest of the application *)

(** ** More about the quiz session *)

Section SessionRuns.

Import Quiz Progress.

Variable toLowerCase : jsstring -> jsstring.
Variable qs : list QuizQuestion.

Lemma assign_lookup_eq {A} (hole : A) (arr : list A) (i : nat) (x : A) :
  (i < length arr)%nat -> assign hole arr i x !! i = Some x.
Proof.
  intros H. unfold assign. rewrite decide_True by exact H.
  by apply list_lookup_insert_eq.
Qed.

Lemma assign_lookup_ne {A} (hole : A) (arr : list A) (i j : nat) (x : A) :
  (i < length arr)%nat -> i <> j -> assign hole arr i x !! j = arr !! j.
Proof.
  intros H Hne. unfold assign. rewrite decide_True by exact H.
  by apply list_lookup_insert_ne.
Qed.

(** The effect on the text area leaves the recorded data alone. *)
Lemma sync_index (st : Session) :
  currentQuestionIndex (syncTempShortAnswer qs st) = currentQuestionIndex st.
Proof. unfold syncTempShortAnswer. by destruct (qs !! currentQuestionIndex st). Qed.

Lemma sync_userAnswers (st : Session) :
  userAnswers (syncTempShortAnswer qs st) = userAnswers st.
Proof. unfold syncTempShortAnswer. by destruct (qs !! currentQuestionIndex st). Qed.

Lemma sync_checkedStates (st : Session) :
  checkedStates (syncTempShortAnswer qs st) = checkedStates st.
Proof. unfold syncTempShortAnswer. by destruct (qs !! currentQuestionIndex st). Qed.

Lemma sync_shortAnswerGrades (st : Session) :
  shortAnswerGrades (syncTempShortAnswer qs st) = shortAnswerGrades st.
Proof. unfold syncTempShortAnswer. by destruct (qs !! currentQuestionIndex st). Qed.

Lemma sync_showResults (st : Session) :
  showResults (syncTempShortAnswer qs st) = showResults st.
Proof. unfold syncTempShortAnswer. by destruct (qs !! currentQuestionIndex st). Qed.



Lemma isAnswerChecked_lookup (st : Session) :
  isAnswerChecked st = true <->
  checkedStates st !! currentQuestionIndex st = Some true.
Proof.
  unfold isAnswerChecked.
  destruct (checkedStates st !! currentQuestionIndex st) as [[]|]; simpl;
    split; congruence.
Qed.

(** One event on a checked question: its flag and its answer stay. *)
Lemma dispatch_frozen (ev : Event) (st : Session) (i : nat) :
  wf qs st -> checkedStates st !! i = Some true ->
  checkedStates (dispatch toLowerCase qs ev st).1 !! i = Some true
  /\ userAnswers (dispatch toLowerCase qs ev st).1 !! i = userAnswers st !! i.
Proof.
  intros (Hi & Ha & Hc & Hg) Hchk. unfold dispatch.
  destruct (showResults st || negb (hasQuestions qs)); [done|].
  destruct (qs !! currentQuestionIndex st) as [q|]; [|done].
  assert (isAnswerChecked st = false -> currentQuestionIndex st <> i) as Hne.
  { intros Hf Heq. rewrite <- Heq in Hchk.
    apply isAnswerChecked_lookup in Hchk. congruence. }
  destruct ev as [k|value| |grade| | |]; simpl.
  - destruct (renderedOptions q !! k) as [o|]; [|done].
    destruct (isAnswerChecked st) eqn:E; [done|]. simpl.
    unfold handleAnswerSelect. rewrite E.
    rewrite sync_checkedStates, sync_userAnswers. simpl.
    split; [done|]. apply assign_lookup_ne; [lia | by apply Hne].
  - destruct (negb (isMcOrOx (questionType q)) && negb (isAnswerChecked st));
      [|done]. simpl.
    unfold handleShortAnswerChange. by destruct (isAnswerChecked st).
  - destruct (isAnswerChecked st) eqn:E; [done|].
    destruct (negb false && negb (isCheckAnswerDisabled q st)); [|done]. simpl.
    unfold handleCheckAnswer.
    rewrite sync_checkedStates, sync_userAnswers. simpl.
    split.
    + rewrite assign_lookup_ne; [done | lia | by apply Hne].
    + destruct (negb (isMcOrOx (questionType q))); [|done].
      apply assign_lookup_ne; [lia | by apply Hne].
  - by destruct (negb (isMcOrOx (questionType q)) && isAnswerChecked st).
  - destruct (bool_decide (currentQuestionIndex st = 0%nat)); [done|].
    simpl. unfold handlePrev.
    destruct (bool_decide (0 < currentQuestionIndex st)%nat); [|done].
    unfold goTo. by rewrite sync_checkedStates, sync_userAnswers.
  - destruct (isAnswerChecked st && negb (isNextButtonDisabled q st)); [|done].
    unfold handleNext.
    destruct (Z.of_nat (currentQuestionIndex st) <? Z.of_nat (length qs) - 1);
      simpl; [|done].
    unfold goTo. by rewrite sync_checkedStates, sync_userAnswers.
  - done.
Qed.

(** X1. Whatever the user does from the start of a quiz with at least one
    question, the current index stays a question index and the arrays of
    answers, checked flags and grades keep one cell per question. *)
Theorem session_stays_well_formed (evs : list Event) :
  qs <> [] -> wf qs (run toLowerCase qs evs (initial qs)).1.
Proof. intros H. by apply wf_run, wf_initial. Qed.

(** X2. Once a question is checked, no sequence of events un-checks it or
    changes its recorded answer. *)
Theorem checked_answer_is_frozen (evs : list Event) (st : Session) (i : nat) :
  wf qs st -> checkedStates st !! i = Some true ->
  checkedStates (run toLowerCase qs evs st).1 !! i = Some true
  /\ userAnswers (run toLowerCase qs evs st).1 !! i = userAnswers st !! i.
Proof.
  revert st. induction evs as [|ev evs IH]; intros st Hwf Hchk; [done|].
  simpl. pose proof (wf_dispatch toLowerCase qs ev st Hwf) as Hwf1.
  destruct (dispatch_frozen ev st i Hwf Hchk) as [Hc1 Ha1].
  destruct (dispatch toLowerCase qs ev st) as [st1 sub]. simpl in *.
  destruct (IH st1 Hwf1 Hc1) as [Hc2 Ha2].
  destruct (run toLowerCase qs evs st1) as [st2 subs]. simpl in *.
  split; [exact Hc2 | congruence].
Qed.

(** [progress] and [complete] read the index, the answers, the checked
    flags and the grades only. *)
Lemma progress_ext (st st' : Session) :
  currentQuestionIndex st' = currentQuestionIndex st ->
  userAnswers st' = userAnswers st ->
  checkedStates st' = checkedStates st ->
  shortAnswerGrades st' = shortAnswerGrades st ->
  progress qs st -> progress qs st'.
Proof.
  unfold progress, wf, answered, graded. intros -> -> -> ->. tauto.
Qed.

Lemma progress_sync (st : Session) :
  progress qs st -> progress qs (syncTempShortAnswer qs st).
Proof.
  apply progress_ext;
    [apply sync_index | apply sync_userAnswers | apply sync_checkedStates
    | apply sync_shortAnswerGrades].
Qed.

Lemma dispatch_absorbing (ev : Event) (st : Session) :
  showResults st = true -> dispatch toLowerCase qs ev st = (st, None).
Proof. intros H. unfold dispatch. by rewrite H. Qed.

(** A cell inside an array of nullable values that is not [null] holds a
    value. *)
Lemma cell_not_null {A} (arr : list (option A)) (i : nat) :
  (i < length arr)%nat -> arr !! i <> Some None ->
  exists a, arr !! i = Some (Some a).
Proof.
  intros Hlt Hne. destruct (lookup_lt_is_Some_2 arr i Hlt) as [[a|] Hc];
    [by exists a | congruence].
Qed.

(** When the "next" button is live on a free-text question, the question
    has a grade. *)
Lemma next_enabled_graded (st : Session) (q : QuizQuestion) :
  wf qs st -> isNextButtonDisabled q st = false ->
  isAnswerChecked st = true -> isMcOrOx (questionType q) = false ->
  graded st (currentQuestionIndex st).
Proof.
  intros (Hi & _ & _ & Hg) Hd Hc Ht. unfold isNextButtonDisabled in Hd.
  rewrite Hc, Ht in Hd. simpl in Hd. apply bool_decide_eq_false in Hd.
  apply cell_not_null; [lia | exact Hd].
Qed.

(** One event keeps [progress]; it submits at most once, the results of a
    complete session, and then shows the results. *)
Lemma progress_step (ev : Event) (st : Session) :
  progress qs st -> showResults st = false ->
  let r := dispatch toLowerCase qs ev st in
  progress qs r.1
  /\ (r.2 = None /\ showResults r.1 = false
      \/ r.2 = Some (finalResults toLowerCase qs (userAnswers r.1)
                       (shortAnswerGrades r.1))
         /\ showResults r.1 = true /\ complete qs r.1).
Proof.
  intros Hp Hs. pose proof Hp as (Hwf & HA & HB).
  pose proof Hwf as (Hi & Ha & Hc & Hg). cbv zeta. unfold dispatch.
  assert (hasQuestions qs = true) as ->
    by (apply bool_decide_eq_true_2; lia).
  rewrite Hs. simpl orb. cbv iota.
  destruct (qs !! currentQuestionIndex st) as [q|] eqn:Hq; [|by split; [|left]].
  destruct ev as [k|value| |grade| | |]; cbv beta iota.
  - (* an option button *)
    destruct (renderedOptions q !! k) as [o|]; [|by split; [|left]].
    destruct (isAnswerChecked st) eqn:E; [by split; [|left]|].
    cbn [fst snd]. unfold handleAnswerSelect. rewrite E.
    split; [|left; by rewrite sync_showResults].
    apply progress_sync. unfold progress, wf, answered, graded. simpl.
    rewrite assign_length by lia. split; [tauto|]. split; [|exact HB].
    intros j Hj. destruct (decide (j = currentQuestionIndex st)) as [->|Hne].
    + rewrite assign_lookup_eq by lia. by eexists.
    + rewrite assign_lookup_ne by (lia || congruence). by apply HA.
  - (* the text area *)
    destruct (negb (isMcOrOx (questionType q)) && negb (isAnswerChecked st));
      [|by split; [|left]].
    cbn [fst snd]. unfold handleShortAnswerChange.
    destruct (isAnswerChecked st); [by split; [|left]|].
    split; [|by left]. revert Hp. by apply progress_ext.
  - (* "check answer" *)
    destruct (isAnswerChecked st) eqn:E; [by split; [|left]|].
    destruct (isCheckAnswerDisabled q st) eqn:Ed; [by split; [|left]|].
    cbn [negb andb fst snd]. unfold handleCheckAnswer.
    split; [|left; by rewrite sync_showResults].
    apply progress_sync. unfold progress, wf, answered, graded. simpl.
    rewrite assign_length by lia.
    assert (length (if negb (isMcOrOx (questionType q))
                    then assign None (userAnswers st) (currentQuestionIndex st)
                           (Some (tempShortAnswer st))
                    else userAnswers st) = length qs) as Hlen.
    { destruct (negb _); [by rewrite assign_length by lia | done]. }
    split; [tauto|]. split.
    + intros j Hj. destruct (decide (j = currentQuestionIndex st)) as [->|Hne].
      * destruct (isMcOrOx (questionType q)) eqn:Ht; simpl.
        -- unfold isCheckAnswerDisabled, hasAnswer in Ed. rewrite Ht in Ed.
           apply negb_false_iff, negb_true_iff, bool_decide_eq_false in Ed.
           apply cell_not_null; [lia | exact Ed].
        -- rewrite assign_lookup_eq by lia. by eexists.
      * rewrite assign_lookup_ne in Hj by (lia || congruence).
        destruct (negb (isMcOrOx (questionType q)));
          [rewrite assign_lookup_ne by (lia || congruence)|]; by apply HA.
    + intros j q' Hj Hq'.
      rewrite assign_lookup_ne by lia. by apply HB.
  - (* a grade button *)
    destruct (negb (isMcOrOx (questionType q)) && isAnswerChecked st);
      [|by split; [|left]].
    cbn [fst snd]. split; [|by left].
    unfold handleGradeSelection, progress, wf, answered, graded. simpl.
    rewrite assign_length by lia. split; [tauto|]. split; [exact HA|].
    intros j q' Hj Hq'. rewrite assign_lookup_ne by lia. by apply HB.
  - (* "previous" *)
    destruct (bool_decide (currentQuestionIndex st = 0%nat)); [by split; [|left]|].
    cbn [fst snd]. unfold handlePrev.
    destruct (bool_decide (0 < currentQuestionIndex st)%nat) eqn:E;
      [|by split; [|left]].
    apply bool_decide_eq_true in E. unfold goTo.
    split; [|left; by rewrite sync_showResults].
    apply progress_sync. unfold progress, wf, answered, graded. simpl.
    split; [repeat split; (assumption || lia)|]. split; [exact HA|].
    intros j q' Hj Hq'. apply HB; [lia | assumption].
  - (* "next" *)
    destruct (isAnswerChecked st) eqn:E; [|by split; [|left]].
    destruct (isNextButtonDisabled q st) eqn:Ed; [by split; [|left]|].
    cbn [negb andb]. unfold handleNext.
    assert (forall j q', (j <= currentQuestionIndex st)%nat ->
              qs !! j = Some q' ->
              checkedStates st !! j = Some true
              /\ (isMcOrOx (questionType q') = false -> graded st j)) as HB'.
    { intros j q' Hj Hq'.
      destruct (decide (j = currentQuestionIndex st)) as [->|Hne].
      - split; [by apply isAnswerChecked_lookup|].
        intros Ht. assert (q' = q) as -> by congruence.
        by apply (next_enabled_graded st q).
      - apply HB; [lia | assumption]. }
    destruct (Z.ltb_spec (Z.of_nat (currentQuestionIndex st))
                (Z.of_nat (length qs) - 1)) as [Hlt|Hge]; cbn [fst snd].
    + unfold goTo. split; [|left; by rewrite sync_showResults].
      apply progress_sync. unfold progress, wf. simpl.
      split; [repeat split; (assumption || lia)|]. split; [exact HA|].
      intros j q' Hj Hq'. apply HB'; [lia | assumption].
    + split; [revert Hp; by apply progress_ext|].
      right. split; [reflexivity|]. split; [reflexivity|].
      intros i q' Hq'. pose proof (lookup_lt_Some _ _ _ Hq') as Hlen.
      destruct (HB' i q' ltac:(lia) Hq') as [Hchk Hgr].
      split; [exact Hchk|]. split; [by apply HA | exact Hgr].
  - (* the translation toggle *)
    cbn [fst snd]. split; [|by left]. revert Hp. by apply progress_ext.
Qed.

Lemma progress_initial : qs <> [] -> progress qs (initial qs).
Proof.
  intros H. split; [by apply wf_initial|]. split.
  - intros j Hj. simpl in Hj. apply lookup_replicate in Hj as [Hj _].
    discriminate.
  - intros j q Hj. simpl in Hj. lia.
Qed.

Lemma run_shown (evs : list Event) (st : Session) :
  showResults st = true -> run toLowerCase qs evs st = (st, []).
Proof.
  intros H. induction evs as [|ev evs IH]; [reflexivity|].
  simpl. rewrite (dispatch_absorbing ev st H), IH. reflexivity.
Qed.

Lemma run_progress (evs : list Event) (st : Session) :
  progress qs st -> showResults st = false ->
  let r := run toLowerCase qs evs st in
  r.2 = [] /\ showResults r.1 = false
  \/ r.2 = [finalResults toLowerCase qs (userAnswers r.1) (shortAnswerGrades r.1)]
     /\ showResults r.1 = true /\ complete qs r.1.
Proof.
  revert st. induction evs as [|ev evs IH]; intros st Hp Hs; [by left|].
  cbv zeta. simpl.
  destruct (progress_step ev st Hp Hs) as [Hp1 Hstep].
  destruct (dispatch toLowerCase qs ev st) as [st1 sub]. simpl in Hp1, Hstep.
  destruct Hstep as [[-> Hs1] | (-> & Hs1 & Hc1)].
  - specialize (IH st1 Hp1 Hs1). cbv zeta in IH.
    destruct (run toLowerCase qs evs st1) as [st2 subs]. exact IH.
  - rewrite (run_shown evs st1 Hs1). simpl. right.
    split; [reflexivity | split; assumption].
Qed.

(** X3. From the start of a quiz, any sequence of events makes at most one
    submission, and a submission is made only for a complete session: every
    question is checked and has a recorded answer and every free-text
    question has a selected grade. Until then the results are not shown. *)
Theorem submission_only_when_complete (evs : list Event) :
  qs <> [] ->
  let r := run toLowerCase qs evs (initial qs) in
  r.2 = [] /\ showResults r.1 = false
  \/ r.2 = [finalResults toLowerCase qs (userAnswers r.1) (shortAnswerGrades r.1)]
     /\ showResults r.1 = true /\ complete qs r.1.
Proof.
  intros H. apply run_progress; [by apply progress_initial | reflexivity].
Qed.


End SessionRuns.


Lemma session_stays_well_formed_witness :
  Example.scenario <> []
  /\ Quiz.wf Example.scenario
       (Quiz.run asciiLower Example.scenario Example.scenario_events
          (Quiz.initial Example.scenario)).1.
Proof.
  split; [discriminate|].
  apply (session_stays_well_formed asciiLower Example.scenario
           Example.scenario_events).
  discriminate.
Defined.

Lemma checked_answer_is_frozen_witness :
  let evs := [Quiz.ChangeShortAnswer (str "osmosis"); Quiz.ClickCheckAnswer;
              Quiz.ClickPrev] in
  let st := (Quiz.run asciiLower [Example.q_short] evs Example.checked_ungraded).1 in
  Quiz.checkedStates st !! 0%nat = Some true
  /\ Quiz.userAnswers st !! 0%nat
     = Quiz.userAnswers Example.checked_ungraded !! 0%nat.
Proof.
  apply (checked_answer_is_frozen asciiLower [Example.q_short]
           [Quiz.ChangeShortAnswer (str "osmosis"); Quiz.ClickCheckAnswer;
            Quiz.ClickPrev] Example.checked_ungraded 0).
  - unfold Quiz.wf. vm_compute. repeat split; lia.
  - reflexivity.
Defined.

Lemma submission_only_when_complete_witness :
  let r := Quiz.run asciiLower Example.scenario Example.scenario_events
             (Quiz.initial Example.scenario) in
  r.2 = [] /\ Quiz.showResults r.1 = false
  \/ r.2 = [Quiz.finalResults asciiLower Example.scenario (Quiz.userAnswers r.1)
              (Quiz.shortAnswerGrades r.1)]
     /\ Quiz.showResults r.1 = true /\ Progress.complete Example.scenario r.1.
Proof.
  apply (submission_only_when_complete asciiLower Example.scenario
           Example.scenario_events).
  discriminate.
Defined.


(** ** What the learner sees against what is scored *)

Section Display.

Import Quiz QuizUI.

Variable toLowerCase : jsstring -> jsstring.

(** In a list without repetition, [findIndex] on an element finds its
    own index. *)
Lemma list_find_NoDup (opts : list jsstring) (k : nat) (o : jsstring) :
  NoDup opts -> opts !! k = Some o ->
  list_find (fun opt => Some opt = Some o) opts = Some (k, o).
Proof.
  intros Hnd Hk. apply list_find_Some. split; [exact Hk|]. split; [reflexivity|].
  intros j y Hj Hlt [= ->]. assert (j = k) by (by eapply NoDup_lookup). lia.
Qed.

(** X5. For a checked objective question whose option buttons are
    pairwise different and whose recorded answer is the button at position
    [k], the button gets the "correct" look and label when the evaluator
    matches it at position [k] and the "wrong choice" look otherwise. When
    the question carries the list of its buttons, the scoring pass makes
    the same evaluation, so the flag it computes agrees with the look. An
    OX question without such a list is rendered with the buttons "O" and
    "X", and the scoring pass then evaluates at the position [-1]: the flag
    and the look can differ. *)
Theorem highlight_against_score (qs : list QuizQuestion) (st : Session)
    (q : QuizQuestion) (k : nat) (o : jsstring) :
  qs !! currentQuestionIndex st = Some q ->
  isMcOrOx (questionType q) = true ->
  NoDup (renderedOptions q) -> renderedOptions q !! k = Some o ->
  userAnswers st !! currentQuestionIndex st = Some (Some o) ->
  isAnswerChecked st = true ->
  let flag :=
    correctness (finalResults toLowerCase qs (userAnswers st)
                   (shortAnswerGrades st)) !! currentQuestionIndex st in
  let shown := isAnswerMatch toLowerCase (Some o) (answer q) (Z.of_nat k) in
  getOptionClasses toLowerCase q st o k
  = (if shown then CorrectChecked else WrongChecked)
  /\ showCorrectLabel toLowerCase q st o k = shown
  /\ (default [] (options q) = renderedOptions q -> flag = Some shown)
  /\ (default [] (options q) <> renderedOptions q ->
      questionType q = ox
      /\ default [] (options q) = []
      /\ renderedOptions q = [str "O"; str "X"]
      /\ flag = Some (isAnswerMatch toLowerCase (Some o) (answer q) (-1))).
Proof.
  intros Hq Ht Hnd Hk Ha Hc flag shown.
  assert (flag = Some (evaluator_matches toLowerCase q (Some o))) as ->.
  { unfold flag. rewrite (correctness_lookup _ _ _ _ _ q Hq).
    rewrite (callback_objective _ _ _ _ q Ht). by rewrite Ha. }
  split; [|split; [|split]].
  - unfold getOptionClasses. rewrite Hc, Ha. fold shown.
    cbn [nullable default negb].
    rewrite bool_decide_eq_true_2 by reflexivity. by destruct shown.
  - unfold showCorrectLabel. rewrite Hc. reflexivity.
  - intros Hown. unfold evaluator_matches. rewrite Hown.
    by rewrite (list_find_NoDup _ k o Hnd Hk).
  - intros Hother.
    assert (questionType q = ox /\ default [] (options q) = []
            /\ renderedOptions q = [str "O"; str "X"]) as (Hox & Hnone & Hdefault).
    { revert Hother Ht. unfold renderedOptions.
      destruct (questionType q); try discriminate; [done|].
      destruct (options q) as [[|x l]|]; by simpl. }
    split; [exact Hox|]. split; [exact Hnone|]. split; [exact Hdefault|].
    unfold evaluator_matches. by rewrite Hnone.
Qed.

End Display.

Lemma highlight_against_score_witness :
  (let st := Walkthrough.first_checked in
   let o := [0x2461; 0x35]%N in
   QuizUI.getOptionClasses asciiLower Example.q_circled st o 1
   = QuizUI.CorrectChecked
   /\ Quiz.correctness
        (Quiz.finalResults asciiLower Example.graded_D (Quiz.userAnswers st)
           (Quiz.shortAnswerGrades st)) !! Quiz.currentQuestionIndex st
      = Some true)
  /\ (let st := Walkthrough.ox_zero_checked in
      QuizUI.getOptionClasses asciiLower Example.q_ox_zero st (str "O") 0
      = QuizUI.WrongChecked
      /\ Quiz.correctness
           (Quiz.finalResults asciiLower [Example.q_ox_zero] (Quiz.userAnswers st)
              (Quiz.shortAnswerGrades st)) !! Quiz.currentQuestionIndex st
         = Some true)
  /\ (let st := Walkthrough.ox_one_checked in
      QuizUI.getOptionClasses asciiLower Walkthrough.q_ox_one st (str "O") 0
      = QuizUI.CorrectChecked
      /\ Quiz.correctness
           (Quiz.finalResults asciiLower [Walkthrough.q_ox_one] (Quiz.userAnswers st)
              (Quiz.shortAnswerGrades st)) !! Quiz.currentQuestionIndex st
         = Some false).
Proof.
  split; [|split]; cbv zeta.
  - destruct (highlight_against_score asciiLower Example.graded_D
                Walkthrough.first_checked Example.q_circled 1 [0x2461; 0x35]%N)
      as (Hlook & _ & Hown & _);
      [reflexivity | reflexivity
       | apply (bool_decide_unpack _); vm_compute; exact I
       | reflexivity | reflexivity | reflexivity|].
    split; [exact Hlook | apply Hown; reflexivity].
  - destruct (highlight_against_score asciiLower [Example.q_ox_zero]
                Walkthrough.ox_zero_checked Example.q_ox_zero 0 (str "O"))
      as (Hlook & _ & _ & Hdefault);
      [reflexivity | reflexivity
       | apply (bool_decide_unpack _); vm_compute; exact I
       | reflexivity | reflexivity | reflexivity|].
    split; [exact Hlook|]. apply Hdefault. discriminate.
  - destruct (highlight_against_score asciiLower [Walkthrough.q_ox_one]
                Walkthrough.ox_one_checked Walkthrough.q_ox_one 0 (str "O"))
      as (Hlook & _ & _ & Hdefault);
      [reflexivity | reflexivity
       | apply (bool_decide_unpack _); vm_compute; exact I
       | reflexivity | reflexivity | reflexivity|].
    split; [exact Hlook|]. apply Hdefault. discriminate.
Defined.

(** ** The shape of a result *)

Section ResultShape.

Import Quiz.

Variable toLowerCase : jsstring -> jsstring.
Variable qs : list QuizQuestion.
Variables (answers : list (option jsstring)) (grades : list (option Grade)).

(** A sum of weights against the number of counted entries: a counted entry
    weighs between one half and one, another one at most a quarter, and all
    weights are quarters. *)
Lemma weights_against_count {A} (w : nat -> A -> Q) (c : nat -> A -> bool)
    (l : list A) :
  (forall j y, l !! j = Some y ->
     (exists k : Z, 0 <= k <= 4 /\ (4 * w j y == inject_Z k)%Q)
     /\ (c j y = true -> (1 # 2 <= w j y)%Q)
     /\ (c j y = false -> (w j y <= 1 # 4)%Q)) ->
  let n := length (filter (fun b : bool => b = true) (imap c l)) in
  (n <= length l)%nat
  /\ (inject_Z (Z.of_nat n) <= 2 * Qsum (imap w l))%Q
  /\ (4 * Qsum (imap w l)
      <= 3 * inject_Z (Z.of_nat n) + inject_Z (Z.of_nat (length l)))%Q
  /\ exists k : Z, 0 <= k <= 4 * Z.of_nat (length l)
                   /\ (4 * Qsum (imap w l) == inject_Z k)%Q.
Proof.
  revert w c. induction l as [|x l IH]; intros w c H; cbv zeta.
  - simpl. split; [lia|]. split; [by vm_compute|]. split; [by vm_compute|].
    exists 0. split; [lia | reflexivity].
  - destruct (H 0%nat x eq_refl) as ((k0 & Hk0 & Hw0) & Ht & Hf).
    destruct (IH (w ∘ S) (c ∘ S)) as (IHn & IHlo & IHhi & (k & Hk & Hsum)).
    { intros j y Hj. apply (H (S j) y Hj). }
    cbv zeta in IHn, IHlo, IHhi.
    rewrite inject_length_cons. simpl imap. simpl Qsum.
    assert (0 <= w 0%nat x /\ w 0%nat x <= 1)%Q as [Hlo0 Hhi0].
    { assert (inject_Z 0 <= inject_Z k0)%Q as H0 by (rewrite <- Zle_Qle; lia).
      assert (inject_Z k0 <= inject_Z 4)%Q as H4 by (rewrite <- Zle_Qle; lia).
      change (inject_Z 0) with 0%Q in H0. change (inject_Z 4) with 4%Q in H4.
      lra. }
    assert (exists k' : Z, 0 <= k' <= 4 * Z.of_nat (length (x :: l))
              /\ (4 * (w 0%nat x + Qsum (imap (w ∘ S) l)) == inject_Z k')%Q) as Hq.
    { exists (k0 + k). split; [simpl length; lia|].
      rewrite inject_Z_plus, <- Hw0, <- Hsum. ring. }
    destruct (c 0%nat x) eqn:Ec.
    + rewrite filter_cons_True by reflexivity. specialize (Ht eq_refl).
      rewrite (inject_length_cons true). simpl length.
      split; [lia|]. split; [lra|]. split; [lra | exact Hq].
    + rewrite filter_cons_False by discriminate.
      specialize (Hf eq_refl). simpl length.
      split; [lia|]. split; [lra|]. split; [lra | exact Hq].
Qed.

(** X6. A result carries one correctness flag per question and a correct
    count of at most the number of questions. With at least one question
    and fewer than 2^32 (the bound of an array), the additions of the
    weights are exact and the earned points and the correct count bound
    each other: every
    question counted correct earns at least half a point and every other
    question at most a quarter, so c / 2 <= points <= (3 c + N) / 4, and the
    points are a whole number of quarters. The score is points / N x 100 as
    binary64 computes it, within 2^-45 of the exact value, and so between
    50 c / N and (75 c + 25 N) / N up to 2^-45. *)
Theorem score_and_correct_count (Hne : qs <> [])
    (Hmax : Z.of_nat (length qs) < 2 ^ 32) :
  let sub := finalResults toLowerCase qs answers grades in
  let n := inject_Z (Z.of_nat (length qs)) in
  let c := inject_Z (Z.of_nat (correctAnswers sub)) in
  let points := totalEarnedPoints toLowerCase qs answers grades in
  totalQuestions sub = length qs
  /\ length (correctness sub) = length qs
  /\ (correctAnswers sub <= length qs)%nat
  /\ (points == Qsum (earned_weights toLowerCase qs answers grades))%Q
  /\ (c <= 2 * points)%Q
  /\ (4 * points <= 3 * c + n)%Q
  /\ (exists k : Z, 0 <= k <= 4 * Z.of_nat (length qs)
                    /\ (4 * points == inject_Z k)%Q)
  /\ score sub = Binary64.fmul (Binary64.fdiv points n) 100
  /\ (points / n * 100 - 2 ^ (-45) <= score sub)%Q
  /\ (score sub <= points / n * 100 + 2 ^ (-45))%Q
  /\ (50 * c / n - 2 ^ (-45) <= score sub)%Q
  /\ (score sub <= (75 * c + 25 * n) / n + 2 ^ (-45))%Q.
Proof.
  intros sub n c points.
  destruct (weights_against_count
    (fun j q' => earned_weight toLowerCase q' (nullable (answers !! j))
                   (nullable (grades !! j)))
    (fun j q' => snd (correctnessCallback toLowerCase answers grades j q')) qs)
    as (Hn & Hlo & Hhi & (k & Hk & Hsum)).
  { intros j q' Hj. unfold earned_weight.
    destruct (isMcOrOx (questionType q')) eqn:Ht.
    - rewrite (callback_objective _ _ _ _ q' Ht).
      destruct (evaluator_matches toLowerCase q' (nullable (answers !! j))).
      + split; [exists 4; split; [lia | by vm_compute]|].
        split; intros; [by vm_compute | discriminate].
      + split; [exists 0; split; [lia | by vm_compute]|].
        split; intros; [discriminate | by vm_compute].
    - rewrite (callback_free_text _ _ _ _ q' Ht). unfold grade_weight.
      destruct (nullable (grades !! j)) as [[]|].
      + split; [exists 4; split; [lia | by vm_compute]|].
        split; intros; [by vm_compute | discriminate].
      + split; [exists 3; split; [lia | by vm_compute]|].
        split; intros; [by vm_compute | discriminate].
      + split; [exists 2; split; [lia | by vm_compute]|].
        split; intros; [by vm_compute | discriminate].
      + split; [exists 1; split; [lia | by vm_compute]|].
        split; intros; [discriminate | by vm_compute].
      + split; [exists 0; split; [lia | by vm_compute]|].
        split; intros; [discriminate | by vm_compute].
      + split; [exists 0; split; [lia | by vm_compute]|].
        split; intros; [discriminate | by vm_compute]. }
  cbv zeta in Hn, Hlo, Hhi.
  assert (correctAnswers sub
          = length (filter (fun b : bool => b = true)
              (imap (fun j q' =>
                 snd (correctnessCallback toLowerCase answers grades j q')) qs)))
    as Hc.
  { unfold sub. rewrite <- correctness_imap. reflexivity. }
  rewrite <- Hc in Hn, Hlo, Hhi. fold c in Hlo, Hhi. fold n in Hhi.
  pose proof (length_positive qs Hne) as Hpos. fold n in Hpos.
  assert (points == Qsum (earned_weights toLowerCase qs answers grades))%Q as Hp.
  { unfold points. by apply totalEarnedPoints_Qsum. }
  fold (earned_weights toLowerCase qs answers grades) in Hlo, Hhi, Hsum.
  rewrite <- Hp in Hlo, Hhi, Hsum.
  assert (0 <= c)%Q as Hc0.
  { unfold c. change 0%Q with (inject_Z 0). rewrite <- Zle_Qle. lia. }
  assert (c <= n)%Q as Hcn by (unfold c, n; rewrite <- Zle_Qle; lia).
  destruct (percentage_near points n Hpos ltac:(lra) ltac:(lra)) as [Hn0 Hn1].
  assert (n * (points / n) == points)%Q as E1 by (apply Qmult_div_r; lra).
  assert (n * (50 * c / n) == 50 * c)%Q as E2 by (apply Qmult_div_r; lra).
  assert (n * ((75 * c + 25 * n) / n) == 75 * c + 25 * n)%Q as E3
    by (apply Qmult_div_r; lra).
  assert (50 * c / n <= points / n * 100)%Q as Hlow.
  { apply Qnot_lt_le. intros Hlt.
    assert (n * (points / n * 100) < n * (50 * c / n))%Q
      by (apply Qmult_lt_l; assumption). lra. }
  assert (points / n * 100 <= (75 * c + 25 * n) / n)%Q as Hhigh.
  { apply Qnot_lt_le. intros Hlt.
    assert (n * ((75 * c + 25 * n) / n) < n * (points / n * 100))%Q
      by (apply Qmult_lt_l; assumption). lra. }
  split; [reflexivity|]. split.
  { unfold sub. rewrite correctness_imap. apply length_imap. }
  split; [exact Hn|]. split; [exact Hp|]. split; [lra|]. split; [lra|].
  split; [by exists k|]. split; [reflexivity|].
  change (score sub) with (Binary64.fmul (Binary64.fdiv points n) 100).
  split; [exact Hn0|]. split; [exact Hn1|]. split; lra.
Qed.

End ResultShape.


Lemma score_and_correct_count_witness :
  let sub := Quiz.finalResults asciiLower Example.graded_D Example.graded_D_answers
               Example.graded_D_grades in
  let points := Quiz.totalEarnedPoints asciiLower Example.graded_D
                  Example.graded_D_answers Example.graded_D_grades in
  Example.graded_D <> []
  /\ Quiz.correctAnswers sub = 1%nat
  /\ (points == 5 # 4)%Q
  /\ (1 <= 2 * points)%Q
  /\ (4 * points <= 3 * 1 + 2)%Q
  /\ (Quiz.score sub == 125 # 2)%Q.
Proof.
  intros sub points.
  destruct (score_and_correct_count asciiLower Example.graded_D
              Example.graded_D_answers Example.graded_D_grades)
    as (_ & _ & _ & _ & Hlow & Hhigh & _);
    [discriminate | vm_compute; reflexivity|].
  split; [discriminate|]. split; [vm_compute; reflexivity|].
  split; [vm_compute; reflexivity|].
  split; [exact Hlow|]. split; [exact Hhigh|]. vm_compute. reflexivity.
Defined.

(** ** Inserting a math symbol *)

Section MathSymbols.

Import Runtime QuizUI.

Lemma substring_prefix (text : jsstring) (s : nat) :
  (s <= length text)%nat -> substring text 0 (Z.of_nat s) = take s text.
Proof.
  intros H. unfold substring, clampIndex.
  replace (Z.to_nat (Z.min (Z.max 0 0) (Z.of_nat (length text)))) with 0%nat by lia.
  replace (Z.to_nat (Z.min (Z.max (Z.of_nat s) 0) (Z.of_nat (length text))))
    with s by lia.
  rewrite Nat.min_0_l, Nat.max_0_l, Nat.sub_0_r. reflexivity.
Qed.

Lemma substringFrom_suffix (text : jsstring) (e : nat) :
  (e <= length text)%nat -> substringFrom text (Z.of_nat e) = drop e text.
Proof.
  intros H. unfold substringFrom, substring, clampIndex.
  replace (Z.to_nat (Z.min (Z.max (Z.of_nat e) 0) (Z.of_nat (length text))))
    with e by lia.
  replace (Z.to_nat (Z.min (Z.max (Z.of_nat (length text)) 0)
                       (Z.of_nat (length text)))) with (length text) by lia.
  rewrite Nat.min_l, Nat.max_r by lia.
  apply take_ge. rewrite length_drop. lia.
Qed.

Lemma quiz_mathSymbols_shape : Forall entry_shape QuizUI.mathSymbols.
Proof.
  unfold QuizUI.mathSymbols.
  repeat (apply List.Forall_cons;
          [split; [vm_compute; split; discriminate
                  | intros H; first [by contradict H | by vm_compute]]|]).
  apply List.Forall_nil.
Qed.

Lemma study_mathSymbols_shape : Forall entry_shape StudySession.mathSymbols.
Proof.
  unfold StudySession.mathSymbols.
  repeat (apply List.Forall_cons;
          [split; [vm_compute; split; discriminate
                  | intros H; first [by contradict H | by vm_compute]]|]).
  apply List.Forall_nil.
Qed.

(** X7. Inserting a symbol of either table replaces exactly the selection:
    the text before and after it is kept. The cursor is then put inside the
    inserted text, and for the symbols with braces directly between the
    first pair of braces. *)
Theorem insertMathSymbol_replaces_selection (insert : jsstring) (move : Z)
    (text : jsstring) (s e : nat) :
  (insert, move) ∈ QuizUI.mathSymbols \/ (insert, move) ∈ StudySession.mathSymbols ->
  (s <= e)%nat -> (e <= length text)%nat ->
  let r := insertMathSymbol insert move text (Z.of_nat s) (Z.of_nat e) in
  r.1 = take s text ++ insert ++ drop e text
  /\ length r.1 = (length text - (e - s) + length insert)%nat
  /\ Z.of_nat s <= r.2 <= Z.of_nat s + Z.of_nat (length insert)
  /\ (move <> 0 ->
      r.1 !! Z.to_nat (r.2 - 1) = Some 0x7B%N
      /\ r.1 !! Z.to_nat r.2 = Some 0x7D%N).
Proof.
  intros Hin Hse Hel r.
  assert (entry_shape (insert, move)) as (Hmove & Hbrace).
  { destruct Hin as [Hin|Hin].
    - pose proof quiz_mathSymbols_shape as H. rewrite Forall_forall in H.
      by apply H.
    - pose proof study_mathSymbols_shape as H. rewrite Forall_forall in H.
      by apply H. }
  simpl in Hmove, Hbrace.
  assert (r.1 = take s text ++ insert ++ drop e text) as Htext.
  { unfold r, insertMathSymbol. simpl.
    by rewrite substring_prefix, substringFrom_suffix by lia. }
  assert (r.2 = Z.of_nat s + Z.of_nat (length insert) + move) as Hcur
    by reflexivity.
  split; [exact Htext|]. split.
  { rewrite Htext, !length_app, length_take, length_drop. lia. }
  split; [lia|]. intros Hm. destruct (Hbrace Hm) as (Hpos & Hopen & Hclose).
  pose proof (lookup_lt_Some _ _ _ Hopen) as Hlt1.
  pose proof (lookup_lt_Some _ _ _ Hclose) as Hlt2.
  rewrite Htext, Hcur. split.
  - rewrite (lookup_app_r (take s text)) by (rewrite length_take; lia).
    rewrite length_take, (lookup_app_l insert) by lia.
    rewrite <- Hopen. f_equal. lia.
  - rewrite (lookup_app_r (take s text)) by (rewrite length_take; lia).
    rewrite length_take, (lookup_app_l insert) by lia.
    rewrite <- Hclose. f_equal. lia.
Qed.

End MathSymbols.


Lemma insertMathSymbol_replaces_selection_witness :
  let r := QuizUI.insertMathSymbol (str "$\frac{}{}$") (-4) (str "x = 12")
             (Z.of_nat 4) (Z.of_nat 6) in
  r.1 = str "x = $\frac{}{}$"
  /\ r.2 = 11
  /\ r.1 !! Z.to_nat (r.2 - 1) = Some 0x7B%N
  /\ r.1 !! Z.to_nat r.2 = Some 0x7D%N.
Proof.
  intros r.
  destruct (insertMathSymbol_replaces_selection (str "$\frac{}{}$") (-4)
              (str "x = 12") 4 6)
    as (Htext & _ & _ & Hbraces).
  - left. apply (bool_decide_unpack _). vm_compute. exact I.
  - lia.
  - vm_compute. lia.
  - split; [exact Htext|]. split; [reflexivity|]. apply Hbraces. lia.
Defined.

(** ** Decoding the audio samples *)

Section Audio.

Import QuizUI.

Lemma int16_range (low high : N) :
  (low < 256)%N -> (high < 256)%N -> -32768 <= int16 low high < 32768.
Proof.
  intros Hl Hh. unfold int16.
  destruct (Z.ltb_spec (Z.of_N (low + 256 * high)) 32768); lia.
Qed.

Lemma int16Array_length (bytes : list N) :
  (2 * length (int16Array bytes) + length bytes `mod` 2 = length bytes)%nat.
Proof.
  induction bytes as [bytes IH] using (well_founded_induction
    (well_founded_ltof _ (@length N))).
  destruct bytes as [|a [|b rest]]; [reflexivity | reflexivity |].
  specialize (IH rest ltac:(unfold ltof; simpl; lia)).
  cbn [int16Array length].
  replace (S (S (length rest)) `mod` 2)%nat with (length rest `mod` 2)%nat.
  - lia.
  - change (S (S (length rest))) with (2 + length rest)%nat.
    rewrite <- (Nat.Div0.add_mod_idemp_l 2 (length rest) 2). reflexivity.
Qed.

Lemma int16Array_range (bytes : list N) :
  Forall (fun b => (b < 256)%N) bytes ->
  Forall (fun x => -32768 <= x < 32768) (int16Array bytes).
Proof.
  induction bytes as [bytes IH] using (well_founded_induction
    (well_founded_ltof _ (@length N))).
  intros H. destruct bytes as [|a [|b rest]]; [constructor | constructor |].
  apply Forall_cons_1 in H as [Ha H]. apply Forall_cons_1 in H as [Hb H].
  cbn [int16Array]. constructor; [by apply int16_range|].
  apply IH; [unfold ltof; simpl; lia | exact H].
Qed.

Lemma decode_bytes (binaryString : jsstring) :
  Forall (fun b => (b < 256)%N) (decode binaryString).
Proof.
  unfold decode. apply Forall_forall. intros b Hb.
  apply list_elem_of_In, List.in_map_iff in Hb as (c & <- & _).
  apply N.mod_lt. discriminate.
Qed.

(** X8. The audio decoder fails exactly on fewer than two bytes or an odd
    number of bytes. Otherwise it yields one sample per pair of bytes, and
    every sample is a multiple of 1/32768 in the interval from -1
    (included) to 1 (excluded). *)
Theorem decodeAudioData_samples (binaryString : jsstring) :
  match decodeAudioData (decode binaryString) with
  | Throw =>
    (length binaryString < 2)%nat \/ (length binaryString `mod` 2 = 1)%nat
  | Normal samples =>
    (2 <= length binaryString)%nat
    /\ (2 * length samples = length binaryString)%nat
    /\ Forall (fun x => (-1 <= x)%Q /\ (x < 1)%Q
                        /\ exists k : Z, (x * 32768 == inject_Z k)%Q) samples
  end.
Proof.
  unfold decodeAudioData.
  assert (length (decode binaryString) = length binaryString) as Hlen
    by apply List.length_map.
  rewrite Hlen. destruct (bool_decide_reflect (length binaryString < 2)%nat) as [H2|H2];
    [by left|].
  destruct (bool_decide_reflect (length binaryString `mod` 2 = 1)%nat) as [Ho|Ho];
    [by right|].
  split; [lia|]. split.
  - rewrite List.length_map.
    pose proof (int16Array_length (decode binaryString)) as H.
    rewrite Hlen in H.
    pose proof (Nat.mod_upper_bound (length binaryString) 2 ltac:(lia)). lia.
  - pose proof (int16Array_range _ (decode_bytes binaryString)) as Hr.
    apply Forall_forall. intros x Hx.
    apply list_elem_of_In, List.in_map_iff in Hx as (k & <- & Hk).
    apply list_elem_of_In in Hk. rewrite Forall_forall in Hr.
    specialize (Hr k Hk).
    assert (inject_Z (-32768) <= inject_Z k)%Q as Hlo
      by (rewrite <- Zle_Qle; lia).
    assert (inject_Z k < inject_Z 32768)%Q as Hhi
      by (rewrite <- Zlt_Qlt; lia).
    change (inject_Z (-32768)) with (-32768)%Q in Hlo.
    change (inject_Z 32768) with 32768%Q in Hhi.
    split; [apply Qle_shift_div_l; [reflexivity | lra]|].
    split; [apply Qlt_shift_div_r; [reflexivity | lra]|].
    exists k. field.
Qed.

End Audio.

(** ** Reading a question count *)

Section QuestionCounts.

Import Quiz Runtime GeminiService StudySession.

Lemma readDigits_digits (u : Decimal.uint) : readDigits (digits u) = u.
Proof. induction u; simpl; congruence. Qed.

Lemma trimStart_digit (c : code_unit) (s : jsstring) :
  isDigit c -> trimStart (c :: s) = c :: s.
Proof.
  intros H. simpl. replace (isWhiteSpace c) with false; [reflexivity|].
  symmetry. apply isWhiteSpace_false. unfold isDigit in H. lia.
Qed.

Lemma digits_cons (u : Decimal.uint) :
  u <> Nil -> exists c s, digits u = c :: s /\ isDigit c.
Proof.
  destruct u; [done| | | | | | | | | |]; intros _; simpl;
    eexists _, _; (split; [reflexivity | unfold isDigit; lia]).
Qed.

Lemma parseInt10_digits (u : Decimal.uint) :
  u <> Nil -> parseInt10 (digits u) = Some (Z.of_uint u).
Proof.
  intros Hu. destruct (digits_cons u Hu) as (c & s & E & Hc).
  unfold parseInt10. rewrite E, (trimStart_digit c s Hc).
  replace (c =? 0x2D)%N with false
    by (symmetry; apply N.eqb_neq; unfold isDigit in Hc; lia).
  replace (c =? 0x2B)%N with false
    by (symmetry; apply N.eqb_neq; unfold isDigit in Hc; lia).
  rewrite <- E, readDigits_digits. by destruct u.
Qed.

Lemma to_int_nonnil (n : Z) :
  match Z.to_int n with
  | Decimal.Pos u | Decimal.Neg u => u <> Nil
  end.
Proof.
  destruct n; simpl; [discriminate | |];
    apply DecimalPos.Unsigned.to_uint_nonnil.
Qed.

(** Reading back the numeral of an integer gives the integer. *)
Lemma parseInt10_toString (n : Z) : parseInt10 (toString n) = Some n.
Proof.
  pose proof (DecimalZ.of_to n) as Hn. pose proof (to_int_nonnil n) as Hu.
  unfold toString. destruct (Z.to_int n) as [u|u]; simpl in Hn.
  - rewrite (parseInt10_digits u Hu). by rewrite Hn.
  - unfold parseInt10. cbn [trimStart]. change (isWhiteSpace 0x2D%N) with false.
    cbv iota. change (0x2D =? 0x2D)%N with true. cbv iota.
    rewrite readDigits_digits. destruct u; [done|..]; by rewrite <- Hn.
Qed.

(** X9. Changing a count field stores a count that is never negative and
    leaves the other counts alone. The numeral of a safe integer [n] stores
    [n] when [n] is positive and 0 otherwise; a text that does not start with
    a number (after white space and a sign), a blank text for one, stores 0. *)
Theorem handleQuestionCountChange_stores_a_count (type : QuestionType)
    (value : jsstring) (prev : QuestionCounts) :
  let next := handleQuestionCountChange type value prev in
  0 <= next type
  /\ (forall t, t <> type -> next t = prev t)
  /\ (forall n : Z, Z.abs n < 2 ^ 53 -> value = toString n ->
      next type = Z.max 0 n)
  /\ (parseInt10 value = None -> next type = 0)
  /\ (trim value = [] -> next type = 0).
Proof.
  cbv zeta. unfold handleQuestionCountChange.
  rewrite decide_True by reflexivity.
  split; [lia|]. split; [intros t Ht; by rewrite decide_False|].
  split; [intros n _ ->; by rewrite parseInt10_toString|].
  split; [by intros ->|].
  intros Ht. replace (parseInt10 value) with (@None Z); [reflexivity|].
  unfold parseInt10. unfold trim in Ht.
  apply (f_equal reverse) in Ht. rewrite reverse_involutive in Ht.
  change (reverse []) with (@nil code_unit) in Ht.
  destruct (trimStart value) as [|c s] eqn:E; [reflexivity|].
  exfalso. rewrite reverse_cons in Ht.
  assert (trimStart (reverse s ++ [c]) <> []) as Hne.
  { clear Ht. assert (isWhiteSpace c = false) as Hc.
    { clear -E. induction value as [|d v IH]; [discriminate|].
      simpl in E. destruct (isWhiteSpace d) eqn:Ed; [by apply IH|].
      by injection E as -> _. }
    induction (reverse s) as [|d r IH]; simpl.
    - by rewrite Hc.
    - destruct (isWhiteSpace d); [exact IH | discriminate]. }
  by apply Hne.
Qed.

Lemma editCounts_nonneg (edits : list (QuestionType * jsstring)) (t : QuestionType) :
  0 <= editCounts edits t.
Proof.
  unfold editCounts. induction edits as [|e edits IH] using rev_ind.
  - by destruct t.
  - rewrite foldl_app. simpl. unfold handleQuestionCountChange at 1.
    destruct (decide (t = e.1)); [lia | exact IH].
Qed.

(** X10. Whatever was typed into the count fields, the generator is asked
    exactly when some count is positive; it then receives the positive
    counts only, in the order of the question types, their total is the
    total of all counts and is positive, so its own early return of an empty
    list is not taken. With all counts at zero the error would be shown
    instead, and that is exactly when the button is disabled. *)
Theorem handleGenerateQuiz_requests (edits : list (QuestionType * jsstring)) :
  let counts := editCounts edits in
  let total := counts multiple_choice + counts short_answer + counts ox
               + counts creativity in
  (generateDisabled false counts = true
   <-> handleGenerateQuiz counts = NoRequestError)
  /\ match handleGenerateQuiz counts with
  | NoRequestError => forall t, counts t = 0
  | Generated prepared =>
    prepared = AskModel (requests counts)
    /\ requests counts <> []
    /\ Forall (fun req => 0 < count req /\ count req = counts (type req))
         (requests counts)
    /\ type <$> requests counts
       = filter (fun t => 0 < counts t) questionTypes
    /\ totalQuestions (requests counts) = total /\ 0 < total
  end.
Proof.
  intros counts total.
  pose proof (editCounts_nonneg edits) as Hnn. fold counts in Hnn.
  assert (Forall (fun req => 0 < count req /\ count req = counts (type req))
            (requests counts)) as Hall.
  { unfold requests. apply Forall_forall. intros req Hreq.
    apply list_elem_of_filter in Hreq as [Hpos Hin].
    apply list_elem_of_fmap in Hin as (t & -> & _). by split. }
  assert (type <$> requests counts
          = filter (fun t => 0 < counts t) questionTypes) as Htypes.
  { unfold requests. generalize questionTypes. intros l.
    induction l as [|t l IH]; [reflexivity|].
    rewrite fmap_cons. destruct (decide (0 < counts t)) as [Hp|Hp].
    - rewrite !filter_cons_True by exact Hp. rewrite fmap_cons, IH. reflexivity.
    - rewrite !filter_cons_False by exact Hp. exact IH. }
  assert (totalQuestions (requests counts) = total) as Htotal.
  { unfold requests, questionTypes, total. rewrite !fmap_cons, fmap_nil.
    pose proof (Hnn multiple_choice). pose proof (Hnn short_answer).
    pose proof (Hnn ox). pose proof (Hnn creativity).
    repeat (rewrite filter_cons; cbn [count]; case_decide);
      rewrite filter_nil; unfold totalQuestions; simpl; lia. }
  assert (generateDisabled false counts = true <-> total = 0) as Hdisabled.
  { unfold generateDisabled, total. simpl.
    pose proof (Hnn multiple_choice). pose proof (Hnn short_answer).
    pose proof (Hnn ox). pose proof (Hnn creativity).
    rewrite !andb_true_iff, !Z.eqb_eq. lia. }
  unfold handleGenerateQuiz.
  destruct (requests counts) as [|req reqs] eqn:E.
  - unfold total in Htotal. unfold totalQuestions in Htotal. simpl in Htotal.
    split; [rewrite Hdisabled; unfold total; by split|].
    intros t.
    pose proof (Hnn multiple_choice). pose proof (Hnn short_answer).
    pose proof (Hnn ox). pose proof (Hnn creativity). destruct t; lia.
  - assert (0 < total) as Hpos.
    { rewrite <- Htotal. apply Forall_cons_1 in Hall as [[Hreq _] Hrest].
      unfold totalQuestions. simpl.
      assert (forall (l : list QuestionRequest) a,
                Forall (fun r => 0 < count r /\ count r = counts (type r)) l ->
                0 < a -> 0 < foldl (fun sum r => sum + count r) a l) as Hf.
      { induction l as [|r l IH]; intros a Hl Ha; [exact Ha|].
        apply Forall_cons_1 in Hl as [[Hr _] Hl]. simpl. apply IH; [exact Hl | lia]. }
      apply Hf; [exact Hrest | lia]. }
    split; [rewrite Hdisabled; split; [lia | discriminate]|].
    split.
    + unfold prepareQuestions. rewrite Htotal.
      rewrite bool_decide_eq_false_2 by lia. f_equal.
      rewrite <- E. unfold requests. apply list_filter_filter_l. tauto.
    + split; [discriminate|]. split; [exact Hall|].
      split; [exact Htypes|]. split; [exact Htotal | exact Hpos].
Qed.

End QuestionCounts.

(** ** Follow-up questions *)

Section FollowUp.

Import Runtime StudySession.

Lemma exchanges_snoc (qas : list (jsstring * jsstring)) (q a : jsstring) :
  (qas ++ [(q, a)]) ≫= exchange
  = (qas ≫= exchange)
    ++ [{| role := user; text := q |}; {| role := model; text := a |}].
Proof. rewrite bind_app. reflexivity. Qed.

Lemma exchanges_last (conv : list ConversationMessage) :
  exchanges conv -> conv <> [] ->
  exists qas q a,
    conv = (qas ≫= exchange)
           ++ [{| role := user; text := q |}; {| role := model; text := a |}].
Proof.
  intros [qas ->] Hne. destruct qas as [|[q a] qas _] using rev_ind; [done|].
  exists qas, q, a. apply exchanges_snoc.
Qed.

Lemma appendChunk_last (base : list ConversationMessage) (u : ConversationMessage)
    (a chunkText : jsstring) :
  appendChunk chunkText (base ++ [u; {| role := model; text := a |}])
  = Normal (base ++ [u; {| role := model; text := a ++ chunkText |}]).
Proof.
  unfold appendChunk.
  replace (base ++ [u; {| role := model; text := a |}])
    with ((base ++ [u]) ++ [{| role := model; text := a |}])
    by (by rewrite <- app_assoc).
  rewrite last_snoc. simpl. rewrite length_app. simpl.
  replace (length (base ++ [u]) + 1 - 1)%nat with (length (base ++ [u])) by lia.
  rewrite take_app_length. by rewrite <- app_assoc.
Qed.

Lemma slice_drop_two {A} (base : list A) (x y : A) :
  slice (base ++ [x; y]) 0 (-2) = base.
Proof.
  unfold slice, sliceIndex. rewrite length_app. simpl.
  change (0 <? 0) with false. change (-2 <? 0) with true. cbv iota.
  replace (Z.to_nat (Z.min 0 (Z.of_nat (length base + 2)))) with 0%nat by lia.
  replace (Z.to_nat (Z.max (Z.of_nat (length base + 2) + -2) 0) - 0)%nat
    with (length base) by lia.
  rewrite drop_0. apply take_app_length.
Qed.

Lemma qnaStep_inv (ev : QnAEvent) (st : QnA) :
  qna_inv st -> exists st', qnaStep ev st = Normal st' /\ qna_inv st'.
Proof.
  intros Hinv. pose proof Hinv as [Hex Hne].
  destruct ev as [value|symbol s e| |chunkText| |message]; simpl.
  - eexists; split; [reflexivity|].
    destruct (isAnswering st) eqn:Ea; [exact Hinv|]. by split.
  - destruct (mathSymbols !! symbol) as [[insert move]|];
      (eexists; split; [reflexivity|]); [by split | exact Hinv].
  - eexists; split; [reflexivity|]. unfold askQuestion.
    destruct (bool_decide (trim (userQuestion st) = []) || isAnswering st);
      [exact Hinv|].
    split; simpl.
    + destruct Hex as [qas ->]. exists (qas ++ [(userQuestion st, [])]).
      by rewrite exchanges_snoc.
    + intros _. by destruct (conversation st).
  - destruct (isAnswering st) eqn:Ea;
      [|eexists; split; [reflexivity | exact Hinv]].
    destruct (exchanges_last _ Hex (Hne eq_refl)) as (qas & q & a & E).
    rewrite E, appendChunk_last. simpl. eexists; split; [reflexivity|].
    split; simpl.
    + exists (qas ++ [(q, a ++ chunkText)]). by rewrite exchanges_snoc.
    + intros _. by destruct (qas ≫= exchange).
  - eexists; split; [reflexivity|].
    destruct (isAnswering st) eqn:Ea; [|exact Hinv]. by split.
  - eexists; split; [reflexivity|].
    destruct (isAnswering st) eqn:Ea; [|exact Hinv].
    split; simpl; [|done].
    destruct (exchanges_last _ Hex (Hne eq_refl)) as (qas & q & a & E).
    rewrite E, slice_drop_two. by exists qas.
Qed.

(** X11. From the empty form, no sequence of edits, inserted symbols,
    questions, chunks, stream ends and stream failures makes the update of a
    chunk throw, and the conversation stays a sequence of exchanges: a
    question of the user followed by the answer of the model. *)
Theorem conversation_is_exchanges (evs : list QnAEvent) :
  exists st, qnaRun evs noConversation = Normal st
    /\ exchanges (conversation st)
    /\ Nat.Even (length (conversation st)).
Proof.
  assert (forall st, qna_inv st ->
            exists st', qnaRun evs st = Normal st' /\ qna_inv st') as Hrun.
  { induction evs as [|ev evs IH]; intros st Hst; simpl.
    - by exists st.
    - destruct (qnaStep_inv ev st Hst) as (st1 & -> & H1). simpl.
      by apply IH. }
  destruct (Hrun noConversation) as (st & E & Hex & _).
  { split; [by exists [] | done]. }
  exists st. split; [exact E|]. split; [exact Hex|].
  destruct Hex as [qas ->]. clear. induction qas as [|qa qas IH].
  - by exists 0%nat.
  - destruct IH as [k Hk]. exists (S k).
    change ((qa :: qas) ≫= exchange) with (exchange qa ++ (qas ≫= exchange)).
    rewrite length_app, Hk. simpl. lia.
Qed.

Lemma chunks_run (chunks : list jsstring) (rest : list QnAEvent)
    (base : list ConversationMessage) (u : ConversationMessage)
    (a uq : jsstring) (err : option jsstring) :
  qnaRun ((Chunk <$> chunks) ++ rest)
    {| conversation := base ++ [u; {| role := model; text := a |}];
       userQuestion := uq; isAnswering := true; qnaError := err |}
  = qnaRun rest
      {| conversation :=
           base ++ [u; {| role := model; text := a ++ concat chunks |}];
         userQuestion := uq; isAnswering := true; qnaError := err |}.
Proof.
  revert a. induction chunks as [|c chunks IH]; intros a; simpl.
  - by rewrite app_nil_r.
  - rewrite appendChunk_last. simpl. rewrite IH. by rewrite <- app_assoc.
Qed.

(** X12. A question that is not blank, asked while no answer is awaited,
    adds one exchange: when the stream ends, the answer is the chunks put
    together in order; when the stream fails after any number of chunks, the
    conversation is what it was before the question and the error is shown.
    In both cases the field is left empty and no answer is awaited. *)
Theorem ask_answered_or_rolled_back (st : QnA) (chunks : list jsstring)
    (message : jsstring)
    (Hidle : isAnswering st = false)
    (Hquestion : trim (userQuestion st) <> []) :
  qnaRun (Ask :: (Chunk <$> chunks) ++ [StreamEnd]) st
  = Normal {| conversation :=
                conversation st
                ++ [{| role := user; text := userQuestion st |};
                    {| role := model; text := concat chunks |}];
              userQuestion := []; isAnswering := false; qnaError := None |}
  /\ qnaRun (Ask :: (Chunk <$> chunks) ++ [StreamError message]) st
     = Normal {| conversation := conversation st; userQuestion := [];
                 isAnswering := false; qnaError := Some message |}.
Proof.
  cbn [qnaRun qnaStep]. unfold askQuestion.
  rewrite Hidle, bool_decide_eq_false_2 by exact Hquestion. simpl.
  rewrite !chunks_run. simpl. split; [reflexivity|].
  by rewrite slice_drop_two.
Qed.

End FollowUp.


Lemma ask_answered_or_rolled_back_witness :
  let st := Walkthrough.question_typed in
  let chunks := [str "It has "; str "one divisor."] in
  StudySession.qnaRun
    (StudySession.Ask :: (StudySession.Chunk <$> chunks)
     ++ [StudySession.StreamEnd]) st
  = Normal {| StudySession.conversation :=
                [{| StudySession.role := StudySession.user;
                    StudySession.text := str "Why is 1 not prime?" |};
                 {| StudySession.role := StudySession.model;
                    StudySession.text := str "It has one divisor." |}];
              StudySession.userQuestion := [];
              StudySession.isAnswering := false;
              StudySession.qnaError := None |}
  /\ StudySession.qnaRun
       (StudySession.Ask :: (StudySession.Chunk <$> chunks)
        ++ [StudySession.StreamError (str "offline")]) st
     = Normal {| StudySession.conversation := [];
                 StudySession.userQuestion := [];
                 StudySession.isAnswering := false;
                 StudySession.qnaError := Some (str "offline") |}.
Proof.
  intros st chunks.
  destruct (ask_answered_or_rolled_back Walkthrough.question_typed
              [str "It has "; str "one divisor."] (str "offline"))
    as [Hend Herror].
  - reflexivity.
  - vm_compute. discriminate.
  - split; [|exact Herror]. unfold st, chunks. rewrite Hend. reflexivity.
Defined.

(** ** Illustrations of generated questions *)

Section Illustrations.

Import Quiz GeminiService.

(** X13. Whatever the illustration calls return (an image, nothing or a
    failure), the generated questions come back in the same number and
    order, with the same question and the same prompt; a question without a
    prompt, or with a blank one, comes back as it was, and no question gets
    an empty image. *)
Theorem attachIllustrations_keeps_questions (illustration : nat -> option jsstring)
    (questionsWithPrompts : list GeneratedQuestion) :
  let questionsWithImages := attachIllustrations illustration questionsWithPrompts in
  length questionsWithImages = length questionsWithPrompts
  /\ quizQuestion <$> questionsWithImages = quizQuestion <$> questionsWithPrompts
  /\ imagePrompt <$> questionsWithImages = imagePrompt <$> questionsWithPrompts
  /\ (forall i q, questionsWithPrompts !! i = Some q ->
        default [] (imagePrompt q) = [] \/ trim (default [] (imagePrompt q)) = [] ->
        questionsWithImages !! i = Some q)
  /\ (forall i q image, questionsWithPrompts !! i = Some q ->
        default [] (imagePrompt q) <> [] ->
        trim (default [] (imagePrompt q)) <> [] ->
        illustration i = Some image -> image <> [] ->
        questionsWithImages !! i
        = Some {| quizQuestion := quizQuestion q; imagePrompt := imagePrompt q;
                  imageBase64 := Some image |})
  /\ (forall i q, questionsWithPrompts !! i = Some q ->
        default [] (imagePrompt q) <> [] ->
        trim (default [] (imagePrompt q)) <> [] ->
        illustration i = None \/ illustration i = Some [] ->
        questionsWithImages !! i
        = Some {| quizQuestion := quizQuestion q; imagePrompt := imagePrompt q;
                  imageBase64 := None |}).
Proof.
  cbv zeta. unfold attachIllustrations.
  split; [apply length_imap|].
  split.
  { apply list_eq. intros i. rewrite !list_lookup_fmap, list_lookup_imap.
    destruct (questionsWithPrompts !! i) as [q|]; [|reflexivity]. simpl.
    destruct (imagePrompt q) as [prompt|]; [|reflexivity].
    by destruct (negb _ && negb _). }
  split.
  { apply list_eq. intros i. rewrite !list_lookup_fmap, list_lookup_imap.
    destruct (questionsWithPrompts !! i) as [q|]; [|reflexivity]. simpl.
    destruct (imagePrompt q) as [prompt|] eqn:E; [|by rewrite E].
    destruct (negb _ && negb _); [reflexivity | by rewrite E]. }
  split.
  { intros i q Hq Hblank. rewrite list_lookup_imap, Hq. simpl.
    destruct (imagePrompt q) as [prompt|]; [|reflexivity]. simpl in Hblank.
    destruct Hblank as [-> | Ht]; [reflexivity|].
    rewrite (bool_decide_eq_true_2 _ Ht). by rewrite andb_false_r. }
  split.
  { intros i q image Hq Hp Ht Hi Himage. rewrite list_lookup_imap, Hq. simpl.
    destruct (imagePrompt q) as [prompt|]; [|done]. simpl in Hp, Ht.
    rewrite (bool_decide_eq_false_2 _ Hp), (bool_decide_eq_false_2 _ Ht).
    simpl. rewrite Hi. by destruct image. }
  { intros i q Hq Hp Ht Hi. rewrite list_lookup_imap, Hq. simpl.
    destruct (imagePrompt q) as [prompt|]; [|done]. simpl in Hp, Ht.
    rewrite (bool_decide_eq_false_2 _ Hp), (bool_decide_eq_false_2 _ Ht).
    simpl. by destruct Hi as [-> | ->]. }
Qed.

End Illustrations.

(** ** The dashboard *)

Section DashboardFacts.

Import History Runtime Dashboard.

Variable EDUCATION_CURRICULUMS : list EducationCurriculum.

Lemma firstReturn_Some {A B} (body : A -> option B) (l : list A) (y : B) :
  firstReturn body l = Some y -> exists x, x ∈ l /\ body x = Some y.
Proof.
  induction l as [|x l IH]; [discriminate|]. simpl.
  destruct (body x) as [y'|] eqn:E.
  - intros [= ->]. exists x. split; [left | exact E].
  - intros H. destruct (IH H) as (x' & Hin & Hx'). exists x'.
    split; [by right | exact Hx'].
Qed.

Lemma firstReturn_None {A B} (body : A -> option B) (l : list A) :
  firstReturn body l = None <-> forall x, x ∈ l -> body x = None.
Proof.
  induction l as [|x l IH]; simpl.
  - split; [|done]. intros _ x Hx. by apply elem_of_nil in Hx.
  - destruct (body x) as [y|] eqn:E.
    + split; [done|]. intros H. specialize (H x). rewrite E in H.
      apply H. left.
    + rewrite IH. split.
      * intros H x' Hx'. apply elem_of_cons in Hx' as [-> | Hx']; [exact E|].
        by apply H.
      * intros H x' Hx'. apply H. by right.
Qed.

(** X14. The search of the curriculum finds a standard exactly when the
    tree holds one with the identifier, and the details it returns are those
    of a path of the tree that ends in such a standard. *)
Theorem searchDetails_locates (standardId : jsstring) :
  match searchDetails EDUCATION_CURRICULUMS standardId with
  | Some details => located EDUCATION_CURRICULUMS standardId details
  | None => forall details, ~ located EDUCATION_CURRICULUMS standardId details
  end.
Proof.
  destruct (searchDetails EDUCATION_CURRICULUMS standardId) as [details|] eqn:E;
    unfold searchDetails in E.
  - apply firstReturn_Some in E as (curriculum & Hc & E).
    apply firstReturn_Some in E as (subject & Hs & E).
    apply firstReturn_Some in E as (grade & Hg & E).
    apply firstReturn_Some in E as (unit & Hu & E).
    destruct (List.find _ (standards unit)) as [standard|] eqn:Ef; [|discriminate].
    apply List.find_some in Ef as [Hin Hid].
    apply bool_decide_eq_true in Hid. apply list_elem_of_In in Hin.
    injection E as <-.
    by exists curriculum, subject, grade, unit, standard.
  - intros details (curriculum & subject & grade & unit & standard
                    & Hc & Hs & Hg & Hu & Hst & Hid & _).
    pose proof (proj1 (firstReturn_None _ _) E curriculum Hc) as E1.
    pose proof (proj1 (firstReturn_None _ _) E1 subject Hs) as E2.
    pose proof (proj1 (firstReturn_None _ _) E2 grade Hg) as E3.
    pose proof (proj1 (firstReturn_None _ _) E3 unit Hu) as E4.
    cbv beta in E4.
    destruct (List.find _ (standards unit)) as [|] eqn:Ef; [discriminate|].
    apply list_elem_of_In in Hst.
    pose proof (List.find_none _ _ Ef standard Hst) as Hn. cbv beta in Hn.
    by apply bool_decide_eq_false in Hn.
Qed.

Lemma findDetailsForStandard_sound (standardId : jsstring)
    (cache : gmap jsstring Details) :
  cache_sound EDUCATION_CURRICULUMS cache ->
  (findDetailsForStandard EDUCATION_CURRICULUMS standardId cache).1
  = searchDetails EDUCATION_CURRICULUMS standardId
  /\ cache_sound EDUCATION_CURRICULUMS
       (findDetailsForStandard EDUCATION_CURRICULUMS standardId cache).2
  /\ cache ⊆ (findDetailsForStandard EDUCATION_CURRICULUMS standardId cache).2.
Proof.
  intros Hc. unfold findDetailsForStandard.
  destruct (cache !! standardId) as [details|] eqn:E; simpl.
  - split; [symmetry; by apply Hc|]. by split.
  - destruct (searchDetails EDUCATION_CURRICULUMS standardId) as [details|] eqn:Es;
      simpl; [|by split].
    split; [reflexivity|]. split.
    + intros k d. destruct (decide (k = standardId)) as [->|Hk].
      * rewrite lookup_insert_eq. by intros [= <-].
      * rewrite lookup_insert_ne by done. apply Hc.
    + by apply insert_subseteq.
Qed.

(** X15. The cache of the curriculum search is not observable: with a cache
    that holds results of the search only (the empty one, say), a lookup
    returns what the search returns, leaves such a cache that still holds
    what it held, and finds a found standard in the cache next time. *)
Theorem findDetailsForStandard_cache (standardId : jsstring)
    (cache : gmap jsstring Details)
    (Hcache : cache_sound EDUCATION_CURRICULUMS cache) :
  let '(details, cache') :=
    findDetailsForStandard EDUCATION_CURRICULUMS standardId cache in
  details = searchDetails EDUCATION_CURRICULUMS standardId
  /\ cache_sound EDUCATION_CURRICULUMS cache'
  /\ cache ⊆ cache'
  /\ cache' !! standardId = details
  /\ findDetailsForStandard EDUCATION_CURRICULUMS standardId cache'
     = (details, cache').
Proof.
  pose proof (findDetailsForStandard_sound standardId cache Hcache) as (H1 & H2 & H3).
  destruct (findDetailsForStandard EDUCATION_CURRICULUMS standardId cache)
    as [details cache'] eqn:E.
  simpl in H1, H2, H3. split; [exact H1|]. split; [exact H2|]. split; [exact H3|].
  assert (cache' !! standardId = details) as Hl.
  { unfold findDetailsForStandard in E.
    destruct (cache !! standardId) as [d|] eqn:El.
    - injection E as <- <-. exact El.
    - destruct (searchDetails EDUCATION_CURRICULUMS standardId) as [d|] eqn:Es;
        injection E as <- <-; [by rewrite lookup_insert_eq | exact El]. }
  split; [exact Hl|].
  unfold findDetailsForStandard. rewrite Hl.
  destruct details as [d|]; [reflexivity|]. by rewrite <- H1.
Qed.

Lemma orElse_nonempty (a b : jsstring) : b <> [] -> orElse a b <> [].
Proof. intros Hb. by destruct a. Qed.

(** X16. The history shown by the dashboard has one entry for each stored
    result, in order, built from the plain search of the curriculum whatever
    the (sound) cache held; the unit and the subject shown are never empty,
    the subject being the stored one when there is one. *)
Theorem detailedHistory_entries (studyHistory : list QuizResult)
    (cache : gmap jsstring Details)
    (Hcache : cache_sound EDUCATION_CURRICULUMS cache) :
  let items := (detailedHistory EDUCATION_CURRICULUMS studyHistory cache).1 in
  items = (fun r => detailed r (searchDetails EDUCATION_CURRICULUMS (standardId r)))
          <$> studyHistory
  /\ result <$> items = studyHistory
  /\ Forall (fun item =>
       shownUnitName item <> [] /\ shownSubject item <> []
       /\ (subject (result item) <> [] ->
           shownSubject item = subject (result item))) items
  /\ cache_sound EDUCATION_CURRICULUMS
       (detailedHistory EDUCATION_CURRICULUMS studyHistory cache).2.
Proof.
  cbv zeta.
  assert ((detailedHistory EDUCATION_CURRICULUMS studyHistory cache).1
          = (fun r => detailed r (searchDetails EDUCATION_CURRICULUMS (standardId r)))
            <$> studyHistory
          /\ cache_sound EDUCATION_CURRICULUMS
               (detailedHistory EDUCATION_CURRICULUMS studyHistory cache).2)
    as [Hitems Hsound].
  { revert cache Hcache. induction studyHistory as [|r rest IH]; intros cache Hcache.
    - by split.
    - simpl.
      pose proof (findDetailsForStandard_sound (standardId r) cache Hcache)
        as (H1 & H2 & _).
      destruct (findDetailsForStandard EDUCATION_CURRICULUMS (standardId r) cache)
        as [details cache1].
      simpl in H1, H2. destruct (IH cache1 H2) as [IH1 IH2].
      destruct (detailedHistory EDUCATION_CURRICULUMS rest cache1) as [items cache2].
      simpl in *. split; [by rewrite H1, IH1 | exact IH2]. }
  split; [exact Hitems|]. rewrite Hitems.
  split.
  { rewrite <- list_fmap_compose. clear. induction studyHistory as [|r l IH];
      [reflexivity|]. rewrite fmap_cons. simpl. by rewrite IH. }
  split; [|exact Hsound].
  apply Forall_fmap, Forall_forall. intros r _. simpl.
  split; [by apply orElse_nonempty|]. split; [by apply orElse_nonempty|].
  intros Hs. by destruct (subject r).
Qed.

End DashboardFacts.


Lemma findDetailsForStandard_cache_witness :
  let '(details, cache') :=
    Dashboard.findDetailsForStandard Walkthrough.curriculums (str "M-02") ∅ in
  details = Dashboard.searchDetails Walkthrough.curriculums (str "M-02")
  /\ Dashboard.cache_sound Walkthrough.curriculums cache'
  /\ ∅ ⊆ cache'
  /\ cache' !! str "M-02" = details
  /\ Dashboard.findDetailsForStandard Walkthrough.curriculums (str "M-02") cache'
     = (details, cache').
Proof.
  apply (findDetailsForStandard_cache Walkthrough.curriculums (str "M-02") ∅).
  intros standardId details H. rewrite lookup_empty in H. discriminate H.
Defined.

Lemma detailedHistory_entries_witness :
  let items :=
    (Dashboard.detailedHistory Walkthrough.curriculums Walkthrough.stored ∅).1 in
  Dashboard.shownUnitName <$> items = [str "Numbers"; str "Unknown Unit"]
  /\ Dashboard.shownSubject <$> items = [str "Mathematics"; str "Science"]
  /\ Dashboard.result <$> items = Walkthrough.stored.
Proof.
  intros items.
  destruct (detailedHistory_entries Walkthrough.curriculums Walkthrough.stored ∅)
    as (Hitems & Hresults & _).
  - intros standardId details H. rewrite lookup_empty in H. discriminate H.
  - split; [|split; [|exact Hresults]]; unfold items; rewrite Hitems;
      vm_compute; reflexivity.
Defined.

(** ** A stored result on the dashboard *)

Section StoredResult.

Import History Runtime Dashboard.

Variable toLowerCase : jsstring -> jsstring.

Lemma sliceFrom_last {A} (l : list A) (k : nat) :
  (0 < k)%nat -> sliceFrom l (- Z.of_nat k) = drop (length l - k) l.
Proof.
  intros Hk. unfold sliceFrom, slice, sliceIndex.
  replace (- Z.of_nat k <? 0) with true by (symmetry; apply Z.ltb_lt; lia).
  replace (Z.of_nat (length l) <? 0) with false by (symmetry; apply Z.ltb_ge; lia).
  replace (Z.to_nat (Z.max (Z.of_nat (length l) + - Z.of_nat k) 0))
    with (length l - k)%nat by lia.
  replace (Z.to_nat (Z.min (Z.of_nat (length l)) (Z.of_nat (length l))))
    with (length l) by lia.
  apply take_ge. rewrite length_drop. lia.
Qed.

(** X17. Opening the review of a result stored by [handleQuizSubmit] from
    the submission of a quiz shows one row for each question, in order, with
    the answer that was submitted for it and the badge that the scoring pass
    computed; the number of "correct" badges is the stored number of correct
    answers. *)
Theorem review_of_stored_submission (standard : AchievementStandard)
    (subjectName now_id now_date : jsstring) (qs : list Quiz.QuizQuestion)
    (answers : list (option jsstring)) (grades : list (option Quiz.Grade)) :
  let r := newResult standard subjectName (Some qs) now_id now_date
             (Quiz.finalResults toLowerCase qs answers grades) in
  exists rows,
    reviewOf r = Some rows
    /\ length rows = totalQuestions r
    /\ (forall i q, qs !! i = Some q ->
          rows !! i
          = Some (q, nullable (answers !! i),
                  (Quiz.correctnessCallback toLowerCase answers grades i q).2))
    /\ length (filter (fun row => row.2 = true) rows) = correctAnswers r.
Proof.
  cbv zeta. unfold reviewOf, reviewRows. cbn [questions newResult]. eexists.
  split; [reflexivity|]. split; [by rewrite length_imap|].
  assert (forall i,
            imap (fun idx q =>
                    (q, nullable (answers !! idx),
                     default false
                       ((snd <$> imap (Quiz.correctnessCallback toLowerCase answers grades) qs)
                          !! idx))) qs !! i
            = (fun q => (q, nullable (answers !! i),
                         (Quiz.correctnessCallback toLowerCase answers grades i q).2))
              <$> qs !! i) as Hrow.
  { intros i. rewrite list_lookup_imap.
    destruct (qs !! i) as [q|] eqn:Eq; [|reflexivity]. simpl.
    by rewrite list_lookup_fmap, list_lookup_imap, Eq. }
  split.
  { intros i q Hq. cbn [userAnswers correctness newResult Quiz.finalResults
                          Quiz.submittedAnswers Quiz.correctness].
    by rewrite Hrow, Hq. }
  cbn [userAnswers correctness correctAnswers newResult Quiz.finalResults
         Quiz.submittedAnswers Quiz.correctness Quiz.correctAnswers].
  set (rows := imap _ qs).
  set (flags := snd <$> imap (Quiz.correctnessCallback toLowerCase answers grades) qs).
  assert (snd <$> rows = flags) as <-.
  { apply list_eq. intros i. unfold rows, flags.
    rewrite !list_lookup_fmap, Hrow, list_lookup_imap.
    by destruct (qs !! i). }
  generalize rows. clear. intros rows.
  induction rows as [|row rows IH]; [reflexivity|].
  rewrite fmap_cons, !filter_cons.
  destruct (decide (row.2 = true)); simpl; by rewrite IH.
Qed.

(** X18. After a submission the new result is the first card of the
    history, the last bar of the chart and the first result given to the
    learning diagnosis. The chart shows the last ten results (all of them
    when there are fewer), the diagnosis reads the last fifty. The number of
    quizzes grows by one and the number of answered questions by the
    questions of the submission. *)
Theorem newest_result_on_dashboard (standard : AchievementStandard)
    (subjectName now_id now_date : jsstring)
    (questions : option (list Quiz.QuizQuestion)) (sub : Quiz.Submission)
    (studyHistory : list QuizResult) :
  let r := newResult standard subjectName questions now_id now_date sub in
  let h := handleQuizSubmit standard subjectName questions now_id now_date sub
             studyHistory in
  reversedHistory h = r :: reversedHistory studyHistory
  /\ length (recentChartData h) = Nat.min 10 (length h)
  /\ last (recentChartData h)
     = Some {| bar_date := date r; bar_score := score r;
               bar_standard := standardId r |}
  /\ (exists older,
        GeminiService.recentHistory h = Some (r :: older)
        /\ length (r :: older) = Nat.min 50 (length h))
  /\ totalQuizzes h = S (totalQuizzes studyHistory)
  /\ totalQuestionsAnswered h
     = (totalQuestionsAnswered studyHistory + Quiz.totalQuestions sub)%nat.
Proof.
  cbv zeta. unfold handleQuizSubmit.
  set (r := newResult standard subjectName questions now_id now_date sub).
  split; [unfold reversedHistory; by rewrite reverse_snoc|].
  assert (totalQuizzes (studyHistory ++ [r]) = S (totalQuizzes studyHistory)
          /\ totalQuestionsAnswered (studyHistory ++ [r])
             = (totalQuestionsAnswered studyHistory + Quiz.totalQuestions sub)%nat)
    as Hstats.
  { unfold totalQuizzes, totalQuestionsAnswered.
    rewrite length_app, foldl_app. cbn [length foldl]. split; [lia | reflexivity]. }
  unfold recentChartData, GeminiService.recentHistory.
  rewrite (sliceFrom_last _ 10) by lia.
  split; [rewrite length_fmap, length_drop; lia|].
  split.
  { rewrite length_app. simpl.
    replace (length studyHistory + 1 - 10)%nat with (length studyHistory - 9)%nat
      by lia.
    rewrite drop_app_le by lia. rewrite fmap_app. cbn [fmap list_fmap].
    by rewrite last_snoc. }
  split; [|exact Hstats]. clear Hstats.
  destruct (studyHistory ++ [r]) as [|x l] eqn:E;
    [by destruct studyHistory|]. rewrite <- E.
  rewrite (sliceFrom_last _ 50) by lia.
  rewrite length_app. cbn [length].
  replace (length studyHistory + 1 - 50)%nat with (length studyHistory - 49)%nat
    by lia.
  rewrite drop_app_le by lia. rewrite reverse_snoc.
  eexists. split; [reflexivity|]. cbn [length].
  rewrite length_reverse, length_drop. lia.
Qed.

End StoredResult.

(** ** The view history *)

Section Views.

Import History Runtime App.

Lemma slice_prefix {A} (l : list A) (i : nat) :
  slice l 0 (Z.of_nat i + 1) = take (i + 1) l.
Proof.
  unfold slice, sliceIndex. change (0 <? 0) with false.
  replace (Z.of_nat i + 1 <? 0) with false by (symmetry; apply Z.ltb_ge; lia).
  replace (Z.to_nat (Z.min 0 (Z.of_nat (length l)))) with 0%nat by lia.
  rewrite drop_0, Nat.sub_0_r.
  destruct (decide (i + 1 <= length l)%nat).
  - f_equal. lia.
  - rewrite !take_ge by lia. reflexivity.
Qed.

Lemma navigate_inside (v : View) (s : option Selected) (nav : Navigation) :
  (historyIndex nav < length (history nav))%nat ->
  exists current,
    history nav !! historyIndex nav = Some current
    /\ navigate v s nav
       = Normal (if bool_decide (view current = v)
                    && bool_decide (selected current = s)
                 then nav
                 else {| history :=
                           take (historyIndex nav + 1) (history nav)
                           ++ [{| view := v; selected := s |}];
                         historyIndex := (historyIndex nav + 1)%nat |}).
Proof.
  intros Hi. destruct (lookup_lt_is_Some_2 _ _ Hi) as [current Hc].
  exists current. split; [exact Hc|].
  unfold navigate. rewrite slice_prefix.
  replace (historyIndex nav + 1)%nat with (S (historyIndex nav)) by lia.
  rewrite (take_S_r _ _ _ Hc), last_snoc. simpl.
  destruct (_ && _); [reflexivity|]. do 2 f_equal.
  rewrite !length_app, length_take. simpl. lia.
Qed.

Lemma act_inv (a : Action) (nav : Navigation) :
  nav_inv nav -> exists nav', act a nav = Normal nav' /\ nav_inv nav'.
Proof.
  intros Hinv. pose proof Hinv as (Hi & H0 & Hsel & Hadj).
  assert (forall v s, (v = study <-> s <> None) ->
            exists nav', navigate v s nav = Normal nav' /\ nav_inv nav') as Hnav.
  { intros v s Hvs. destruct (navigate_inside v s nav Hi) as (current & Hc & ->).
    eexists; split; [reflexivity|].
    destruct (bool_decide (view current = v) && bool_decide (selected current = s))
      eqn:Esame; [exact Hinv|].
    split; simpl; [rewrite length_app, length_take; simpl; lia|].
    split.
    { rewrite lookup_app_l by (rewrite length_take; lia).
      rewrite lookup_take_lt by lia. exact H0. }
    split.
    { intros entry Hin. apply elem_of_app in Hin as [Hin | Hin].
      - apply Hsel. apply elem_of_take in Hin as (i & Hl & _).
        by eapply list_elem_of_lookup_2.
      - apply list_elem_of_singleton in Hin as ->. exact Hvs. }
    intros i a' b Ha Hb.
    destruct (decide (S i < historyIndex nav + 1)%nat) as [Hlt|Hge].
    - rewrite lookup_app_l in Ha by (rewrite length_take; lia).
      rewrite lookup_app_l in Hb by (rewrite length_take; lia).
      rewrite lookup_take_lt in Ha by lia. rewrite lookup_take_lt in Hb by lia.
      by eapply Hadj.
    - destruct (decide (i = historyIndex nav)) as [->|Hne].
      + rewrite lookup_app_l in Ha by (rewrite length_take; lia).
        rewrite lookup_take_lt in Ha by lia.
        rewrite lookup_app_r in Hb by (rewrite length_take; lia).
        rewrite length_take in Hb.
        replace (S (historyIndex nav)
                 - (historyIndex nav + 1) `min` length (history nav))%nat
          with 0%nat in Hb by lia.
        injection Hb as <-. rewrite Hc in Ha. injection Ha as <-.
        intros ->. simpl in Esame.
        by rewrite !bool_decide_eq_true_2 in Esame.
      + apply lookup_lt_Some in Hb. rewrite length_app, length_take in Hb.
        simpl in Hb. lia. }
  destruct a as [keyValid subject std| | | |]; simpl.
  - destruct keyValid; [|by exists nav]. apply Hnav. by split.
  - apply Hnav. by split.
  - apply Hnav. by split.
  - exists (handleBack nav). split; [reflexivity|]. unfold handleBack, canGoBack.
    case_bool_decide; [|exact Hinv]. split; simpl; [lia|]. by split.
  - exists (handleForward nav). split; [reflexivity|].
    unfold handleForward, canGoForward.
    case_bool_decide; [|exact Hinv]. split; simpl; [lia|]. by split.
Qed.

(** X19. From the start view, no sequence of "start study", "home",
    "dashboard", "back" and "forward" makes [navigate] throw. The current
    entry always exists, the history starts at the selector and never holds
    the same entry twice in a row, and a study entry always carries its
    selection, so that the selector is rendered for selector entries only. *)
Theorem navigation_stays_inside (l : list Action) :
  exists nav entry,
    acts l start = Normal nav
    /\ nav_inv nav
    /\ currentHistoryEntry nav = Some entry
    /\ match renderContent entry with
       | CurriculumSelectorScreen => view entry = selector
       | StudySessionScreen s => view entry = study /\ selected entry = Some s
       | DashboardScreen => view entry = dashboard
       end.
Proof.
  assert (forall nav, nav_inv nav ->
            exists nav', acts l nav = Normal nav' /\ nav_inv nav') as Hrun.
  { induction l as [|a l IH]; intros nav Hnav; simpl.
    - by exists nav.
    - destruct (act_inv a nav Hnav) as (nav1 & -> & H1). simpl. by apply IH. }
  destruct (Hrun start) as (nav & E & Hinv).
  { split; simpl; [lia|]. split; [reflexivity|]. split.
    - intros entry Hin. apply list_elem_of_singleton in Hin as ->. simpl.
      split; [discriminate | done].
    - intros i a b Ha Hb. by destruct i. }
  pose proof Hinv as (Hi & _ & Hsel & _).
  destruct (lookup_lt_is_Some_2 _ _ Hi) as [entry He].
  exists nav, entry. split; [exact E|]. split; [exact Hinv|].
  split; [exact He|].
  pose proof (Hsel entry (list_elem_of_lookup_2 _ _ _ He)) as Hs.
  unfold renderContent. destruct (view entry) eqn:Ev; try reflexivity.
  destruct (selected entry) as [s|]; [by split|].
  exfalso. by apply (proj1 Hs).
Qed.

(** X20. Going to an entry other than the current one and then back shows
    the entry that was current, with nothing left to go forward to before
    the step back and exactly the new entry after it; going to the current
    entry changes nothing. *)
Theorem navigate_then_back (v : View) (s : option Selected) (nav : Navigation)
    (current : HistoryState)
    (Hcurrent : currentHistoryEntry nav = Some current) :
  navigate (view current) (selected current) nav = Normal nav
  /\ ({| view := v; selected := s |} <> current ->
      exists nav',
        navigate v s nav = Normal nav'
        /\ currentHistoryEntry nav' = Some {| view := v; selected := s |}
        /\ canGoForward nav' = false
        /\ canGoBack nav' = true
        /\ currentHistoryEntry (handleBack nav') = Some current
        /\ handleForward (handleBack nav') = nav').
Proof.
  unfold currentHistoryEntry in Hcurrent.
  pose proof (lookup_lt_Some _ _ _ Hcurrent) as Hi.
  split.
  { destruct (navigate_inside (view current) (selected current) nav Hi)
      as (c & Hc & ->).
    rewrite Hcurrent in Hc. injection Hc as <-.
    by rewrite !bool_decide_eq_true_2. }
  intros Hne. destruct (navigate_inside v s nav Hi) as (c & Hc & ->).
  rewrite Hcurrent in Hc. injection Hc as <-.
  assert (bool_decide (view current = v) && bool_decide (selected current = s)
          = false) as ->.
  { apply andb_false_iff.
    destruct (decide (view current = v)) as [Ev|Ev];
      [|left; by apply bool_decide_eq_false].
    right. apply bool_decide_eq_false. intros Es. apply Hne.
    destruct current. simpl in *. by subst. }
  set (newHistory := take (historyIndex nav + 1) (history nav)
                     ++ [{| view := v; selected := s |}]).
  assert (length (take (historyIndex nav + 1) (history nav)) = historyIndex nav + 1)%nat
    as Hlen by (rewrite length_take; lia).
  assert (length newHistory = historyIndex nav + 2)%nat as Hnew
    by (unfold newHistory; rewrite length_app, Hlen; simpl; lia).
  eexists. split; [reflexivity|].
  assert (handleBack {| history := newHistory;
                        historyIndex := (historyIndex nav + 1)%nat |}
          = {| history := newHistory; historyIndex := historyIndex nav |}) as Hback.
  { unfold handleBack, canGoBack. simpl.
    rewrite bool_decide_eq_true_2 by lia. f_equal. lia. }
  rewrite Hback. unfold currentHistoryEntry, canGoForward, canGoBack. simpl.
  split.
  { unfold newHistory. rewrite lookup_app_r by lia. rewrite Hlen.
    by replace (historyIndex nav + 1 - (historyIndex nav + 1))%nat
         with 0%nat by lia. }
  split; [apply bool_decide_eq_false; lia|].
  split; [apply bool_decide_eq_true; lia|].
  split.
  { unfold newHistory. rewrite lookup_app_l by lia.
    by rewrite lookup_take_lt by lia. }
  unfold handleForward, canGoForward. simpl.
  by rewrite bool_decide_eq_true_2 by lia.
Qed.

End Views.


Lemma navigate_then_back_witness :
  exists nav',
    App.navigate App.dashboard None App.start = Normal nav'
    /\ App.currentHistoryEntry nav'
       = Some {| App.view := App.dashboard; App.selected := None |}
    /\ App.canGoForward nav' = false
    /\ App.canGoBack nav' = true
    /\ App.currentHistoryEntry (App.handleBack nav')
       = Some {| App.view := App.selector; App.selected := None |}
    /\ App.handleForward (App.handleBack nav') = nav'.
Proof.
  apply (navigate_then_back App.dashboard None App.start
           {| App.view := App.selector; App.selected := None |}).
  - reflexivity.
  - discriminate.
Defined.
